(** * SudReg API guide: the client-side UI state controller (script.js)

    A shallow embedding of [script.js] and the properties of its theme,
    language, navigation, framework tab, code copy and assistant functions.

    Conventions of the embedding.
    - A JavaScript string is the [string] of its UTF-8 bytes.
    - The document is a tree of elements and text nodes; an element is
      addressed by its path of child indices from [document.documentElement].
      A node list returned by [querySelectorAll] is the list of paths in
      document order.  An element that was removed from the document is no
      longer reachable under its path, and a write to it leaves the document
      as it is.
    - Functions that read or write the page run in the monad [M], which
      threads the page and stops at the first exception.
    - The document is in no-quirks mode: ids and class names are compared
      exactly.  Element names are stored in lower case.
    - [localStorage] is a map with no quota.
    - Of [initNavigation] the registration and the observer callback are
      given.  [copyCode] runs in a session: the page together with the
      clipboard requests and the pending timers; its [then] callback and the
      timer's closure are steps of their own, taken when the browser runs
      them. *)

From Stdlib Require Import ZArith String Ascii List Bool Lia.
From stdpp Require Import base option list strings gmap.

Local Open Scope string_scope.
Local Open Scope Z_scope.
Local Open Scope list_scope.

(** ** Strings *)

Module Str.

(** ASCII lower-casing, as applied by the DOM to attribute names. *)
Definition lower_ascii (c : ascii) : ascii :=
  let n := nat_of_ascii c in
  if ((65 <=? n) && (n <=? 90))%nat then ascii_of_nat (n + 32) else c.

Fixpoint lower (s : string) : string :=
  match s with
  | EmptyString => EmptyString
  | String c r => String (lower_ascii c) (lower r)
  end.

Definition is_alpha (c : ascii) : bool :=
  let n := nat_of_ascii c in
  (((65 <=? n) && (n <=? 90)) || ((97 <=? n) && (n <=? 122)))%nat.

Definition is_digit (c : ascii) : bool :=
  let n := nat_of_ascii c in ((48 <=? n) && (n <=? 57))%nat.

(** The marks that [encodeURIComponent] leaves alone: - _ . ! ~ * ' ( ) *)
Definition is_mark (c : ascii) : bool :=
  let n := nat_of_ascii c in
  ((n =? 45) || (n =? 95) || (n =? 46) || (n =? 33) || (n =? 126)
   || (n =? 42) || (n =? 39) || (n =? 40) || (n =? 41))%nat.

Definition unreserved (c : ascii) : bool :=
  is_alpha c || is_digit c || is_mark c.

Definition hex_digit (n : nat) : ascii :=
  if (n <? 10)%nat then ascii_of_nat (48 + n) else ascii_of_nat (55 + n).

Definition percent (c : ascii) : string :=
  let n := nat_of_ascii c in
  String "%" (String (hex_digit (n / 16)) (String (hex_digit (n mod 16)) EmptyString)).

(** [encodeURIComponent]: every byte of the UTF-8 form that is not
    unreserved becomes %XX with upper-case hexadecimal digits. *)
Fixpoint encodeURIComponent (s : string) : string :=
  match s with
  | EmptyString => EmptyString
  | String c r =>
      (if unreserved c then String c EmptyString else percent c)
        +:+ encodeURIComponent r
  end.

(** The characters of an encoded component: unreserved ones and the
    percent sign; none of them separates or ends a query parameter. *)
Definition query_safe (c : ascii) : bool :=
  unreserved c || (nat_of_ascii c =? 37)%nat.

(** A CSS identifier written without escapes and in ASCII. *)
Definition ident_start (c : ascii) : bool :=
  is_alpha c || (nat_of_ascii c =? 95)%nat.

Definition ident_char (c : ascii) : bool :=
  is_alpha c || is_digit c || (nat_of_ascii c =? 95)%nat || (nat_of_ascii c =? 45)%nat.

Fixpoint all_chars (f : ascii -> bool) (s : string) : bool :=
  match s with
  | EmptyString => true
  | String c r => f c && all_chars f r
  end.

Definition is_ident (s : string) : bool :=
  match s with
  | EmptyString => false
  | String c r => ident_start c && all_chars ident_char r
  end.

End Str.

(** ** The document tree *)

Module Dom.

(** What an element carries besides its children. *)
Record edata := mkData {
  tagName : string;               (* local name, lower case *)
  attrs : gmap string string;     (* content attributes other than class and style *)
  classList : list string;        (* the tokens of the class attribute *)
  display : string;               (* el.style.display *)
  offsetTop : Z                   (* layout: distance to the top of the offset parent, as
                                     the browser reports it when the script reads it; the
                                     writes below do not recompute it, and nothing is
                                     stated about it after a write *)
}.

Inductive child (E : Type) : Type :=
  | TextNode (s : string)
  | ElemNode (el : E).
Arguments TextNode {E} s.
Arguments ElemNode {E} el.

Local Unset Elimination Schemes.
Inductive element : Type :=
  | Element (e : edata) (childNodes : list (child element)).
Local Set Elimination Schemes.

Definition data (el : element) : edata :=
  match el with Element e _ => e end.

Definition childNodes (el : element) : list (child element) :=
  match el with Element _ ks => ks end.

Definition path := list nat.

(** The element under a path, when there is one. *)
Fixpoint get (p : path) (el : element) : option element :=
  match p with
  | [] => Some el
  | i :: p' =>
      match childNodes el !! i with
      | Some (ElemNode c) => get p' c
      | _ => None
      end
  end.

Definition on_child (f : element -> element) (k : child element) : child element :=
  match k with ElemNode c => ElemNode (f c) | TextNode s => TextNode s end.

(** Apply [f] to the element under a path; nothing happens when the path
    leads to no element. *)
Fixpoint modify (f : element -> element) (p : path) (el : element) : element :=
  match p with
  | [] => f el
  | i :: p' => Element (data el) (alter (on_child (modify f p')) i (childNodes el))
  end.

(** Field writes. *)
Definition with_data (g : edata -> edata) (el : element) : element :=
  Element (g (data el)) (childNodes el).

Definition set_display (v : string) (e : edata) : edata :=
  mkData (tagName e) (attrs e) (classList e) v (offsetTop e).

Definition set_attr (name v : string) (e : edata) : edata :=
  mkData (tagName e) (<[Str.lower name := v]> (attrs e)) (classList e) (display e) (offsetTop e).

(** [el.href = v] writes the href attribute on the elements whose interface
    reflects it; on any other element it only adds a property to the
    JavaScript object and the document stays as it is. *)
Definition reflects_href (e : edata) : bool :=
  bool_decide (tagName e ∈ ["link"; "a"; "area"; "base"]).

Definition set_href (v : string) (e : edata) : edata :=
  if reflects_href e then set_attr "href" v e else e.

Definition set_classList (cl : list string) (e : edata) : edata :=
  mkData (tagName e) (attrs e) cl (display e) (offsetTop e).

(** [el.getAttribute(name)]: [None] is JavaScript's null. *)
Definition getAttribute (name : string) (e : edata) : option string :=
  attrs e !! Str.lower name.

(** [el.id]: the id attribute, or the empty string. *)
Definition id_of (e : edata) : string := default "" (attrs e !! "id").

Definition contains (token : string) (cl : list string) : bool :=
  bool_decide (token ∈ cl).

(** [classList.toggle(token, force)] *)
Definition classList_toggle_force (token : string) (force : bool) (cl : list string) : list string :=
  if force then (if contains token cl then cl else cl ++ [token])
  else filter (fun c => c ≠ token) cl.

(** [classList.toggle(token)] *)
Definition classList_toggle (token : string) (cl : list string) : list string :=
  if contains token cl then filter (fun c => c ≠ token) cl else cl ++ [token].

(** The children after [el.textContent = v]: null and the empty string leave
    no child, any other string leaves one text node. *)
Definition text_children (v : option string) : list (child element) :=
  match v with
  | None => []
  | Some s => if decide (s = "") then [] else [TextNode s]
  end.

Definition set_textContent (v : edata -> option string) (el : element) : element :=
  Element (data el) (text_children (v (data el))).

(** [el.textContent]: the text of all descendants, in document order. *)
Definition text_of (rec : element -> string) (k : child element) : string :=
  match k with
  | TextNode s => s
  | ElemNode c => rec c
  end.

Fixpoint textContent (el : element) : string :=
  match el with
  | Element _ ks => foldr (fun k acc => text_of textContent k +:+ acc) EmptyString ks
  end.

(** An element is hidden by its own inline style when that says none. *)
Definition visible (e : edata) : bool := negb (bool_decide (display e = "none")).

(** The ancestors of the element under a path, nearest first. *)
Fixpoint ancestors (p : path) (el : element) : list edata :=
  match p with
  | [] => []
  | i :: p' =>
      match childNodes el !! i with
      | Some (ElemNode c) => ancestors p' c ++ [data el]
      | _ => []
      end
  end.

(** *** Selectors *)

Inductive simple :=
  | ById (name : string)
  | ByClass (name : string)
  | ByAttr (name : string)
  | ByTag (name : string).

(** A compound selector, alone or below an ancestor (descendant combinator). *)
Inductive complex :=
  | Subject (c : list simple)
  | Below (ancestor : list simple) (c : list simple).

(** A selector list: A, B, ... *)
Definition selector := list complex.

Definition simple_matches (s : simple) (e : edata) : bool :=
  match s with
  | ById n => bool_decide (attrs e !! "id" = Some n)
  | ByClass n => contains n (classList e)
  | ByAttr n => bool_decide (is_Some (attrs e !! n))
  | ByTag n => bool_decide (tagName e = n)
  end.

Definition compound_matches (c : list simple) (e : edata) : bool :=
  forallb (fun s => simple_matches s e) c.

Definition complex_matches (c : complex) (ancestors : list edata) (e : edata) : bool :=
  match c with
  | Subject s => compound_matches s e
  | Below a s => compound_matches s e && existsb (compound_matches a) ancestors
  end.

Definition matches (sel : selector) (ancestors : list edata) (e : edata) : bool :=
  existsb (fun c => complex_matches c ancestors e) sel.

(** The paths of the matching elements of a subtree, in document order.
    [here] is the path of [el] read backwards, [anc] its ancestors, nearest
    first. *)
Definition walk_children (rec : path -> element -> list path) (here : path)
    : nat -> list (child element) -> list path :=
  fix kids (i : nat) (l : list (child element)) : list path :=
    match l with
    | [] => []
    | k :: r =>
        match k with
        | TextNode _ => kids (S i) r
        | ElemNode c => rec (i :: here) c ++ kids (S i) r
        end
    end.

Fixpoint walk (sel : selector) (anc : list edata) (here : path) (el : element) : list path :=
  match el with
  | Element e ks =>
      (if matches sel anc e then [rev here] else [])
        ++ walk_children (walk sel (e :: anc)) here 0%nat ks
  end.

Definition querySelectorAll (sel : selector) (doc : element) : list path :=
  walk sel [] [] doc.

Definition querySelector (sel : selector) (doc : element) : option path :=
  head (querySelectorAll sel doc).

End Dom.

(** ** The page and the monad of the script *)

Module Js.

Import Dom.

(** What the script reads and writes besides the document. *)
Record page := mkPage {
  document : element;                 (* rooted at document.documentElement *)
  localStorage : gmap string string;
  innerWidth : Z;                     (* window.innerWidth *)
  scrolls : list (Z * string);        (* window.scrollTo({top, behavior}) requests, oldest first *)
  windows : list (string * string);   (* window.open(url, target) calls, oldest first *)
  defaultPrevented : bool;            (* of the event being dispatched *)
  observer : option (list path * list path);  (* observed sections, captured navLinks *)
  click_listeners : list path         (* anchors that carry the click listener *)
}.

Definition set_document (d : element) (pg : page) : page :=
  mkPage d (localStorage pg) (innerWidth pg) (scrolls pg) (windows pg)
         (defaultPrevented pg) (observer pg) (click_listeners pg).

Definition set_localStorage (m : gmap string string) (pg : page) : page :=
  mkPage (document pg) m (innerWidth pg) (scrolls pg) (windows pg)
         (defaultPrevented pg) (observer pg) (click_listeners pg).

Definition set_scrolls (l : list (Z * string)) (pg : page) : page :=
  mkPage (document pg) (localStorage pg) (innerWidth pg) l (windows pg)
         (defaultPrevented pg) (observer pg) (click_listeners pg).

Definition set_windows (l : list (string * string)) (pg : page) : page :=
  mkPage (document pg) (localStorage pg) (innerWidth pg) (scrolls pg) l
         (defaultPrevented pg) (observer pg) (click_listeners pg).

Definition set_defaultPrevented (b : bool) (pg : page) : page :=
  mkPage (document pg) (localStorage pg) (innerWidth pg) (scrolls pg) (windows pg)
         b (observer pg) (click_listeners pg).

Definition set_observer (o : option (list path * list path)) (pg : page) : page :=
  mkPage (document pg) (localStorage pg) (innerWidth pg) (scrolls pg) (windows pg)
         (defaultPrevented pg) o (click_listeners pg).

Definition set_click_listeners (l : list path) (pg : page) : page :=
  mkPage (document pg) (localStorage pg) (innerWidth pg) (scrolls pg) (windows pg)
         (defaultPrevented pg) (observer pg) l.

Inductive exn := TypeError | SyntaxError.

(** How a call ends.  [HostDefined] marks a step whose outcome is left to the
    browser and lies outside this embedding (a selector outside the parsed
    fragment, a property of a built-in object). *)
Inductive result (A : Type) : Type :=
  | Ok (a : A)
  | Throw (e : exn)
  | HostDefined.
Arguments Ok {A} a.
Arguments Throw {A} e.
Arguments HostDefined {A}.

Definition M (A : Type) : Type := page -> result A * page.

#[export] Instance M_ret : MRet M := fun A a pg => (Ok a, pg).

#[export] Instance M_bind : MBind M := fun A B f m pg =>
  match m pg with
  | (Ok a, pg') => f a pg'
  | (Throw e, pg') => (Throw e, pg')
  | (HostDefined, pg') => (HostDefined, pg')
  end.

Definition throw {A} (e : exn) : M A := fun pg => (Throw e, pg).
Definition host_defined {A} : M A := fun pg => (HostDefined, pg).
Definition read {A} (f : page -> A) : M A := fun pg => (Ok (f pg), pg).
Definition write (f : page -> page) : M unit := fun pg => (Ok tt, f pg).

Fixpoint forEach {A} (l : list A) (f : A -> M unit) : M unit :=
  match l with
  | [] => mret tt
  | x :: r => f x ;; forEach r f
  end.

(** A property read or a member write on null. *)
Definition deref (o : option path) : M path :=
  match o with
  | Some p => mret p
  | None => throw TypeError
  end.

(** *** The browser interface used by the script *)

Definition update_document (f : element -> element) : M unit :=
  write (fun pg => set_document (f (document pg)) pg).

(** A write to the fields of the element object [el]. *)
Definition update_element (el : path) (g : edata -> edata) : M unit :=
  update_document (modify (with_data g) el).

(** The fields of an element of the document. *)
Definition read_element (el : path) : M edata :=
  fun pg => match get el (document pg) with
            | Some x => (Ok (data x), pg)
            | None => (HostDefined, pg)
            end.

Definition documentElement_getAttribute (name : string) : M (option string) :=
  read (fun pg => getAttribute name (data (document pg))).

Definition documentElement_setAttribute (name v : string) : M unit :=
  update_element [] (set_attr name v).

(** [document.documentElement.lang] reflects the lang attribute. *)
Definition documentElement_lang : M string :=
  read (fun pg => default "" (getAttribute "lang" (data (document pg)))).

Definition documentElement_set_lang (v : string) : M unit :=
  update_element [] (set_attr "lang" v).

Definition localStorage_getItem (key : string) : M (option string) :=
  read (fun pg => localStorage pg !! key).

Definition localStorage_setItem (key v : string) : M unit :=
  write (fun pg => set_localStorage (<[key := v]> (localStorage pg)) pg).

Definition document_querySelector (sel : selector) : M (option path) :=
  read (fun pg => querySelector sel (document pg)).

Definition document_querySelectorAll (sel : selector) : M (list path) :=
  read (fun pg => querySelectorAll sel (document pg)).

Definition document_getElementById (name : string) : M (option path) :=
  document_querySelector [Subject [ById name]].

(** Reading a selector string.  [#ident] and [ident] are parsed, the empty
    string and a lone [#] are known to be malformed, any other string is
    left to the browser. *)
Inductive parsed :=
  | Selector (sel : selector)
  | Malformed
  | Unparsed.

Definition parse_selector (s : string) : parsed :=
  match s with
  | EmptyString => Malformed
  | String "#" EmptyString => Malformed
  | String "#" name =>
      if Str.is_ident name then Selector [Subject [ById name]] else Unparsed
  | _ =>
      if Str.is_ident s then Selector [Subject [ByTag (Str.lower s)]] else Unparsed
  end.

(** [document.querySelector(v)] for a value [v] that is a string or null;
    null is converted to the string "null". *)
Definition document_querySelector_value (v : option string) : M (option path) :=
  match parse_selector (default "null" v) with
  | Selector sel => document_querySelector sel
  | Malformed => throw SyntaxError
  | Unparsed => host_defined
  end.

Definition window_scrollTo (top : Z) (behavior : string) : M unit :=
  write (fun pg => set_scrolls (scrolls pg ++ [(top, behavior)]) pg).

Definition window_open (url target : string) : M unit :=
  write (fun pg => set_windows (windows pg ++ [(url, target)]) pg).

Definition window_innerWidth : M Z := read innerWidth.

Definition preventDefault : M unit := write (set_defaultPrevented true).

(** [a || b] on a value that is a string or null. *)
Definition or_else (a : option string) (b : string) : string :=
  match a with
  | Some s => if decide (s = "") then b else s
  | None => b
  end.

End Js.

(** ** script.js *)

Module Script.

Import Dom Js.

Definition sel_sun_icon : selector := [Subject [ByClass "sun-icon"]].
Definition sel_moon_icon : selector := [Subject [ByClass "moon-icon"]].
Definition sel_data_lang : selector := [Subject [ByAttr "data-lang"]].
Definition sel_data_hr_en : selector := [Subject [ByAttr "data-hr"]; Subject [ByAttr "data-en"]].
Definition sel_lang_buttons : selector := [Below [ByClass "lang-switcher-inline"] [ByTag "button"]].
Definition sel_section : selector := [Subject [ByClass "section"]].
Definition sel_sidebar_links : selector := [Below [ByClass "sidebar-nav"] [ByTag "a"]].

Definition prism_dark : string :=
  "https://cdnjs.cloudflare.com/ajax/libs/prism/1.29.0/themes/prism-tomorrow.min.css".
Definition prism_light : string :=
  "https://cdnjs.cloudflare.com/ajax/libs/prism/1.29.0/themes/prism.min.css".

(** [el.style.display = v], a TypeError when [el] is null. *)
Definition set_style_display (el : option path) (v : string) : M unit :=
  p ← deref el; update_element p (set_display v).

(** [if (el) el.href = v] *)
Definition set_href_if_present (el : option path) (v : string) : M unit :=
  match el with
  | Some p => update_element p (set_href v)
  | None => mret tt
  end.

(** --- Theme Management --- *)

Definition setTheme (theme : string) : M unit :=
  documentElement_setAttribute "data-theme" theme ;;
  localStorage_setItem "theme" theme ;;
  sunIcon ← document_querySelector sel_sun_icon;
  moonIcon ← document_querySelector sel_moon_icon;
  prismTheme ← document_getElementById "prism-theme";
  if decide (theme = "dark") then
    set_style_display sunIcon "none" ;;
    set_style_display moonIcon "block" ;;
    set_href_if_present prismTheme prism_dark
  else
    set_style_display sunIcon "block" ;;
    set_style_display moonIcon "none" ;;
    set_href_if_present prismTheme prism_light.

Definition toggleTheme : M unit :=
  currentTheme ← documentElement_getAttribute "data-theme";
  let newTheme := if decide (currentTheme = Some "dark") then "light" else "dark" in
  setTheme newTheme.

(** --- Language Management --- *)

Definition show_if_lang (lang : string) (e : edata) : edata :=
  set_display (if decide (getAttribute "data-lang" e = Some lang) then "" else "none") e.

Definition localized (lang : string) (e : edata) : option string :=
  getAttribute ("data-" +:+ lang) e.

Definition mark_lang_button (lang : string) (e : edata) : edata :=
  set_classList
    (classList_toggle_force "active"
       (bool_decide (id_of e = "lang-" +:+ lang +:+ "-btn")) (classList e)) e.

Definition switchLanguage (lang : string) : M unit :=
  documentElement_set_lang lang ;;
  localStorage_setItem "language" lang ;;
  els ← document_querySelectorAll sel_data_lang;
  forEach els (fun el => update_element el (show_if_lang lang)) ;;
  els ← document_querySelectorAll sel_data_hr_en;
  forEach els (fun el => update_document (modify (set_textContent (localized lang)) el)) ;;
  btns ← document_querySelectorAll sel_lang_buttons;
  forEach btns (fun btn => update_element btn (mark_lang_button lang)).

(** --- Sidebar & Navigation --- *)

Definition toggleSidebar : M unit :=
  sidebar ← document_getElementById "sidebar";
  el ← deref sidebar;
  update_element el (fun e => set_classList (classList_toggle "active" (classList e)) e).

Definition mark_link (id : option string) (e : edata) : edata :=
  set_classList
    (classList_toggle_force "active"
       (bool_decide (getAttribute "href" e = Some ("#" +:+ default "null" id)))
       (classList e)) e.

(** The callback of the intersection observer. *)
Definition on_intersection (navLinks : list path) (entries : list (bool * path)) : M unit :=
  forEach entries (fun entry =>
    if entry.1 then
      target ← read_element entry.2;
      let id := getAttribute "id" target in
      forEach navLinks (fun link => update_element link (mark_link id))
    else mret tt).

Definition initNavigation : M unit :=
  sections ← document_querySelectorAll sel_section;
  navLinks ← document_querySelectorAll sel_sidebar_links;
  write (set_observer (Some (sections, navLinks))).

(** --- AI Assistant --- *)

Local Unset Elimination Schemes.
Inductive jsval :=
  | Undefined
  | JStr (s : string)
  | Obj (own : list (string * jsval))
  | Builtin (key : string).   (* a member of Object.prototype *)
Local Set Elimination Schemes.

Definition object_prototype_keys : list string :=
  ["constructor"; "__defineGetter__"; "__defineSetter__"; "hasOwnProperty";
   "__lookupGetter__"; "__lookupSetter__"; "isPrototypeOf"; "propertyIsEnumerable";
   "toString"; "valueOf"; "__proto__"; "toLocaleString"].

Fixpoint own_property (k : string) (l : list (string * jsval)) : option jsval :=
  match l with
  | [] => None
  | (k', v) :: r => if decide (k = k') then Some v else own_property k r
  end.

(** [o[k]]: own properties first, then Object.prototype. *)
Definition get_property (o : jsval) (k : string) : M jsval :=
  match o with
  | Undefined => throw TypeError
  | Obj own =>
      match own_property k own with
      | Some v => mret v
      | None => if bool_decide (k ∈ object_prototype_keys) then mret (Builtin k) else mret Undefined
      end
  | JStr _ => host_defined
  | Builtin _ => host_defined
  end.

Definition truthy (v : jsval) : bool :=
  match v with
  | Undefined => false
  | JStr s => negb (bool_decide (s = ""))
  | Obj _ => true
  | Builtin _ => true
  end.

Definition to_string (v : jsval) : M string :=
  match v with
  | Undefined => mret "undefined"
  | JStr s => mret s
  | Obj _ => mret "[object Object]"
  | Builtin _ => host_defined
  end.

Definition prompts : jsval :=
  Obj [
    ("hr", Obj [
      ("general", JStr "Zdravo BornAI! Želim naučiti više o SudReg API-ju. Možeš li mi pomoći?");
      ("beginner_concepts", JStr "Pojasni mi osnovne koncepte API-ja (HTTP, JSON, Endpoint) na jednostavan način.");
      ("auth_help", JStr "Trebam pomoć oko OAuth2 autentifikacije za SudReg API. Kako to funkcionira?");
      ("endpoints", JStr "Možeš li mi objasniti različite krajnje točke (endpoints) SudReg API-ja i što koja radi?")
    ]);
    ("en", Obj [
      ("general", JStr "Hello BornAI! I want to learn more about the SudReg API. Can you help me?");
      ("beginner_concepts", JStr "Explain the basic API concepts (HTTP, JSON, Endpoint) to me in a simple way.");
      ("auth_help", JStr "I need help with OAuth2 authentication for the SudReg API. How does it work?");
      ("endpoints", JStr "Can you explain the different SudReg API endpoints and what each one does?")
    ])
  ].

Definition bornAI_base : string := "https://bornai.com.hr/?q=".

Definition askAI (context : string) : M unit :=
  l ← documentElement_lang;
  let lang := if decide (l = "") then "hr" else l in
  table ← get_property prompts lang;
  first ← get_property table context;
  prompt ← (if truthy first then mret first
            else table' ← get_property prompts lang; get_property table' "general");
  text ← to_string prompt;
  let bornAIUrl := bornAI_base +:+ Str.encodeURIComponent text in
  window_open bornAIUrl "_blank".

(** --- Initialization --- *)

(** The click listener of a sidebar link; [this] is the link. *)
Definition sidebar_link_click (this : path) : M unit :=
  preventDefault ;;
  anchor ← read_element this;
  let targetId := getAttribute "href" anchor in
  targetElement ← document_querySelector_value targetId;
  match targetElement with
  | Some t =>
      target ← read_element t;
      window_scrollTo (offsetTop target - 80) "smooth" ;;
      w ← window_innerWidth;
      if w <=? 1024 then toggleSidebar else mret tt
  | None => mret tt
  end.

Definition addEventListener_click (anchor : path) : M unit :=
  write (fun pg => set_click_listeners (click_listeners pg ++ [anchor]) pg).

Definition on_DOMContentLoaded : M unit :=
  saved ← localStorage_getItem "theme";
  let savedTheme := or_else saved "dark" in
  setTheme savedTheme ;;
  saved ← localStorage_getItem "language";
  let savedLang := or_else saved "hr" in
  switchLanguage savedLang ;;
  initNavigation ;;
  anchors ← document_querySelectorAll sel_sidebar_links;
  forEach anchors addEventListener_click.

(** A click on the element [a]: the listener runs when [a] carries it, an
    exception of the listener is reported and does not stop the dispatch; the
    result tells whether the browser then follows the link (the native jump). *)
Definition click (a : path) (pg : page) : bool * page :=
  let pg0 := set_defaultPrevented false pg in
  let pg1 := if bool_decide (a ∈ click_listeners pg)
             then (sidebar_link_click a pg0).2 else pg0 in
  (negb (defaultPrevented pg1), pg1).

End Script.

(** ** A small page in the shape of index.html *)

Module Sample.

Import Dom Js.

Definition el (tag : string) (a : list (string * string)) (classes : list string)
    (top : Z) (ks : list (child element)) : child element :=
  ElemNode (Element (mkData tag (list_to_map a) classes "" top) ks).

Definition nav_link (href hr en : string) : child element :=
  el "a" [("href", href); ("data-hr", hr); ("data-en", en)] [] 0 [TextNode hr].

Definition body : list (child element) :=
  [ el "aside" [("id", "sidebar")] ["sidebar"] 0
      [ el "nav" [] ["sidebar-nav"] 0
          [ nav_link "#pregled" "Pregled" "Overview";
            nav_link "#auth" "Autentifikacija" "Authentication";
            nav_link "#missing" "Nema" "Missing" ];
        el "div" [] ["lang-switcher-inline"] 0
          [ el "button" [("id", "lang-hr-btn")] [] 0 [TextNode "HR"];
            el "button" [("id", "lang-en-btn")] [] 0 [TextNode "EN"] ];
        el "button" [] ["theme-toggle"] 0
          [ el "span" [] ["sun-icon"] 0 [];
            el "span" [] ["moon-icon"] 0 [] ] ];
    el "main" [] [] 0
      [ el "section" [("id", "pregled")] ["section"] 120
          [ el "p" [("data-lang", "hr")] [] 0 [TextNode "Dobrodosli"];
            el "p" [("data-lang", "en")] [] 0 [TextNode "Welcome"] ];
        el "section" [("id", "auth")] ["section"] 900
          [ el "p" [("data-lang", "hr")] [] 0 [TextNode "Prijava"];
            el "p" [("data-lang", "en")] [] 0 [TextNode "Sign in"] ] ] ].

Definition head : list (child element) :=
  [ el "link" [("id", "prism-theme"); ("rel", "stylesheet"); ("href", Script.prism_dark)] [] 0 [] ].

Definition html (a : list (string * string)) : element :=
  Element (mkData "html" (list_to_map a) [] "" 0)
    [ el "head" [] [] 0 head; el "body" [] [] 0 body ].

(** A first visit on a wide window: nothing stored, no theme attribute. *)
Definition fresh : page :=
  mkPage (html [("lang", "hr")]) ∅ 1280 [] [] false None [].

Definition narrow (pg : page) : page :=
  mkPage (document pg) (localStorage pg) 800 (scrolls pg) (windows pg)
         (defaultPrevented pg) (observer pg) (click_listeners pg).

(** The page after the startup handler. *)
Definition started : page := (Script.on_DOMContentLoaded fresh).2.

(** A page whose language attribute names no prompt table. *)
Definition german : page :=
  mkPage (html [("lang", "de")]) ∅ 1280 [] [] false None [].

Definition english : page :=
  mkPage (html [("lang", "en")]) ∅ 1280 [] [] false None [].

(** The dark page of this tab after another tab stored the light theme. *)
Definition other_tab_light : page :=
  set_localStorage (<["theme" := "light"]> (localStorage started)) started.

Definition sun_path : path := [1; 0; 2; 0]%nat.
Definition moon_path : path := [1; 0; 2; 1]%nat.

End Sample.

(** ** Relations and abbreviations used by the statements *)

Module Rel.

Import Dom Js Script.

(** How one write [modify f q] can change the element under a fixed path:
    not at all, by [f] itself, or somewhere below one of its children. *)
Inductive touched (f : element -> element) : element -> element -> Prop :=
  | touched_same x : touched f x x
  | touched_here x : touched f x (f x)
  | touched_below x j h :
      touched f x (Element (data x) (alter (on_child h) j (childNodes x))).

(** [f] brings no element into the children of the element it writes. *)
Definition keeps_children (f : element -> element) : Prop :=
  forall x i c, childNodes (f x) !! i = Some (ElemNode c) ->
                childNodes x !! i = Some (ElemNode c).

(** A write to the fields leaves the selector's verdicts as they were, for
    the written element as subject and as ancestor. *)
Definition blind (sel : selector) (g : edata -> edata) : Prop :=
  (forall anc e, matches sel anc (g e) = matches sel anc e)
  /\ (forall a1 a2 e0 e, matches sel (a1 ++ g e0 :: a2) e = matches sel (a1 ++ e0 :: a2) e).

(** The page [setTheme theme] leaves when the icons are [sun] and [moon] and
    the stylesheet link is [prism]. *)
Definition themed_document (theme : string) (sun moon : path) (prism : option path)
    (d : element) : element :=
  let dark := bool_decide (theme = "dark") in
  let d1 := modify (with_data (set_attr "data-theme" theme)) [] d in
  let d2 := modify (with_data (set_display (if dark then "none" else "block"))) sun d1 in
  let d3 := modify (with_data (set_display (if dark then "block" else "none"))) moon d2 in
  match prism with
  | Some p => modify (with_data (set_href (if dark then prism_dark else prism_light))) p d3
  | None => d3
  end.

Definition themed (theme : string) (sun moon : path) (prism : option path) (pg : page) : page :=
  set_document (themed_document theme sun moon prism (document pg))
    (set_localStorage (<["theme" := theme]> (localStorage pg)) pg).

(** The display of the first element a selector finds. *)
Definition icon_visible (sel : selector) (pg : page) : option bool :=
  p ← querySelector sel (document pg);
  x ← get p (document pg);
  Some (visible (data x)).

(** The theme state of a page: root attribute, persisted value, and whether
    the sun and the moon icon are visible. *)
Definition theme_state (pg : page)
    : option string * option string * option bool * option bool :=
  (getAttribute "data-theme" (data (document pg)),
   localStorage pg !! "theme",
   icon_visible sel_sun_icon pg,
   icon_visible sel_moon_icon pg).

(** A loop of writes over a node list. *)
Definition run_loop (f : element -> element) (qs : list path) (el : element) : element :=
  foldl (fun d q => modify f q d) el qs.

(** The three loops of [switchLanguage] on a document. *)
Definition language_loops (lang : string) (d : element) : element :=
  let d1 := run_loop (with_data (show_if_lang lang)) (querySelectorAll sel_data_lang d) d in
  let d2 := run_loop (set_textContent (localized lang)) (querySelectorAll sel_data_hr_en d1) d1 in
  run_loop (with_data (mark_lang_button lang)) (querySelectorAll sel_lang_buttons d2) d2.

(** The name and the attributes, which no loop of [switchLanguage] writes. *)
Definition same_frame (x y : element) : Prop :=
  tagName (data y) = tagName (data x)
  /\ attrs (data y) = attrs (data x).

(** The fields that its second and third loop leave alone. *)
Definition same_display (x y : element) : Prop :=
  attrs (data y) = attrs (data x) /\ display (data y) = display (data x).

(** An element with a data-lang attribute is displayed exactly when that
    attribute is the language. *)
Definition shown (l : string) (x : element) : Prop :=
  forall v, getAttribute "data-lang" (data x) = Some v ->
            display (data x) = if decide (v = l) then "" else "none".

(** The children of an element are its localized text. *)
Definition texted (l : string) (x : element) : Prop :=
  childNodes x = text_children (localized l (data x)).

(** An element that carries one of the per-language text attributes: the
    second loop of [switchLanguage] replaces its children by one text. *)
Definition labelled (e : edata) : bool :=
  bool_decide (is_Some (getAttribute "data-hr" e))
  || bool_decide (is_Some (getAttribute "data-en" e)).

(** The element under [p] lies inside a labelled element. *)
Definition inside_label (p : path) (doc : element) : bool :=
  existsb labelled (ancestors p doc).

Definition valid_theme (t : string) : Prop := t = "dark" \/ t = "light".
Definition valid_lang (l : string) : Prop := l = "hr" \/ l = "en".

(** The keys of each prompt table. *)
Definition topic_keys : list string :=
  ["general"; "beginner_concepts"; "auth_help"; "endpoints"].

(** The general prompt of a language. *)
Definition general_prompt (lang : string) : string :=
  if decide (lang = "en")
  then "Hello BornAI! I want to learn more about the SudReg API. Can you help me?"
  else "Zdravo BornAI! Želim naučiti više o SudReg API-ju. Možeš li mi pomoći?".

End Rel.

(** ** script.js, continued: framework tabs and code copy *)

Module Widgets.

Import Dom Js Script.

(** --- Framework Tabs --- *)

Definition sel_framework_content : selector := [Subject [ByClass "framework-content"]].
Definition sel_tab_btn : selector := [Subject [ByClass "tab-btn"]].

Fixpoint starts_with (sub s : string) : bool :=
  match sub with
  | EmptyString => true
  | String a r =>
      match s with
      | EmptyString => false
      | String b t => bool_decide (a = b) && starts_with r t
      end
  end.

(** [s.includes(sub)] *)
Fixpoint includes (s sub : string) : bool :=
  starts_with sub s
  || match s with
     | EmptyString => false
     | String _ t => includes t sub
     end.

Definition mark_content (framework : string) (e : edata) : edata :=
  set_classList
    (classList_toggle_force "active" (bool_decide (id_of e = framework)) (classList e)) e.

Definition mark_active (force : bool) (e : edata) : edata :=
  set_classList (classList_toggle_force "active" force (classList e)) e.

(** [btn.classList.toggle('active', btn.getAttribute('onclick').includes(framework))];
    the method call on null, for a button without onclick, is a TypeError. *)
Definition mark_tab (framework : string) (btn : path) : M unit :=
  b ← read_element btn;
  match getAttribute "onclick" b with
  | None => throw TypeError
  | Some onclick => update_element btn (mark_active (includes onclick framework))
  end.

Definition showFramework (framework : string) : M unit :=
  contents ← document_querySelectorAll sel_framework_content;
  forEach contents (fun content => update_element content (mark_content framework)) ;;
  btns ← document_querySelectorAll sel_tab_btn;
  forEach btns (mark_tab framework).

(** --- Code Copy --- *)

(** The page together with what [copyCode] hands to the browser. *)
Record session := mkSession {
  page_of : page;
  clipboard_writes : list string;   (* navigator.clipboard.writeText(text) requests, oldest first *)
  timers : list (path * string)     (* pending setTimeout(..., 2000) closures: button and
                                       originalText; all have the same delay, so they fire
                                       oldest first *)
}.

Definition MS (A : Type) : Type := session -> result A * session.

#[export] Instance MS_ret : MRet MS := fun A a s => (Ok a, s).

#[export] Instance MS_bind : MBind MS := fun A B f m s =>
  match m s with
  | (Ok a, s') => f a s'
  | (Throw e, s') => (Throw e, s')
  | (HostDefined, s') => (HostDefined, s')
  end.

(** A step of the page inside a session. *)
Definition lift {A} (m : M A) : MS A := fun s =>
  let r := m (page_of s) in
  (r.1, mkSession r.2 (clipboard_writes s) (timers s)).

Definition clipboard_writeText (text : string) : MS unit := fun s =>
  (Ok tt, mkSession (page_of s) (clipboard_writes s ++ [text]) (timers s)).

Definition setTimeout_restore (button : path) (originalText : string) : MS unit := fun s =>
  (Ok tt, mkSession (page_of s) (clipboard_writes s) (timers s ++ [(button, originalText)])).

(** The index of the first element among [ks], counted from [j]. *)
Fixpoint find_element (j : nat) (ks : list (child element)) : option nat :=
  match ks with
  | [] => None
  | k :: r =>
      match k with
      | ElemNode _ => Some j
      | TextNode _ => find_element (S j) r
      end
  end.

Definition split_last (p : path) : option (path * nat) :=
  match rev p with
  | [] => None
  | i :: rp => Some (rev rp, i)
  end.

(** [el.nextElementSibling] *)
Definition next_element_sibling (p : path) (doc : element) : option path :=
  match split_last p with
  | None => None
  | Some (parent, i) =>
      match get parent doc with
      | None => None
      | Some par =>
          match find_element (S i) (drop (S i) (childNodes par)) with
          | None => None
          | Some j => Some (parent ++ [j])
          end
      end
  end.

Definition nextElementSibling (el : path) : M (option path) :=
  read (fun pg => next_element_sibling el (document pg)).

(** [el.querySelector(sel)]: the first matching descendant of [el]. *)
Definition querySelector_within (sel : selector) (p : path) (doc : element) : option path :=
  match get p doc with
  | None => None
  | Some el =>
      head (walk_children (walk sel (data el :: ancestors p doc)) (rev p) 0%nat
              (childNodes el))
  end.

Definition element_querySelector (el : path) (sel : selector) : M (option path) :=
  read (fun pg => querySelector_within sel el (document pg)).

Definition sel_code : selector := [Subject [ByTag "code"]].

(** [el.textContent] of an element of the document. *)
Definition read_textContent (el : path) : M string :=
  fun pg => match get el (document pg) with
            | Some x => (Ok (textContent x), pg)
            | None => (HostDefined, pg)
            end.

(** [el.textContent = v] *)
Definition write_textContent (el : path) (v : string) : M unit :=
  update_document (modify (set_textContent (fun _ => Some v)) el).

(** The synchronous part of [copyCode]: up to the clipboard request.  The
    [then] callback is [copyCode_written], run when the browser reports the
    write done. *)
Definition copyCode (button : path) : MS unit :=
  pre ← lift (nextElementSibling button);
  pre ← lift (deref pre);
  codeEl ← lift (element_querySelector pre sel_code);
  codeEl ← lift (deref codeEl);
  code ← lift (read_textContent codeEl);
  clipboard_writeText code.

(** The callback passed to [then]. *)
Definition copyCode_written (button : path) : MS unit :=
  originalText ← lift (read_textContent button);
  lift (write_textContent button "Copied!") ;;
  setTimeout_restore button originalText.

(** The oldest pending timer fires: [button.textContent = originalText]. *)
Definition timer_fires : MS unit := fun s =>
  match timers s with
  | [] => (Ok tt, s)
  | (button, originalText) :: rest =>
      lift (write_textContent button originalText)
        (mkSession (page_of s) (clipboard_writes s) rest)
  end.

End Widgets.

(** ** More sample pages *)

Module Sample2.

Import Dom Js Widgets.

(** A page without the theme icons. *)
Definition no_icons : page :=
  mkPage (Element (mkData "html" ∅ [] "" 0)
            [ Sample.el "body" [] [] 0 [ Sample.el "main" [] [] 0 [] ] ])
         ∅ 1280 [] [] false None [].

(** A page with the sun icon only. *)
Definition no_moon : page :=
  mkPage (Element (mkData "html" ∅ [] "" 0)
            [ Sample.el "body" [] [] 0 [ Sample.el "span" [] ["sun-icon"] 0 [] ] ])
         ∅ 1280 [] [] false None [].

Definition tab (onclick : list (string * string)) (label : string) : child element :=
  Sample.el "button" onclick ["tab-btn"] 0 [TextNode label].

Definition sample_block (id : string) (classes : list string) (code : string) : child element :=
  Sample.el "div" [("id", id)] classes 0
    [ Sample.el "button" [("onclick", "copyCode(this)")] ["copy-btn"] 0 [TextNode "Copy"];
      TextNode " ";
      Sample.el "pre" [] [] 0 [ Sample.el "code" [] [] 0 [TextNode code] ] ].

Definition tabs_body (third : list (string * string)) : list (child element) :=
  [ Sample.el "div" [] ["framework-tabs"] 0
      [ tab [("onclick", "showFramework('node')")] "Node";
        tab [("onclick", "showFramework('node-express')")] "Express";
        tab third "PHP" ];
    sample_block "node" ["framework-content"; "active"] "grant_type=client_credentials";
    sample_block "node-express" ["framework-content"] "app.listen(3000)";
    sample_block "php" ["framework-content"] "curl_init()" ].

Definition tabs_page (third : list (string * string)) : page :=
  mkPage (Element (mkData "html" ∅ [] "" 0) [ Sample.el "body" [] [] 0 (tabs_body third) ])
         ∅ 1280 [] [] false None [].

(** The examples section of the guide. *)
Definition examples : page := tabs_page [("onclick", "showFramework('php')")].

(** The same with a tab button that has no onclick attribute. *)
Definition broken_tab : page := tabs_page [].

Definition copy_button : path := [0; 1; 0]%nat.

(** A page whose one link, with a lone # as href, carries the click
    listener. *)
Definition hash_link : page :=
  mkPage
    (Element (mkData "html" ∅ [] "" 0)
       [ Sample.el "body" [] [] 0
           [ Sample.el "a" [("href", "#")] [] 0 [TextNode "Top"] ] ])
    ∅ 1280 [] [] false None [[0; 0]%nat].

(** A page whose English block lies inside an element with the per-language
    text attributes. *)
Definition nested_block : page :=
  mkPage
    (Element (mkData "html" ∅ [] "" 0)
       [ Sample.el "body" [] [] 0
           [ Sample.el "div" [("data-hr", "Uvod"); ("data-en", "Intro")] [] 0
               [ Sample.el "p" [("data-lang", "en")] [] 0 [TextNode "Welcome"] ] ] ])
    ∅ 1280 [] [] false None [].

(** A narrow page with a link and its target, and no sidebar element. *)
Definition no_sidebar : page :=
  mkPage
    (Element (mkData "html" ∅ [] "" 0)
       [ Sample.el "body" [] [] 0
           [ Sample.el "a" [("href", "#top")] [] 0 [TextNode "Top"];
             Sample.el "section" [("id", "top")] ["section"] 300 [] ] ])
    ∅ 800 [] [] false None [].

Definition examples_session : session := mkSession examples [] [].

End Sample2.

(** ** Abbreviations used by the further statements *)

Module Rel2.

Import Dom Js Script Widgets.

(** What [mark_tab] writes to a button, read off the button's own onclick
    attribute. *)
Definition mark_tab_data (framework : string) (e : edata) : edata :=
  mark_active (includes (default "" (getAttribute "onclick" e)) framework) e.

(** The sessions of one button press that the browser reports written, and
    of two such presses before the first timer fires. *)
Definition press_and_wait (button : path) : MS unit :=
  copyCode button ;; copyCode_written button ;; timer_fires.

Definition press_twice_and_wait (button : path) : MS unit :=
  copyCode button ;; copyCode_written button ;;
  copyCode button ;; copyCode_written button ;;
  timer_fires ;; timer_fires.

End Rel2.

(** * Properties *)

Import Dom Js Script Rel.

(** ** The document tree *)

Section element_induction.

Variable P : element -> Prop.
Hypothesis step :
  forall e ks, (forall i c, ks !! i = Some (ElemNode c) -> P c) -> P (Element e ks).

Lemma element_ind : forall el, P el.
Proof.
  fix IH 1. intros [e ks]. apply step.
  assert (Forall (fun k => match k with ElemNode c => P c | TextNode _ => True end) ks)
    as Hall.
  { induction ks as [|k ks IHks]; constructor; [|exact IHks].
    destruct k as [s|c]; [exact I|apply IH]. }
  intros i c Hi. exact (proj1 (Forall_lookup _ _) Hall i _ Hi).
Qed.

End element_induction.

Lemma get_cons_Some i p el x :
  get (i :: p) el = Some x <->
  exists c, childNodes el !! i = Some (ElemNode c) /\ get p c = Some x.
Proof.
  simpl. destruct (childNodes el !! i) as [[s|c]|]; split.
  all: try (intros H; discriminate H).
  all: try (intros (c' & H & _); discriminate H).
  - intros H. exists c. auto.
  - intros (c' & H & Hg). injection H as ->. exact Hg.
Qed.

(** The fields under a path after a write to the fields under [q]. *)
Lemma get_modify_data g p : forall q el,
  data <$> get p (modify (with_data g) q el)
  = if decide (p = q) then g <$> (data <$> get p el) else data <$> get p el.
Proof.
  induction p as [|i p IH]; intros q el.
  - destruct q as [|j q]; reflexivity.
  - destruct q as [|j q].
    + reflexivity.
    + cbn [modify get childNodes].
      destruct (decide (i = j)) as [->|Hij].
      * rewrite list_lookup_alter_eq.
        destruct (childNodes el !! j) as [[s|c]|] eqn:Hk; cbn [fmap option_fmap option_map on_child].
        -- case_decide; reflexivity.
        -- rewrite IH. destruct (decide (p = q)) as [->|Hpq].
           ++ rewrite !decide_True by reflexivity. reflexivity.
           ++ rewrite !decide_False by congruence. reflexivity.
        -- case_decide; reflexivity.
      * rewrite list_lookup_alter_ne by congruence.
        rewrite decide_False by congruence. reflexivity.
Qed.

Lemma data_modify_data g q el :
  data (modify (with_data g) q el) = if decide (q = []) then g (data el) else data el.
Proof. destruct q; reflexivity. Qed.

Lemma get_modify_data_ne g p q el :
  p <> q -> data <$> get p (modify (with_data g) q el) = data <$> get p el.
Proof. intros H. rewrite get_modify_data, decide_False by exact H. reflexivity. Qed.

Lemma get_modify_data_eq g p el :
  data <$> get p (modify (with_data g) p el) = g <$> (data <$> get p el).
Proof. rewrite get_modify_data, decide_True by reflexivity. reflexivity. Qed.

Lemma get_modify_data_is_Some g p q el :
  is_Some (get p (modify (with_data g) q el)) <-> is_Some (get p el).
Proof.
  rewrite <- !(fmap_is_Some data), get_modify_data.
  destruct (decide (p = q)); [rewrite fmap_is_Some|]; reflexivity.
Qed.

(** The element under a path after one write. *)
Lemma get_modify_touched f (Hf : keeps_children f) p : forall q el x',
  get p (modify f q el) = Some x' ->
  exists x, get p el = Some x /\ touched f x x'.
Proof.
  induction p as [|i p IH]; intros q el x' H.
  - exists el. split; [reflexivity|]. simpl in H. injection H as <-.
    destruct q as [|j q]; simpl; constructor.
  - destruct q as [|j q].
    + cbn [modify] in H. apply get_cons_Some in H as (c & Hc & Hg).
      exists x'. split; [|constructor].
      apply get_cons_Some. exists c. split; [|exact Hg]. exact (Hf _ _ _ Hc).
    + cbn [modify] in H. apply get_cons_Some in H as (c' & Hc & Hg).
      cbn [childNodes] in Hc.
      destruct (decide (j = i)) as [->|Hij].
      * rewrite list_lookup_alter_eq in Hc.
        destruct (childNodes el !! i) as [[s|c]|] eqn:Hk; try discriminate Hc.
        cbn in Hc. injection Hc as <-.
        destruct (IH _ _ _ Hg) as (x & Hx & Ht).
        exists x. split; [|exact Ht]. apply get_cons_Some. eauto.
      * rewrite list_lookup_alter_ne in Hc by exact Hij.
        exists x'. split; [|constructor]. apply get_cons_Some. eauto.
Qed.

Lemma get_modify_here f q : forall el x',
  get q (modify f q el) = Some x' -> exists x, get q el = Some x /\ x' = f x.
Proof.
  induction q as [|i q IH]; intros el x' H.
  - simpl in H. injection H as <-. exists el. auto.
  - cbn [modify] in H. apply get_cons_Some in H as (c' & Hc & Hg).
    cbn [childNodes] in Hc. rewrite list_lookup_alter_eq in Hc.
    destruct (childNodes el !! i) as [[s|c]|] eqn:Hk; try discriminate Hc.
    cbn in Hc. injection Hc as <-.
    destruct (IH _ _ Hg) as (x & Hx & ->).
    exists x. split; [|reflexivity]. apply get_cons_Some. eauto.
Qed.

Section loops.

Variable f : element -> element.
Hypothesis f_keeps : keeps_children f.

(** What survives a loop of writes is related to what was there before by
    any preorder that each single write respects. *)
Lemma loop_related (R : element -> element -> Prop) :
  (forall x, R x x) ->
  (forall x y z, R x y -> R y z -> R x z) ->
  (forall x x', touched f x x' -> R x x') ->
  forall qs p el x',
    get p (run_loop f qs el) = Some x' -> exists x, get p el = Some x /\ R x x'.
Proof.
  intros Hrefl Htrans HR qs. unfold run_loop.
  induction qs as [|q qs IH]; intros p el x' H; simpl in H.
  - exists x'. auto.
  - destruct (IH _ _ _ H) as (x1 & H1 & R1).
    destruct (get_modify_touched f f_keeps _ _ _ _ H1) as (x & Hx & Ht).
    exists x. split; [exact Hx|]. eapply Htrans; [apply HR; exact Ht|exact R1].
Qed.

(** A property that [f] establishes and that no write of the loop breaks
    holds afterwards of every listed element still in the document. *)
Lemma loop_establishes (Q : element -> Prop) :
  (forall x, Q (f x)) ->
  (forall x x', touched f x x' -> Q x -> Q x') ->
  forall qs p el x',
    p ∈ qs -> get p (run_loop f qs el) = Some x' -> Q x'.
Proof.
  intros Hf Ht qs.
  induction qs as [|q qs IH]; intros p el x' Hin H.
  - apply elem_of_nil in Hin. destruct Hin.
  - simpl in H. apply elem_of_cons in Hin as [->|Hin].
    + destruct (loop_related (fun x y => Q x -> Q y)) with (qs := qs) (p := q)
        (el := modify f q el) (x' := x') as (x1 & H1 & HQ); auto.
      destruct (get_modify_here _ _ _ _ H1) as (x & _ & ->).
      apply HQ, Hf.
    + exact (IH _ _ _ Hin H).
Qed.

End loops.

(** ** Selectors *)

Lemma elem_of_walk_children rec here p : forall ks i,
  p ∈ walk_children rec here i ks <->
  exists j c, ks !! j = Some (ElemNode c) /\ p ∈ rec ((i + j)%nat :: here) c.
Proof.
  induction ks as [|k ks IH]; intros i; simpl.
  - rewrite elem_of_nil. split; [tauto|]. intros (j & c & H & _). discriminate H.
  - destruct k as [s|c0].
    + rewrite IH. split.
      * intros (j & c & Hj & Hp). exists (S j), c. split; [exact Hj|].
        replace (i + S j)%nat with (S i + j)%nat by lia. exact Hp.
      * intros (j & c & Hj & Hp). destruct j as [|j]; [discriminate Hj|].
        exists j, c. split; [exact Hj|].
        replace (S i + j)%nat with (i + S j)%nat by lia. exact Hp.
    + rewrite elem_of_app, IH. split.
      * intros [Hp|(j & c & Hj & Hp)].
        -- exists 0%nat, c0. split; [reflexivity|].
           replace (i + 0)%nat with i by lia. exact Hp.
        -- exists (S j), c. split; [exact Hj|].
           replace (i + S j)%nat with (S i + j)%nat by lia. exact Hp.
      * intros (j & c & Hj & Hp). destruct j as [|j].
        -- injection Hj as ->. left.
           replace (i + 0)%nat with i in Hp by lia. exact Hp.
        -- right. exists j, c. split; [exact Hj|].
           replace (S i + j)%nat with (i + S j)%nat by lia. exact Hp.
Qed.

(** [walk] lists exactly the paths of the matching elements. *)
Lemma elem_of_walk sel : forall el anc here p,
  p ∈ walk sel anc here el <->
  exists q x, p = rev here ++ q /\ get q el = Some x
              /\ matches sel (ancestors q el ++ anc) (data x) = true.
Proof.
  induction el as [e ks IH] using element_ind. intros anc here p.
  cbn [walk]. rewrite elem_of_app, elem_of_walk_children. split.
  - intros [Hp|(j & c & Hj & Hp)].
    + destruct (matches sel anc e) eqn:Hm; [|apply elem_of_nil in Hp; destruct Hp].
      apply list_elem_of_singleton in Hp as ->.
      exists [], (Element e ks). rewrite app_nil_r. auto.
    + apply (IH _ _ Hj) in Hp as (q & x & -> & Hg & Hm).
      exists (j :: q), x. split; [|split].
      * simpl. rewrite <- app_assoc. reflexivity.
      * apply get_cons_Some. eauto.
      * cbn [ancestors childNodes]. rewrite Hj, <- app_assoc. exact Hm.
  - intros (q & x & -> & Hg & Hm). destruct q as [|j q].
    + left. injection Hg as <-. simpl in Hm. rewrite Hm, app_nil_r.
      apply list_elem_of_singleton. reflexivity.
    + right. apply get_cons_Some in Hg as (c & Hj & Hg). cbn [childNodes] in Hj.
      exists j, c. split; [exact Hj|]. apply (IH _ _ Hj).
      exists q, x. split; [|split].
      * simpl. rewrite <- app_assoc. reflexivity.
      * exact Hg.
      * cbn [ancestors childNodes] in Hm. rewrite Hj, <- app_assoc in Hm. exact Hm.
Qed.

Lemma elem_of_querySelectorAll sel doc p :
  p ∈ querySelectorAll sel doc <->
  exists x, get p doc = Some x /\ matches sel (ancestors p doc) (data x) = true.
Proof.
  unfold querySelectorAll. rewrite elem_of_walk. split.
  - intros (q & x & -> & Hg & Hm). rewrite app_nil_r in Hm. eauto.
  - intros (x & Hg & Hm). exists p, x. rewrite app_nil_r. auto.
Qed.

(** What [querySelector] returns is an element of the document that matches. *)
Lemma querySelector_Some sel doc p :
  querySelector sel doc = Some p ->
  exists x, get p doc = Some x /\ matches sel (ancestors p doc) (data x) = true.
Proof.
  intros H. apply elem_of_querySelectorAll.
  unfold querySelector in H. apply head_Some_elem_of. exact H.
Qed.

(** [querySelector] returns null exactly when no element matches. *)
Lemma querySelector_None sel doc :
  querySelector sel doc = None <->
  forall p x, get p doc = Some x -> matches sel (ancestors p doc) (data x) = false.
Proof.
  unfold querySelector. rewrite head_None. split.
  - intros Hnil p x Hg. destruct (matches _ _ _) eqn:Hm; [|reflexivity].
    assert (p ∈ querySelectorAll sel doc) as Hin
      by (apply elem_of_querySelectorAll; eauto).
    rewrite Hnil in Hin. apply elem_of_nil in Hin. destruct Hin.
  - intros Hno. apply elem_of_nil_inv. intros p Hin.
    apply elem_of_querySelectorAll in Hin as (x & Hg & Hm).
    rewrite (Hno _ _ Hg) in Hm. discriminate Hm.
Qed.

Lemma walk_children_ext rec1 rec2 here : forall ks i,
  (forall j c h, ks !! j = Some (ElemNode c) -> rec1 h c = rec2 h c) ->
  walk_children rec1 here i ks = walk_children rec2 here i ks.
Proof.
  induction ks as [|k ks IH]; intros i H; simpl; [reflexivity|].
  destruct k as [s|c].
  - apply IH. intros j c h Hj. exact (H (S j) c h Hj).
  - rewrite (H 0%nat c _ eq_refl). f_equal.
    apply IH. intros j c' h Hj. exact (H (S j) c' h Hj).
Qed.

Lemma walk_children_alter rec m here :
  (forall h c, rec h (m c) = rec h c) ->
  forall ks i j,
    walk_children rec here i (alter (on_child m) j ks) = walk_children rec here i ks.
Proof.
  intros H. induction ks as [|k ks IH]; intros i j; [reflexivity|].
  destruct j as [|j].
  - destruct k as [s|c]; simpl; [reflexivity|]. rewrite H. reflexivity.
  - change (alter (on_child m) (S j) (k :: ks)) with (k :: alter (on_child m) j ks).
    destruct k as [s|c]; simpl; rewrite (IH (S i) j); reflexivity.
Qed.

Section blind_writes.

Variables (sel : selector) (g : edata -> edata).
Hypothesis g_blind : blind sel g.

(** Rewriting the fields of one ancestor changes no verdict below it. *)
Lemma walk_ancestor_blind a2 e0 : forall el a1 here,
  walk sel (a1 ++ g e0 :: a2) here el = walk sel (a1 ++ e0 :: a2) here el.
Proof.
  induction el as [e ks IH] using element_ind. intros a1 here.
  cbn [walk]. rewrite (proj2 g_blind). f_equal.
  apply walk_children_ext. intros j c h Hj.
  exact (IH _ _ Hj (e :: a1) h).
Qed.

(** A write to fields the selector does not look at changes no query. *)
Lemma walk_modify_data q : forall el anc here,
  walk sel anc here (modify (with_data g) q el) = walk sel anc here el.
Proof.
  induction q as [|j q IH]; intros [e ks] anc here.
  - cbn [modify with_data data childNodes walk].
    rewrite (proj1 g_blind). f_equal.
    apply walk_children_ext. intros i c h _.
    exact (walk_ancestor_blind anc e c [] h).
  - cbn [modify data childNodes walk]. f_equal.
    apply walk_children_alter. intros h c. apply IH.
Qed.

Lemma querySelectorAll_modify_data q el :
  querySelectorAll sel (modify (with_data g) q el) = querySelectorAll sel el.
Proof. apply walk_modify_data. Qed.

Lemma querySelector_modify_data q el :
  querySelector sel (modify (with_data g) q el) = querySelector sel el.
Proof. unfold querySelector. rewrite querySelectorAll_modify_data. reflexivity. Qed.

End blind_writes.

(** The writes of [setTheme] and the selectors it queries. *)

Lemma blind_class_display c v : blind [Subject [ByClass c]] (set_display v).
Proof. split; reflexivity. Qed.

Lemma blind_class_attr c n v : blind [Subject [ByClass c]] (set_attr n v).
Proof. split; reflexivity. Qed.

Lemma blind_class_href c v : blind [Subject [ByClass c]] (set_href v).
Proof.
  split; [|reflexivity]. intros anc e. unfold set_href.
  destruct (reflects_href e); reflexivity.
Qed.

Lemma blind_id_display i v : blind [Subject [ById i]] (set_display v).
Proof. split; reflexivity. Qed.

Lemma blind_id_attr i n v :
  Str.lower n <> "id" -> blind [Subject [ById i]] (set_attr n v).
Proof.
  intros Hn. split.
  - intros anc e. cbn. rewrite lookup_insert_ne by exact Hn. reflexivity.
  - reflexivity.
Qed.

Lemma blind_id_href i v : blind [Subject [ById i]] (set_href v).
Proof.
  split; [|reflexivity]. intros anc e. unfold set_href.
  destruct (reflects_href e); [|reflexivity].
  apply (proj1 (blind_id_attr i "href" v ltac:(discriminate))).
Qed.

(** ** Running the monad *)

Ltac unfold_M :=
  repeat progress unfold mbind, mret, M_bind, M_ret, throw, host_defined, read, write, deref.

Ltac unfold_browser :=
  unfold documentElement_getAttribute, documentElement_setAttribute,
    documentElement_lang, documentElement_set_lang,
    localStorage_getItem, localStorage_setItem,
    document_getElementById, document_querySelector, document_querySelectorAll,
    window_scrollTo, window_open, window_innerWidth, preventDefault,
    set_style_display, set_href_if_present, update_element, update_document.

Lemma set_document_id pg : set_document (document pg) pg = pg.
Proof. destruct pg; reflexivity. Qed.

Lemma update_document_run f pg :
  update_document f pg = (Ok tt, set_document (f (document pg)) pg).
Proof. reflexivity. Qed.

Lemma forEach_update_document (F : path -> element -> element) l : forall pg,
  forEach l (fun el => update_document (F el)) pg
  = (Ok tt, set_document (foldl (fun d el => F el d) (document pg) l) pg).
Proof.
  induction l as [|q l IH]; intros pg.
  - simpl. unfold_M. rewrite set_document_id. reflexivity.
  - cbn [forEach foldl]. unfold_M.
    change (update_document (F q) pg) with (Ok tt, set_document (F q (document pg)) pg).
    cbn iota. rewrite IH. reflexivity.
Qed.

(** ** setTheme *)

Lemma lower_data_theme_not_id : Str.lower "data-theme" <> "id".
Proof. discriminate. Qed.

(** With both icons in the document [setTheme] returns, and leaves the page
    [themed]. *)
Lemma setTheme_run t pg ps pm :
  querySelector sel_sun_icon (document pg) = Some ps ->
  querySelector sel_moon_icon (document pg) = Some pm ->
  setTheme t pg
  = (Ok tt, themed t ps pm (querySelector [Subject [ById "prism-theme"]] (document pg)) pg).
Proof.
  intros Hs Hm. unfold setTheme. unfold_browser. unfold_M.
  cbn [document set_document set_localStorage].
  unfold sel_sun_icon, sel_moon_icon in *.
  rewrite !(querySelector_modify_data _ _ (blind_class_attr _ _ _)).
  rewrite !(querySelector_modify_data _ _ (blind_id_attr _ _ _ lower_data_theme_not_id)).
  rewrite Hs, Hm. unfold themed, themed_document.
  destruct (decide (t = "dark")) as [->|Hne].
  - rewrite bool_decide_eq_true_2 by reflexivity.
    destruct (querySelector [Subject [ById "prism-theme"]] (document pg)); reflexivity.
  - rewrite bool_decide_eq_false_2 by exact Hne.
    destruct (querySelector [Subject [ById "prism-theme"]] (document pg)); reflexivity.
Qed.

(** Without a sun icon [setTheme] stops with a TypeError, after the root
    attribute and the stored value were written. *)
Lemma setTheme_no_sun_icon t pg :
  querySelector sel_sun_icon (document pg) = None ->
  setTheme t pg
  = (Throw TypeError,
     set_localStorage (<["theme" := t]> (localStorage pg))
       (set_document (modify (with_data (set_attr "data-theme" t)) [] (document pg)) pg)).
Proof.
  intros Hs. unfold setTheme. unfold_browser. unfold_M.
  cbn [document set_document set_localStorage].
  unfold sel_sun_icon in *.
  rewrite !(querySelector_modify_data _ _ (blind_class_attr _ _ _)).
  rewrite Hs. destruct (decide (t = "dark")); reflexivity.
Qed.

(** The fields of the elements of a themed document. *)
Section themed_fields.

Variables (t : string) (ps pm : path) (pp : option path) (d : element).

Lemma themed_display p x' :
  get p (themed_document t ps pm pp d) = Some x' ->
  exists x, get p d = Some x /\
    display (data x') =
      if decide (p = pm) then (if bool_decide (t = "dark") then "block" else "none")
      else if decide (p = ps) then (if bool_decide (t = "dark") then "none" else "block")
      else display (data x).
Proof.
  intros H. apply (f_equal (fmap data)) in H. unfold themed_document in H.
  set (dark := bool_decide (t = "dark")) in *.
  assert (forall n v (o : option edata) e',
    (if decide (p = n) then set_href v <$> o else o) = Some e' ->
    exists e, o = Some e /\ display e' = display e) as Hhref.
  { intros n v o e' Ho. destruct (decide (p = n)) as [_|_].
    - destruct o as [e|]; [|discriminate Ho]. injection Ho as <-.
      exists e. split; [reflexivity|]. unfold set_href.
      destruct (reflects_href e); reflexivity.
    - eauto. }
  assert (exists e3, data <$> get p
      (modify (with_data (set_display (if dark then "block" else "none"))) pm
        (modify (with_data (set_display (if dark then "none" else "block"))) ps
          (modify (with_data (set_attr "data-theme" t)) [] d))) = Some e3
      /\ display (data x') = display e3) as (e3 & H3 & ->).
  { destruct pp as [n|].
    - rewrite get_modify_data in H. apply Hhref in H as (e & He & Hd). eauto.
    - cbn in H. eauto. }
  clear H Hhref. rewrite !get_modify_data in H3.
  destruct (get p d) as [x|] eqn:Hx.
  - exists x. split; [reflexivity|].
    destruct (decide (p = pm)), (decide (p = ps)), (decide (p = []));
      cbn in H3; injection H3 as <-; reflexivity.
  - destruct (decide (p = pm)), (decide (p = ps)), (decide (p = []));
      cbn in H3; discriminate H3.
Qed.

Lemma themed_is_Some p :
  is_Some (get p d) -> is_Some (get p (themed_document t ps pm pp d)).
Proof.
  intros H. unfold themed_document.
  destruct pp; rewrite !get_modify_data_is_Some; exact H.
Qed.

Lemma themed_root_attribute :
  getAttribute "data-theme" (data (themed_document t ps pm pp d)) = Some t.
Proof.
  assert (forall e, getAttribute "data-theme" e = Some t ->
            forall v, getAttribute "data-theme" (set_display v e) = Some t) as Hd
    by (intros e He v; exact He).
  assert (forall e, getAttribute "data-theme" e = Some t ->
            forall v, getAttribute "data-theme" (set_href v e) = Some t) as Hh.
  { intros e He v. unfold set_href. destruct (reflects_href e); [|exact He].
    unfold getAttribute, set_attr. cbn.
    rewrite lookup_insert_ne by discriminate. exact He. }
  assert (getAttribute "data-theme" (set_attr "data-theme" t (data d)) = Some t) as H0.
  { unfold getAttribute, set_attr. cbn. apply lookup_insert_eq. }
  unfold themed_document.
  destruct pp as [n|]; rewrite !data_modify_data; cbn [decide_rel];
    repeat case_decide; try congruence; auto.
Qed.

End themed_fields.

Lemma themed_querySelector sel t ps pm pp d :
  (forall v, blind sel (set_display v)) ->
  (forall v, blind sel (set_href v)) ->
  blind sel (set_attr "data-theme" t) ->
  querySelector sel (themed_document t ps pm pp d) = querySelector sel d.
Proof.
  intros Hd Hh Ht. unfold themed_document.
  destruct pp as [n|].
  - rewrite (querySelector_modify_data _ _ (Hh _)), !(querySelector_modify_data _ _ (Hd _)).
    apply (querySelector_modify_data _ _ Ht).
  - rewrite !(querySelector_modify_data _ _ (Hd _)).
    apply (querySelector_modify_data _ _ Ht).
Qed.

Lemma themed_querySelector_class c t ps pm pp d :
  querySelector [Subject [ByClass c]] (themed_document t ps pm pp d)
  = querySelector [Subject [ByClass c]] d.
Proof.
  apply themed_querySelector; intros;
    first [apply blind_class_display | apply blind_class_href | apply blind_class_attr].
Qed.

Lemma themed_querySelector_id i t ps pm pp d :
  querySelector [Subject [ById i]] (themed_document t ps pm pp d)
  = querySelector [Subject [ById i]] d.
Proof.
  apply themed_querySelector; intros.
  - apply blind_id_display.
  - apply blind_id_href.
  - apply blind_id_attr, lower_data_theme_not_id.
Qed.

Lemma themed_href t ps pm pp d link :
  get pp (themed_document t ps pm (Some pp) d) = Some link ->
  reflects_href (data link) = true ->
  getAttribute "href" (data link)
  = Some (if bool_decide (t = "dark") then prism_dark else prism_light).
Proof.
  intros H Hr. apply (f_equal (fmap data)) in H. unfold themed_document in H.
  rewrite get_modify_data_eq in H.
  destruct (data <$> get pp _) as [e|]; [|discriminate H].
  cbn in H. injection H as H. rewrite <- H in *. clear H.
  unfold set_href in *. destruct (reflects_href e) eqn:He.
  - unfold getAttribute, set_attr. cbn. apply lookup_insert_eq.
  - rewrite He in Hr. discriminate Hr.
Qed.

(** The icons of a themed page. *)
Lemma themed_icons t pg ps pm pp :
  querySelector sel_sun_icon (document pg) = Some ps ->
  querySelector sel_moon_icon (document pg) = Some pm ->
  ps <> pm ->
  exists sun moon,
    get ps (document (themed t ps pm pp pg)) = Some sun
    /\ get pm (document (themed t ps pm pp pg)) = Some moon
    /\ display (data sun) = (if bool_decide (t = "dark") then "none" else "block")
    /\ display (data moon) = (if bool_decide (t = "dark") then "block" else "none").
Proof.
  intros Hs Hm Hne. cbn [themed document set_document].
  destruct (querySelector_Some _ _ _ Hs) as (s0 & Hs0 & _).
  destruct (querySelector_Some _ _ _ Hm) as (m0 & Hm0 & _).
  destruct (themed_is_Some t ps pm pp (document pg) ps) as [sun Hsun]; [eauto|].
  destruct (themed_is_Some t ps pm pp (document pg) pm) as [moon Hmoon]; [eauto|].
  exists sun, moon. split; [exact Hsun|]. split; [exact Hmoon|].
  destruct (themed_display _ _ _ _ _ _ _ Hsun) as (x & _ & ->).
  destruct (themed_display _ _ _ _ _ _ _ Hmoon) as (y & _ & ->).
  rewrite (decide_False (P := ps = pm)) by exact Hne.
  rewrite !decide_True by reflexivity. auto.
Qed.

Lemma theme_state_themed t pg ps pm pp :
  querySelector sel_sun_icon (document pg) = Some ps ->
  querySelector sel_moon_icon (document pg) = Some pm ->
  ps <> pm ->
  theme_state (themed t ps pm pp pg)
  = (Some t, Some t, Some (negb (bool_decide (t = "dark"))), Some (bool_decide (t = "dark"))).
Proof.
  intros Hs Hm Hne.
  destruct (themed_icons t pg ps pm pp Hs Hm Hne) as (sun & moon & Hsun & Hmoon & Ds & Dm).
  unfold theme_state, icon_visible.
  cbn [themed document set_document localStorage set_localStorage] in *.
  unfold sel_sun_icon, sel_moon_icon in *.
  rewrite !themed_querySelector_class, Hs, Hm. cbn [mbind option_bind].
  rewrite Hsun, Hmoon. cbn [mbind option_bind]. unfold visible. rewrite Ds, Dm.
  rewrite themed_root_attribute, lookup_insert_eq.
  destruct (bool_decide (t = "dark")); reflexivity.
Qed.

(** C1: for a valid theme value [t], [setTheme t] returns; reading the
    persisted key theme afterwards yields [t]; and of the two icon elements
    exactly one is visible, the moon for dark and the sun for light.  The two
    icons are the first .sun-icon and the first .moon-icon element of the
    document, two different elements. *)
Theorem setTheme_persists_and_shows_one_icon t pg ps pm :
  valid_theme t ->
  querySelector sel_sun_icon (document pg) = Some ps ->
  querySelector sel_moon_icon (document pg) = Some pm ->
  ps <> pm ->
  exists pg' sun moon,
    setTheme t pg = (Ok tt, pg')
    /\ localStorage_getItem "theme" pg' = (Ok (Some t), pg')
    /\ get ps (document pg') = Some sun
    /\ get pm (document pg') = Some moon
    /\ visible (data sun) = bool_decide (t = "light")
    /\ visible (data moon) = bool_decide (t = "dark")
    /\ visible (data sun) = negb (visible (data moon)).
Proof.
  intros Ht Hs Hm Hne.
  pose (pp := querySelector [Subject [ById "prism-theme"]] (document pg)).
  destruct (themed_icons t pg ps pm pp Hs Hm Hne) as (sun & moon & Hsun & Hmoon & Ds & Dm).
  exists (themed t ps pm pp pg), sun, moon.
  split; [apply setTheme_run; assumption|].
  split.
  { unfold localStorage_getItem, read. cbn. rewrite lookup_insert_eq. reflexivity. }
  split; [exact Hsun|]. split; [exact Hmoon|].
  unfold visible. rewrite Ds, Dm.
  destruct Ht as [-> | ->]; repeat split; reflexivity.
Qed.

Lemma setTheme_persists_and_shows_one_icon_witness :
  valid_theme "light"
  /\ querySelector sel_sun_icon (document Sample.fresh) = Some Sample.sun_path
  /\ querySelector sel_moon_icon (document Sample.fresh) = Some Sample.moon_path
  /\ exists pg' sun moon,
       setTheme "light" Sample.fresh = (Ok tt, pg')
       /\ localStorage_getItem "theme" pg' = (Ok (Some "light"), pg')
       /\ get Sample.sun_path (document pg') = Some sun
       /\ get Sample.moon_path (document pg') = Some moon
       /\ visible (data sun) = bool_decide ("light" = "light")
       /\ visible (data moon) = bool_decide ("light" = "dark")
       /\ visible (data sun) = negb (visible (data moon)).
Proof.
  split; [right; reflexivity|]. split; [reflexivity|]. split; [reflexivity|].
  apply (setTheme_persists_and_shows_one_icon "light" Sample.fresh
           Sample.sun_path Sample.moon_path).
  - right; reflexivity.
  - reflexivity.
  - reflexivity.
  - discriminate.
Defined.

(** C9: [setTheme] does not validate its argument.  For every string [t]
    other than dark it takes the light branch: the sun icon is shown, the
    moon icon hidden, the element with the id prism-theme (when there is
    one, a link element in index.html) gets the light sheet as its href; and
    [t] itself is the root attribute and the persisted value. *)
Theorem setTheme_not_dark_is_light_branch t pg ps pm :
  t <> "dark" ->
  querySelector sel_sun_icon (document pg) = Some ps ->
  querySelector sel_moon_icon (document pg) = Some pm ->
  ps <> pm ->
  exists pg' sun moon,
    setTheme t pg = (Ok tt, pg')
    /\ getAttribute "data-theme" (data (document pg')) = Some t
    /\ localStorage pg' !! "theme" = Some t
    /\ get ps (document pg') = Some sun /\ display (data sun) = "block"
    /\ get pm (document pg') = Some moon /\ display (data moon) = "none"
    /\ (forall pp, querySelector [Subject [ById "prism-theme"]] (document pg) = Some pp ->
        exists link, get pp (document pg') = Some link
                     /\ (reflects_href (data link) = true ->
                         getAttribute "href" (data link) = Some prism_light)).
Proof.
  intros Ht Hs Hm Hne.
  pose (pp := querySelector [Subject [ById "prism-theme"]] (document pg)).
  destruct (themed_icons t pg ps pm pp Hs Hm Hne) as (sun & moon & Hsun & Hmoon & Ds & Dm).
  rewrite bool_decide_eq_false_2 in Ds, Dm by exact Ht.
  exists (themed t ps pm pp pg), sun, moon.
  split; [apply setTheme_run; assumption|].
  split; [apply themed_root_attribute|].
  split; [cbn; apply lookup_insert_eq|].
  split; [exact Hsun|]. split; [exact Ds|]. split; [exact Hmoon|]. split; [exact Dm|].
  intros n Hn. subst pp. rewrite Hn in *. cbn [themed document set_document].
  destruct (querySelector_Some _ _ _ Hn) as (l0 & Hl0 & _).
  destruct (themed_is_Some t ps pm (Some n) (document pg) n) as [link Hlink]; [eauto|].
  exists link. split; [exact Hlink|]. intros Hr.
  rewrite (themed_href _ _ _ _ _ _ Hlink Hr), bool_decide_eq_false_2 by exact Ht.
  reflexivity.
Qed.

Lemma setTheme_not_dark_is_light_branch_witness :
  "blue" <> "dark" /\ ~ valid_theme "blue"
  /\ exists pg' sun moon,
       setTheme "blue" Sample.fresh = (Ok tt, pg')
       /\ getAttribute "data-theme" (data (document pg')) = Some "blue"
       /\ localStorage pg' !! "theme" = Some "blue"
       /\ get Sample.sun_path (document pg') = Some sun /\ display (data sun) = "block"
       /\ get Sample.moon_path (document pg') = Some moon /\ display (data moon) = "none"
       /\ (forall pp,
             querySelector [Subject [ById "prism-theme"]] (document Sample.fresh) = Some pp ->
             exists link, get pp (document pg') = Some link
                          /\ (reflects_href (data link) = true ->
                              getAttribute "href" (data link) = Some prism_light)).
Proof.
  split; [discriminate|]. split; [intros [H|H]; discriminate H|].
  apply (setTheme_not_dark_is_light_branch "blue" Sample.fresh
           Sample.sun_path Sample.moon_path).
  - discriminate.
  - reflexivity.
  - reflexivity.
  - discriminate.
Defined.

(** ** toggleTheme *)

Lemma toggleTheme_run pg :
  toggleTheme pg
  = setTheme (if decide (getAttribute "data-theme" (data (document pg)) = Some "dark")
              then "light" else "dark") pg.
Proof. reflexivity. Qed.

(** C4, as the code has it: with no theme attribute on the document root the
    comparison with dark fails, and [toggleTheme] calls [setTheme] with
    dark. *)
Theorem toggleTheme_unset_sets_dark pg :
  getAttribute "data-theme" (data (document pg)) = None ->
  toggleTheme pg = setTheme "dark" pg.
Proof.
  intros H. rewrite toggleTheme_run, H. reflexivity.
Qed.

Lemma toggleTheme_unset_sets_dark_witness :
  getAttribute "data-theme" (data (document Sample.fresh)) = None
  /\ toggleTheme Sample.fresh = setTheme "dark" Sample.fresh.
Proof.
  split; [reflexivity|].
  apply (toggleTheme_unset_sets_dark Sample.fresh). reflexivity.
Defined.

(** C4 as stated fails: on the fresh page, whose root has no theme
    attribute, [toggleTheme] does not do what [setTheme] does with light;
    the root attribute and the persisted value become dark. *)
Lemma toggleTheme_unset_is_not_light :
  getAttribute "data-theme" (data (document Sample.fresh)) = None
  /\ toggleTheme Sample.fresh <> setTheme "light" Sample.fresh
  /\ getAttribute "data-theme" (data (document (toggleTheme Sample.fresh).2)) = Some "dark"
  /\ localStorage (toggleTheme Sample.fresh).2 !! "theme" = Some "dark".
Proof.
  split; [reflexivity|]. split; [|split; reflexivity].
  intros H.
  apply (f_equal (fun r => getAttribute "data-theme" (data (document r.2)))) in H.
  vm_compute in H. discriminate H.
Qed.

(** Two calls of [toggleTheme] from a root attribute [t] that is dark or
    light end in the theme state of [setTheme t], whatever was stored or
    displayed before. *)
Lemma toggleTheme_twice_normalises t pg ps pm :
  valid_theme t ->
  getAttribute "data-theme" (data (document pg)) = Some t ->
  querySelector sel_sun_icon (document pg) = Some ps ->
  querySelector sel_moon_icon (document pg) = Some pm ->
  ps <> pm ->
  exists pg1 pg2,
    toggleTheme pg = (Ok tt, pg1)
    /\ toggleTheme pg1 = (Ok tt, pg2)
    /\ theme_state pg2
       = (Some t, Some t, Some (bool_decide (t = "light")), Some (bool_decide (t = "dark"))).
Proof.
  intros Ht Ha Hs Hm Hne.
  pose (t' := if decide (Some t = Some "dark") then "light" else "dark").
  pose (pp := querySelector [Subject [ById "prism-theme"]] (document pg)).
  pose (pg1 := themed t' ps pm pp pg).
  assert (toggleTheme pg = (Ok tt, pg1)) as H1.
  { rewrite toggleTheme_run, Ha. apply setTheme_run; assumption. }
  assert (querySelector sel_sun_icon (document pg1) = Some ps) as Hs1.
  { unfold sel_sun_icon. cbn. rewrite themed_querySelector_class. exact Hs. }
  assert (querySelector sel_moon_icon (document pg1) = Some pm) as Hm1.
  { unfold sel_moon_icon. cbn. rewrite themed_querySelector_class. exact Hm. }
  assert (getAttribute "data-theme" (data (document pg1)) = Some t') as Ha1
    by apply themed_root_attribute.
  assert ((if decide (Some t' = Some "dark") then "light" else "dark") = t) as Hback.
  { subst t'. destruct Ht as [-> | ->]; reflexivity. }
  pose (pp1 := querySelector [Subject [ById "prism-theme"]] (document pg1)).
  exists pg1, (themed t ps pm pp1 pg1).
  split; [exact H1|]. split.
  - rewrite toggleTheme_run, Ha1, Hback. apply setTheme_run; assumption.
  - rewrite theme_state_themed by assumption.
    destruct Ht as [-> | ->]; reflexivity.
Qed.

(** C6, as the code has it: from a starting state whose root attribute is
    dark or light and whose persisted value and icons agree with it (the
    state every [setTheme] of a valid theme leaves), two calls of
    [toggleTheme] return, and the theme state (root attribute, persisted
    value, visibility of the two icons) is again that of the start. *)
Theorem toggleTheme_involution t pg :
  valid_theme t ->
  theme_state pg
    = (Some t, Some t, Some (bool_decide (t = "light")), Some (bool_decide (t = "dark"))) ->
  querySelector sel_sun_icon (document pg) <> querySelector sel_moon_icon (document pg) ->
  exists pg1 pg2,
    toggleTheme pg = (Ok tt, pg1)
    /\ toggleTheme pg1 = (Ok tt, pg2)
    /\ theme_state pg2 = theme_state pg.
Proof.
  intros Ht Hst Hne.
  assert (getAttribute "data-theme" (data (document pg)) = Some t) as Ha
    by (unfold theme_state in Hst; congruence).
  assert (is_Some (querySelector sel_sun_icon (document pg))) as [ps Hs].
  { unfold theme_state, icon_visible in Hst.
    destruct (querySelector sel_sun_icon (document pg)); [eauto|].
    cbn in Hst. congruence. }
  assert (is_Some (querySelector sel_moon_icon (document pg))) as [pm Hm].
  { unfold theme_state, icon_visible in Hst.
    destruct (querySelector sel_moon_icon (document pg)); [eauto|].
    cbn in Hst. congruence. }
  assert (ps <> pm) as Hpq by (rewrite Hs, Hm in Hne; congruence).
  destruct (toggleTheme_twice_normalises t pg ps pm Ht Ha Hs Hm Hpq)
    as (pg1 & pg2 & H1 & H2 & H3).
  exists pg1, pg2. rewrite H3, Hst. auto.
Qed.

Lemma toggleTheme_involution_witness :
  valid_theme "dark"
  /\ theme_state Sample.started
     = (Some "dark", Some "dark", Some (bool_decide ("dark" = "light")),
        Some (bool_decide ("dark" = "dark")))
  /\ exists pg1 pg2,
       toggleTheme Sample.started = (Ok tt, pg1)
       /\ toggleTheme pg1 = (Ok tt, pg2)
       /\ theme_state pg2 = theme_state Sample.started.
Proof.
  split; [left; reflexivity|]. split; [vm_compute; reflexivity|].
  apply (toggleTheme_involution "dark" Sample.started).
  - left; reflexivity.
  - vm_compute; reflexivity.
  - vm_compute. discriminate.
Defined.

(** C6 as stated fails: a root attribute in the domain does not make the
    start a state that two toggles return to.  In [Sample.other_tab_light]
    the root attribute is dark and the persisted value is light; after two
    toggles the persisted value is dark. *)
Lemma toggleTheme_twice_changes_persisted :
  getAttribute "data-theme" (data (document Sample.other_tab_light)) = Some "dark"
  /\ exists pg1 pg2,
       toggleTheme Sample.other_tab_light = (Ok tt, pg1)
       /\ toggleTheme pg1 = (Ok tt, pg2)
       /\ localStorage Sample.other_tab_light !! "theme" = Some "light"
       /\ localStorage pg2 !! "theme" = Some "dark"
       /\ theme_state pg2 <> theme_state Sample.other_tab_light.
Proof.
  split; [reflexivity|].
  exists (toggleTheme Sample.other_tab_light).2,
         (toggleTheme (toggleTheme Sample.other_tab_light).2).2.
  split; [vm_compute; reflexivity|]. split; [vm_compute; reflexivity|].
  split; [reflexivity|]. split; [reflexivity|].
  vm_compute. discriminate.
Qed.

(** ** switchLanguage *)

Lemma keeps_children_with_data g : keeps_children (with_data g).
Proof. intros x i c H. exact H. Qed.

Lemma keeps_children_set_textContent v : keeps_children (set_textContent v).
Proof.
  intros x i c H. cbn [set_textContent childNodes] in H.
  destruct (v (data x)) as [s|]; cbn [text_children] in H.
  - destruct (decide (s = "")); [discriminate H|].
    destruct i; discriminate H.
  - discriminate H.
Qed.

Lemma alter_text_children h j v :
  alter (on_child h) j (text_children v) = text_children v.
Proof.
  destruct v as [s|]; cbn [text_children]; [|reflexivity].
  destruct (decide (s = "")); [reflexivity|]. destruct j; reflexivity.
Qed.

Lemma append_empty s : s +:+ "" = s.
Proof.
  induction s as [|c s IH]; [reflexivity|].
  change (String c (s +:+ "") = String c s). f_equal. exact IH.
Qed.

Lemma textContent_text_children e v :
  textContent (Element e (text_children v)) = default "" v.
Proof.
  destruct v as [s|]; cbn [text_children]; [|reflexivity].
  destruct (decide (s = "")) as [->|]; [reflexivity|].
  cbn. apply append_empty.
Qed.

(** [switchLanguage] never throws: it is three loops over node lists. *)
Lemma switchLanguage_run l pg :
  switchLanguage l pg
  = (Ok tt,
     set_document
       (language_loops l (modify (with_data (set_attr "lang" l)) [] (document pg)))
       (set_localStorage (<["language" := l]> (localStorage pg)) pg)).
Proof.
  unfold switchLanguage, documentElement_set_lang, update_element,
    localStorage_setItem, document_querySelectorAll.
  unfold_M. rewrite update_document_run.
  cbn [document set_document set_localStorage].
  rewrite forEach_update_document. cbn [document set_document].
  rewrite forEach_update_document. cbn [document set_document].
  rewrite forEach_update_document. cbn [document set_document].
  reflexivity.
Qed.

Section language_loops_facts.

Variables (l : string) (d : element).

Lemma touched_frame f x y :
  (forall z, same_frame z (f z)) -> touched f x y -> same_frame x y.
Proof.
  intros Hf Ht. destruct Ht; [| apply Hf |]; repeat split; reflexivity.
Qed.

Lemma language_loops_frame p x' :
  get p (language_loops l d) = Some x' ->
  exists x, get p d = Some x /\ same_frame x x'.
Proof.
  assert (forall x, same_frame x x) as Hrefl by (repeat split; reflexivity).
  assert (forall x y z, same_frame x y -> same_frame y z -> same_frame x z) as Htrans.
  { intros x y z (A1 & A2) (B1 & B2). repeat split; congruence. }
  intros H. unfold language_loops in H. cbv zeta in H.
  apply (loop_related _ (keeps_children_with_data _) same_frame Hrefl Htrans) in H
    as (x2 & H2 & R2);
    [| intros x y; apply touched_frame; intros z; repeat split; reflexivity].
  apply (loop_related _ (keeps_children_set_textContent _) same_frame Hrefl Htrans) in H2
    as (x1 & H1 & R1);
    [| intros x y; apply touched_frame; intros z; repeat split; reflexivity].
  apply (loop_related _ (keeps_children_with_data _) same_frame Hrefl Htrans) in H1
    as (x0 & H0 & R0);
    [| intros x y; apply touched_frame; intros z; repeat split; reflexivity].
  exists x0. split; [exact H0|]. eapply Htrans; [exact R0|]. eapply Htrans; eauto.
Qed.

(** After the loops an element with a data-lang attribute is displayed
    exactly when that attribute is the language. *)
Lemma language_loops_display p x' :
  get p (language_loops l d) = Some x' -> shown l x'.
Proof.
  assert (forall x, same_display x x) as Hrefl by (split; reflexivity).
  assert (forall x y z, same_display x y -> same_display y z -> same_display x z) as Htrans.
  { intros x y z (A1 & A2) (B1 & B2). split; congruence. }
  assert (forall f, (forall z, same_display z (f z)) ->
            forall x y, touched f x y -> same_display x y) as Htouch.
  { intros f Hf x y Ht. destruct Ht; [| apply Hf |]; split; reflexivity. }
  intros H. unfold language_loops in H. cbv zeta in H.
  apply (loop_related _ (keeps_children_with_data _) same_display Hrefl Htrans) in H
    as (x2 & H2 & R2); [| apply Htouch; intros z; split; reflexivity].
  apply (loop_related _ (keeps_children_set_textContent _) same_display Hrefl Htrans) in H2
    as (x1 & H1 & R1); [| apply Htouch; intros z; split; reflexivity].
  assert (same_display x1 x') as (Ra & Rd) by (eapply Htrans; eauto).
  intros v Hv. unfold getAttribute in Hv. rewrite Rd, Ra in *.
  destruct (loop_related _ (keeps_children_with_data (show_if_lang l))
              (fun x y => attrs (data y) = attrs (data x))
              ltac:(reflexivity) ltac:(congruence)
              ltac:(intros x y Ht; destruct Ht; reflexivity)
              _ _ _ _ H1) as (x0 & H0 & R0).
  refine (loop_establishes _ (keeps_children_with_data (show_if_lang l)) (shown l)
            _ _ _ _ _ _ _ H1 v Hv).
  - intros x w Hw. cbn. cbn in Hw. unfold getAttribute in *.
    rewrite Hw. destruct (decide (Some w = Some l)) as [E|E];
      destruct (decide (w = l)); congruence.
  - intros x y Ht Hx. destruct Ht; [exact Hx| |exact Hx].
    intros w Hw. cbn. cbn in Hw. unfold getAttribute in *.
    rewrite Hw. destruct (decide (Some w = Some l)) as [E|E];
      destruct (decide (w = l)); congruence.
  - apply elem_of_querySelectorAll. exists x0. split; [exact H0|].
    cbn. rewrite <- R0. change (Str.lower "data-lang") with "data-lang" in Hv.
    rewrite Hv. reflexivity.
Qed.

(** After the loops the text of an element that carries data-hr or data-en
    is the value of its attribute for the language, and empty when it has
    none. *)
Lemma language_loops_text p x' :
  get p (language_loops l d) = Some x' ->
  is_Some (getAttribute "data-hr" (data x')) \/ is_Some (getAttribute "data-en" (data x')) ->
  textContent x' = default "" (localized l (data x')).
Proof.
  pose (R := fun x y : element => attrs (data y) = attrs (data x) /\ (texted l x -> texted l y)).
  assert (forall x, R x x) as Hrefl by (split; auto).
  assert (forall x y z, R x y -> R y z -> R x z) as Htrans.
  { intros x y z (A1 & A2) (B1 & B2). split; [congruence|auto]. }
  assert (forall x j h, texted l x ->
            texted l (Element (data x) (alter (on_child h) j (childNodes x)))) as Hbelow.
  { intros x j h Hx. unfold texted in *. cbn [childNodes data].
    rewrite Hx, alter_text_children. reflexivity. }
  intros H Hattr. unfold language_loops in H. cbv zeta in H.
  apply (loop_related _ (keeps_children_with_data _) R Hrefl Htrans) in H
    as (x2 & H2 & Ra & Rt).
  2:{ intros x y Ht. destruct Ht; split; auto. }
  destruct (loop_related _ (keeps_children_set_textContent (localized l))
              (fun x y => attrs (data y) = attrs (data x))
              ltac:(reflexivity) ltac:(congruence)
              ltac:(intros x y Ht; destruct Ht; reflexivity)
              _ _ _ _ H2) as (x1 & H1 & R1).
  assert (texted l x2) as Hx2.
  { refine (loop_establishes _ (keeps_children_set_textContent (localized l)) (texted l)
              _ _ _ _ _ _ _ H2).
    - intros x. reflexivity.
    - intros x y Ht Hx. destruct Ht; [exact Hx|reflexivity|apply Hbelow; exact Hx].
    - apply elem_of_querySelectorAll. exists x1. split; [exact H1|].
      unfold getAttribute in Hattr. rewrite Ra, R1 in Hattr.
      change (Str.lower "data-hr") with "data-hr" in Hattr.
      change (Str.lower "data-en") with "data-en" in Hattr.
      cbn. destruct Hattr as [Hh|He].
      + rewrite (bool_decide_eq_true_2 _ Hh). reflexivity.
      + rewrite (bool_decide_eq_true_2 _ He). rewrite orb_true_r. reflexivity.
  }
  apply Rt in Hx2. destruct x' as [e ks]. unfold texted in Hx2.
  cbn [childNodes data] in *. rewrite Hx2. apply textContent_text_children.
Qed.

End language_loops_facts.

Lemma language_loops_root_attrs l d :
  attrs (data (language_loops l d)) = attrs (data d).
Proof.
  destruct (language_loops_frame l d [] (language_loops l d) eq_refl)
    as (x & Hx & _ & Ha).
  injection Hx as <-. exact Ha.
Qed.

(** *** Which elements the loops leave in the document *)

Lemma getAttribute_set_attr_ne n m v e :
  Str.lower n <> Str.lower m -> getAttribute n (set_attr m v e) = getAttribute n e.
Proof. intros H. unfold getAttribute, set_attr. cbn. apply lookup_insert_ne. congruence. Qed.

(** A field that a write keeps is kept under every path. *)
Lemma get_field_modify_data {A} (h : edata -> A) g p q el :
  (forall e, h (g e) = h e) ->
  h ∘ data <$> get p (modify (with_data g) q el) = h ∘ data <$> get p el.
Proof.
  intros Hg. rewrite !(option_fmap_compose data h), get_modify_data.
  case_decide; [|reflexivity].
  destruct (data <$> get p el) as [e|]; [|reflexivity]. cbn. rewrite Hg. reflexivity.
Qed.

Lemma run_loop_field {A} (h : edata -> A) g qs :
  (forall e, h (g e) = h e) ->
  forall d p, h ∘ data <$> get p (run_loop (with_data g) qs d) = h ∘ data <$> get p d.
Proof.
  intros Hg. unfold run_loop. induction qs as [|q qs IH]; intros d p; [reflexivity|].
  cbn [foldl]. rewrite IH. apply get_field_modify_data, Hg.
Qed.

Lemma related_is_Some {A} (h : edata -> A) d d' p :
  h ∘ data <$> get p d' = h ∘ data <$> get p d ->
  is_Some (get p d') <-> is_Some (get p d).
Proof.
  intros H. rewrite <- (fmap_is_Some (h ∘ data) (get p d')), H, fmap_is_Some. reflexivity.
Qed.

Lemma related_Some {A} (h : edata -> A) d d' p x :
  h ∘ data <$> get p d' = h ∘ data <$> get p d ->
  get p d = Some x ->
  exists x', get p d' = Some x' /\ h (data x') = h (data x).
Proof.
  intros H Hx. rewrite Hx in H. destruct (get p d') as [x'|]; [|discriminate H].
  injection H as H. eauto.
Qed.

(** A write under [q] leaves the element under [p] in the document, unless
    [p] lies strictly below [q]. *)
Lemma get_modify_outside f p : forall q el,
  (forall i r, p <> q ++ i :: r) ->
  is_Some (get p (modify f q el)) <-> is_Some (get p el).
Proof.
  induction p as [|i p IH]; intros q el Hq.
  - cbn [get]. split; eauto.
  - destruct q as [|j q]; [exfalso; exact (Hq i p eq_refl)|].
    cbn [modify get childNodes].
    destruct (decide (i = j)) as [->|Hij].
    + rewrite list_lookup_alter_eq.
      destruct (childNodes el !! j) as [[s|c]|]; cbn; [reflexivity| |reflexivity].
      apply IH. intros i' r E. apply (Hq i' r). cbn. rewrite E. reflexivity.
    + rewrite list_lookup_alter_ne by congruence. reflexivity.
Qed.

(** After a text write nothing lies strictly below the written element. *)
Lemma get_modify_text_below v q : forall i r el,
  get (q ++ i :: r) (modify (set_textContent v) q el) = None.
Proof.
  induction q as [|j q IH]; intros i r el.
  - cbn [app modify get set_textContent childNodes].
    destruct (v (data el)) as [s|]; cbn [text_children]; [|reflexivity].
    destruct (decide (s = "")); [reflexivity|]. destruct i; reflexivity.
  - cbn [app modify get childNodes]. rewrite list_lookup_alter_eq.
    destruct (childNodes el !! j) as [[s|c]|]; cbn; [reflexivity|apply IH|reflexivity].
Qed.

(** What a loop of writes that bring in no element finds missing stays
    missing. *)
Lemma run_loop_None f (Hf : keeps_children f) qs p el :
  get p el = None -> get p (run_loop f qs el) = None.
Proof.
  intros H. destruct (get p (run_loop f qs el)) as [x'|] eqn:E; [|reflexivity].
  destruct (loop_related f Hf (fun _ _ => True)) with (qs := qs) (p := p) (el := el) (x' := x')
    as (x & Hx & _); auto.
  congruence.
Qed.

Lemma run_loop_app f qs1 qs2 el :
  run_loop f (qs1 ++ qs2) el = run_loop f qs2 (run_loop f qs1 el).
Proof. unfold run_loop. apply foldl_app. Qed.

Lemma run_loop_outside f qs p : forall el,
  (forall q i r, q ∈ qs -> p <> q ++ i :: r) ->
  is_Some (get p (run_loop f qs el)) <-> is_Some (get p el).
Proof.
  induction qs as [|q qs IH]; intros el H; [reflexivity|].
  change (run_loop f (q :: qs) el) with (run_loop f qs (modify f q el)).
  rewrite IH by (intros q' i r Hin; apply H; right; exact Hin).
  apply get_modify_outside. intros i r. apply H. left.
Qed.

(** A loop of text writes removes what lies strictly below a listed
    element. *)
Lemma run_loop_text_below v qs q i r el :
  q ∈ qs -> get (q ++ i :: r) (run_loop (set_textContent v) qs el) = None.
Proof.
  intros Hin. apply list_elem_of_split in Hin as (l1 & l2 & ->).
  rewrite run_loop_app.
  change (run_loop (set_textContent v) (q :: l2) ?d)
    with (run_loop (set_textContent v) l2 (modify (set_textContent v) q d)).
  apply run_loop_None; [apply keeps_children_set_textContent|].
  apply get_modify_text_below.
Qed.

(** The ancestors of an element are the elements under the strict prefixes
    of its path. *)
Lemma elem_of_ancestors p : forall d x e,
  get p d = Some x ->
  e ∈ ancestors p d <->
  exists q i r y, p = q ++ i :: r /\ get q d = Some y /\ data y = e.
Proof.
  induction p as [|i p IH]; intros d x e Hx.
  - cbn [ancestors]. split; [intros H; apply elem_of_nil in H; destruct H|].
    intros (q & j & r & y & E & _). destruct q; discriminate E.
  - apply get_cons_Some in Hx as (c & Hc & Hx). cbn [ancestors]. rewrite Hc.
    rewrite elem_of_app, list_elem_of_singleton, (IH c x e Hx). split.
    + intros [(q & j & r & y & E & Hy & Hd)|E].
      * exists (i :: q), j, r, y. split; [cbn; rewrite E; reflexivity|].
        split; [|exact Hd]. apply get_cons_Some. eauto.
      * exists [], i, p, d. auto.
    + intros (q & j & r & y & E & Hy & Hd). destruct q as [|k q].
      * right. cbn in Hy. injection Hy as <-. symmetry. exact Hd.
      * left. cbn in E. injection E as Ei Ep. subst k.
        apply get_cons_Some in Hy as (c' & Hc' & Hy).
        rewrite Hc in Hc'. injection Hc' as <-.
        exists q, j, r, y. auto.
Qed.

Lemma inside_label_true p d x :
  get p d = Some x ->
  inside_label p d = true <->
  exists q i r y, p = q ++ i :: r /\ get q d = Some y /\ labelled (data y) = true.
Proof.
  intros Hx. unfold inside_label. rewrite existsb_exists. split.
  - intros (e & Hin & He). apply list_elem_of_In in Hin.
    apply (elem_of_ancestors p d x e Hx) in Hin as (q & i & r & y & E & Hy & <-).
    eauto 8.
  - intros (q & i & r & y & E & Hy & Hl). exists (data y). split; [|exact Hl].
    apply list_elem_of_In. apply (elem_of_ancestors p d x _ Hx). eauto 8.
Qed.

(** Lying inside a labelled element depends on the attributes only. *)
Lemma inside_label_related d d' p :
  (forall q, labelled ∘ data <$> get q d' = labelled ∘ data <$> get q d) ->
  is_Some (get p d) ->
  inside_label p d' = inside_label p d.
Proof.
  intros H [x Hx].
  destruct (related_Some labelled d d' p x (H p) Hx) as (x' & Hx' & _).
  apply eq_true_iff_eq.
  rewrite (inside_label_true p d x Hx), (inside_label_true p d' x' Hx'). split.
  - intros (q & i & r & y' & E & Hy' & Hl).
    assert (labelled ∘ data <$> get q d = labelled ∘ data <$> get q d') as Hq
      by (symmetry; apply H).
    destruct (related_Some labelled d' d q y' Hq Hy') as (y & Hy & Hl').
    exists q, i, r, y. rewrite Hl'. auto.
  - intros (q & i & r & y & E & Hy & Hl).
    destruct (related_Some labelled d d' q y (H q) Hy) as (y' & Hy' & Hl').
    exists q, i, r, y'. rewrite Hl'. auto.
Qed.

Lemma matches_data_hr_en anc e : matches sel_data_hr_en anc e = labelled e.
Proof.
  unfold labelled, getAttribute. cbn. rewrite !andb_true_r, orb_false_r. reflexivity.
Qed.

(** The loop of text writes over the labelled elements leaves exactly the
    elements that lie inside none of them. *)
Lemma text_loop_is_Some v d p :
  is_Some (get p d) ->
  is_Some (get p (run_loop (set_textContent v) (querySelectorAll sel_data_hr_en d) d))
  <-> inside_label p d = false.
Proof.
  intros [x Hx]. split.
  - intros [x' Hs]. destruct (inside_label p d) eqn:E; [|reflexivity].
    apply (inside_label_true p d x Hx) in E as (q & i & r & y & -> & Hy & Hl).
    rewrite run_loop_text_below in Hs; [discriminate Hs|].
    apply elem_of_querySelectorAll. exists y. split; [exact Hy|].
    rewrite matches_data_hr_en. exact Hl.
  - intros E. apply run_loop_outside; [|eauto].
    intros q i r Hin ->. apply elem_of_querySelectorAll in Hin as (y & Hy & Hm).
    rewrite matches_data_hr_en in Hm.
    assert (inside_label (q ++ i :: r) d = true) as E'; [|congruence].
    apply (inside_label_true _ d x Hx). eauto 8.
Qed.

Lemma language_loops_is_Some l d p :
  is_Some (get p d) ->
  is_Some (get p (language_loops l d)) <-> inside_label p d = false.
Proof.
  intros Hp. unfold language_loops. cbv zeta.
  set (d1 := run_loop (with_data (show_if_lang l)) _ d).
  assert (forall q, labelled ∘ data <$> get q d1 = labelled ∘ data <$> get q d) as H1
    by (intros q; apply run_loop_field; reflexivity).
  assert (is_Some (get p d1)) as Hp1
    by (apply (related_is_Some _ _ _ _ (H1 p)); exact Hp).
  rewrite <- (inside_label_related d d1 p H1 Hp).
  rewrite <- (text_loop_is_Some (localized l) d1 p Hp1).
  apply (related_is_Some attrs). apply run_loop_field. reflexivity.
Qed.

Lemma labelled_iff e :
  labelled e = true <->
  is_Some (getAttribute "data-hr" e) \/ is_Some (getAttribute "data-en" e).
Proof. unfold labelled. rewrite orb_true_iff, !bool_decide_eq_true. reflexivity. Qed.

Lemma labelled_set_attr n v e :
  Str.lower n <> "data-hr" -> Str.lower n <> "data-en" ->
  labelled (set_attr n v e) = labelled e.
Proof.
  intros H1 H2. unfold labelled.
  rewrite (getAttribute_set_attr_ne "data-hr" n) by (intros E; apply H1; symmetry; exact E).
  rewrite (getAttribute_set_attr_ne "data-en" n) by (intros E; apply H2; symmetry; exact E).
  reflexivity.
Qed.

(** What [switchLanguage] does to an element of the page: an element inside
    a labelled element is removed; any other element stays under its path,
    with its name and its attributes (but for lang), displayed by its
    data-lang attribute and with the text of its label. *)
Lemma switchLanguage_element l pg p x :
  get p (document pg) = Some x ->
  (inside_label p (document pg) = true ->
   get p (document (switchLanguage l pg).2) = None)
  /\ (inside_label p (document pg) = false ->
      exists x',
        get p (document (switchLanguage l pg).2) = Some x'
        /\ tagName (data x') = tagName (data x)
        /\ (forall n, Str.lower n <> "lang" ->
              getAttribute n (data x') = getAttribute n (data x))
        /\ shown l x'
        /\ (labelled (data x') = true ->
            textContent x' = default "" (localized l (data x')))).
Proof.
  intros Hx. rewrite switchLanguage_run. cbn [snd document set_document].
  set (d0 := modify (with_data (set_attr "lang" l)) [] (document pg)).
  assert (forall q, labelled ∘ data <$> get q d0 = labelled ∘ data <$> get q (document pg))
    as H0.
  { intros q. apply get_field_modify_data. intros e.
    apply labelled_set_attr; vm_compute; discriminate. }
  assert (is_Some (get p d0)) as Hp0
    by (apply (related_is_Some _ _ _ _ (H0 p)); eauto).
  pose proof (language_loops_is_Some l d0 p Hp0) as Hiff.
  rewrite (inside_label_related _ _ p H0 (ex_intro _ x Hx)) in Hiff.
  split.
  - intros E. destruct (get p (language_loops l d0)) as [x'|] eqn:Hx'; [|reflexivity].
    assert (inside_label p (document pg) = false) by (apply Hiff; eauto). congruence.
  - intros E. apply Hiff in E as [x' Hx']. exists x'. split; [exact Hx'|].
    destruct (language_loops_frame _ _ _ _ Hx') as (x0 & Hx0 & Ht & Ha).
    pose proof (get_modify_data (set_attr "lang" l) p [] (document pg)) as Hd.
    fold d0 in Hd. rewrite Hx0, Hx in Hd. cbn [fmap option_fmap option_map] in Hd.
    split; [|split; [|split]].
    + rewrite Ht. case_decide; injection Hd as ->; reflexivity.
    + intros n Hn. unfold getAttribute. rewrite Ha.
      case_decide; injection Hd as ->; [|reflexivity].
      apply lookup_insert_ne. intros E. apply Hn. symmetry. exact E.
    + exact (language_loops_display _ _ _ _ Hx').
    + intros Hl. apply (language_loops_text _ _ _ _ Hx'). apply labelled_iff, Hl.
Qed.

(** What [switchLanguage] leaves, for any argument. *)
Lemma switchLanguage_spec l pg :
  exists pg',
    switchLanguage l pg = (Ok tt, pg')
    /\ attrs (data (document pg')) = <["lang" := l]> (attrs (data (document pg)))
    /\ localStorage pg' = <["language" := l]> (localStorage pg)
    /\ forall p x, get p (document pg') = Some x ->
         (forall v, getAttribute "data-lang" (data x) = Some v ->
                    display (data x) = if decide (v = l) then "" else "none")
         /\ (is_Some (getAttribute "data-hr" (data x))
             \/ is_Some (getAttribute "data-en" (data x)) ->
             textContent x = default "" (getAttribute ("data-" +:+ l) (data x))).
Proof.
  eexists. split; [apply switchLanguage_run|].
  cbn [document set_document localStorage set_localStorage].
  split; [|split; [reflexivity|]].
  - rewrite language_loops_root_attrs. destruct (document pg); reflexivity.
  - intros p x Hx. split.
    + exact (language_loops_display _ _ _ _ Hx).
    + exact (language_loops_text _ _ _ _ Hx).
Qed.

(** C2, as the code has it: for a valid language [l], [switchLanguage l]
    returns.  An element of the page that lies inside no element carrying
    data-hr or data-en is still in the document, under its path; when it has
    a data-lang attribute it is visible exactly when that attribute is [l]
    (its inline display is empty then, and none otherwise); when it carries
    data-hr or data-en its text is the value of its data-[l] attribute (the
    empty text when it has no such attribute).  An element inside an element
    carrying data-hr or data-en is no longer in the document: the text write
    to that element removed it.  Of every element the document holds
    afterwards the same is true, read off its own attributes. *)
Theorem switchLanguage_shows_language l pg :
  valid_lang l ->
  exists pg',
    switchLanguage l pg = (Ok tt, pg')
    /\ (forall p x, get p (document pg) = Some x ->
          inside_label p (document pg) = false ->
          exists x',
            get p (document pg') = Some x'
            /\ (forall v, getAttribute "data-lang" (data x) = Some v ->
                  visible (data x') = bool_decide (v = l)
                  /\ display (data x') = if bool_decide (v = l) then "" else "none")
            /\ (is_Some (getAttribute "data-hr" (data x))
                \/ is_Some (getAttribute "data-en" (data x)) ->
                textContent x' = default "" (getAttribute ("data-" +:+ l) (data x))))
    /\ (forall p x, get p (document pg) = Some x ->
          inside_label p (document pg) = true -> get p (document pg') = None)
    /\ forall p x, get p (document pg') = Some x ->
         (forall v, getAttribute "data-lang" (data x) = Some v ->
                    visible (data x) = bool_decide (v = l)
                    /\ display (data x) = if bool_decide (v = l) then "" else "none")
         /\ (is_Some (getAttribute "data-hr" (data x))
             \/ is_Some (getAttribute "data-en" (data x)) ->
             textContent x = default "" (getAttribute ("data-" +:+ l) (data x))).
Proof.
  intros Hl.
  assert (forall (y : element) v,
            display (data y) = (if decide (v = l) then "" else "none") ->
            visible (data y) = bool_decide (v = l)
            /\ display (data y) = if bool_decide (v = l) then "" else "none") as Hvis.
  { intros y v Hd. unfold visible. rewrite Hd.
    destruct (decide (v = l)) as [E|E].
    - rewrite (bool_decide_eq_true_2 _ E). split; reflexivity.
    - rewrite (bool_decide_eq_false_2 _ E). split; reflexivity. }
  assert (Str.lower ("data-" +:+ l) <> "lang") as Hnl
    by (destruct Hl as [-> | ->]; vm_compute; discriminate).
  exists (switchLanguage l pg).2.
  split; [rewrite switchLanguage_run; reflexivity|].
  split; [|split].
  - intros p x Hx Hout.
    destruct (proj2 (switchLanguage_element l pg p x Hx) Hout)
      as (x' & Hx' & _ & Ha & Hshown & Htext).
    exists x'. split; [exact Hx'|]. split.
    + intros v Hv. apply Hvis, Hshown.
      rewrite Ha by (vm_compute; discriminate). exact Hv.
    + intros Hlab. unfold localized in Htext. rewrite (Ha _ Hnl) in Htext.
      apply Htext, labelled_iff.
      rewrite !Ha by (vm_compute; discriminate). exact Hlab.
  - intros p x Hx Hin. exact (proj1 (switchLanguage_element l pg p x Hx) Hin).
  - destruct (switchLanguage_spec l pg) as (pg' & Hrun & _ & _ & H).
    rewrite Hrun. cbn [snd]. intros p x Hx.
    destruct (H p x Hx) as (Hd & Ht). split; [|exact Ht].
    intros v Hv. apply Hvis, Hd, Hv.
Qed.

Lemma switchLanguage_shows_language_witness :
  valid_lang "en"
  /\ exists pg',
       switchLanguage "en" Sample.started = (Ok tt, pg')
       /\ (forall p x, get p (document Sample.started) = Some x ->
             inside_label p (document Sample.started) = false ->
             exists x',
               get p (document pg') = Some x'
               /\ (forall v, getAttribute "data-lang" (data x) = Some v ->
                     visible (data x') = bool_decide (v = "en")
                     /\ display (data x') = if bool_decide (v = "en") then "" else "none")
               /\ (is_Some (getAttribute "data-hr" (data x))
                   \/ is_Some (getAttribute "data-en" (data x)) ->
                   textContent x' = default "" (getAttribute ("data-" +:+ "en") (data x))))
       /\ (forall p x, get p (document Sample.started) = Some x ->
             inside_label p (document Sample.started) = true ->
             get p (document pg') = None)
       /\ forall p x, get p (document pg') = Some x ->
            (forall v, getAttribute "data-lang" (data x) = Some v ->
                       visible (data x) = bool_decide (v = "en")
                       /\ display (data x) = if bool_decide (v = "en") then "" else "none")
            /\ (is_Some (getAttribute "data-hr" (data x))
                \/ is_Some (getAttribute "data-en" (data x)) ->
                textContent x = default "" (getAttribute ("data-" +:+ "en") (data x))).
Proof.
  split; [right; reflexivity|].
  apply (switchLanguage_shows_language "en" Sample.started).
  right; reflexivity.
Defined.

(** C2 as stated fails for a block inside a labelled element: on a page
    whose English block lies inside an element that carries data-hr and
    data-en, [switchLanguage] with en does not show the block.  The text
    write to the outer element removes it, and the document is left without
    any element that has a data-lang attribute. *)
Lemma switchLanguage_removes_nested_block :
  valid_lang "en"
  /\ (exists x, get [0; 0; 0]%nat (document Sample2.nested_block) = Some x
                /\ getAttribute "data-lang" (data x) = Some "en")
  /\ inside_label [0; 0; 0]%nat (document Sample2.nested_block) = true
  /\ exists pg',
       switchLanguage "en" Sample2.nested_block = (Ok tt, pg')
       /\ get [0; 0; 0]%nat (document pg') = None
       /\ querySelectorAll sel_data_lang (document pg') = []
       /\ textContent (document pg') = "Intro".
Proof.
  split; [right; reflexivity|].
  split; [eexists; split; reflexivity|].
  split; [reflexivity|].
  eexists. split; [reflexivity|]. repeat split; reflexivity.
Qed.

(** ** The startup handler *)

Lemma forEach_addEventListener_click anchors : forall pg,
  forEach anchors addEventListener_click pg
  = (Ok tt, set_click_listeners (click_listeners pg ++ anchors) pg).
Proof.
  induction anchors as [|a l IH]; intros pg.
  - cbn. rewrite app_nil_r. destruct pg; reflexivity.
  - cbn [forEach]. unfold_M.
    change (addEventListener_click a pg)
      with (Ok tt, set_click_listeners (click_listeners pg ++ [a]) pg).
    cbn iota. rewrite IH. cbn [click_listeners set_click_listeners].
    rewrite <- app_assoc. reflexivity.
Qed.

(** The startup handler is [setTheme] and [switchLanguage] on the resolved
    values, then the two registrations. *)
Lemma on_DOMContentLoaded_run pg pg1 pg2 :
  setTheme (or_else (localStorage pg !! "theme") "dark") pg = (Ok tt, pg1) ->
  switchLanguage (or_else (localStorage pg1 !! "language") "hr") pg1 = (Ok tt, pg2) ->
  on_DOMContentLoaded pg
  = (Ok tt,
     set_click_listeners
       (click_listeners pg2 ++ querySelectorAll sel_sidebar_links (document pg2))
       (set_observer
          (Some (querySelectorAll sel_section (document pg2),
                 querySelectorAll sel_sidebar_links (document pg2))) pg2)).
Proof.
  intros H1 H2. unfold on_DOMContentLoaded, initNavigation,
    localStorage_getItem, document_querySelectorAll.
  unfold_M. rewrite H1, H2. cbn iota.
  rewrite forEach_addEventListener_click. reflexivity.
Qed.

(** Without a sun icon the startup handler stops in [setTheme]: the
    language is never applied and nothing is registered. *)
Lemma startup_without_sun_icon pg :
  querySelector sel_sun_icon (document pg) = None ->
  (on_DOMContentLoaded pg).1 = Throw TypeError
  /\ localStorage (on_DOMContentLoaded pg).2 !! "language" = localStorage pg !! "language"
  /\ click_listeners (on_DOMContentLoaded pg).2 = click_listeners pg.
Proof.
  intros Hs. unfold on_DOMContentLoaded, localStorage_getItem. unfold_M.
  rewrite (setTheme_no_sun_icon _ _ Hs). cbn.
  repeat split. apply lookup_insert_ne. discriminate.
Qed.




(** ** askAI *)

Lemma all_chars_append f a b :
  Str.all_chars f (a +:+ b) = Str.all_chars f a && Str.all_chars f b.
Proof.
  induction a as [|c a IH]; [reflexivity|].
  change (f c && Str.all_chars f (a +:+ b) = f c && Str.all_chars f a && Str.all_chars f b).
  rewrite IH, andb_assoc. reflexivity.
Qed.

Lemma percent_query_safe c : Str.all_chars Str.query_safe (Str.percent c) = true.
Proof. destruct c as [[] [] [] [] [] [] [] []]; reflexivity. Qed.

(** An encoded component holds unreserved characters and percent escapes
    only: no ampersand, equals sign, question mark or hash. *)
Lemma encodeURIComponent_query_safe s :
  Str.all_chars Str.query_safe (Str.encodeURIComponent s) = true.
Proof.
  induction s as [|c s IH]; [reflexivity|].
  cbn [Str.encodeURIComponent]. rewrite all_chars_append, IH, andb_true_r.
  destruct (Str.unreserved c) eqn:Hc.
  - cbn. unfold Str.query_safe. rewrite Hc. reflexivity.
  - apply percent_query_safe.
Qed.

Lemma own_property_topic context (a b c d : jsval) :
  context ∉ topic_keys ->
  own_property context
    [("general", a); ("beginner_concepts", b); ("auth_help", c); ("endpoints", d)] = None.
Proof.
  intros H. unfold topic_keys in H. cbn [own_property].
  repeat (case_decide; [exfalso; apply H; subst context; set_solver|]).
  reflexivity.
Qed.

Lemma get_property_absent own k pg :
  own_property k own = None ->
  k ∉ object_prototype_keys ->
  get_property (Obj own) k pg = (Ok Undefined, pg).
Proof.
  intros Ho Hk. unfold get_property. rewrite Ho.
  rewrite bool_decide_eq_false_2 by exact Hk. reflexivity.
Qed.

(** Evaluate a property read whose object and key are known. *)
Ltac eval_get_property :=
  match goal with
  | |- context [get_property ?o ?k ?pg] =>
      let r := fresh "r" in
      set (r := get_property o k pg); vm_compute in r; subst r; cbn iota beta
  end.

(** C5, as the code has it: when the language attribute is missing (empty),
    hr or en, and the topic key is none of the four keys of the table (nor
    the name of a member of Object.prototype, which the lookup would find),
    [askAI] returns and opens the assistant URL with the general prompt of
    the active language, hr standing in for a missing language. *)
Theorem askAI_unknown_topic_falls_back context pg :
  let l := default "" (getAttribute "lang" (data (document pg))) in
  l = "" \/ l = "hr" \/ l = "en" ->
  context ∉ topic_keys ->
  context ∉ object_prototype_keys ->
  askAI context pg
  = (Ok tt,
     set_windows
       (windows pg ++
          [(bornAI_base +:+
              Str.encodeURIComponent (general_prompt (if decide (l = "") then "hr" else l)),
            "_blank")]) pg).
Proof.
  intros l Hl Hc Hp. unfold askAI, documentElement_lang, window_open.
  unfold mbind, mret, M_bind, M_ret, read, write. fold l.
  destruct Hl as [E | [E | E]]; rewrite E; cbn [decide_rel].
  all: eval_get_property.
  all: rewrite (get_property_absent _ _ _ (own_property_topic _ _ _ _ _ Hc) Hp).
  all: cbn [truthy]; cbn iota beta.
  all: eval_get_property; eval_get_property.
  all: reflexivity.
Qed.

Lemma askAI_unknown_topic_falls_back_witness :
  default "" (getAttribute "lang" (data (document Sample.fresh))) = "hr"
  /\ ("unknown_key" ∉ topic_keys)
  /\ ("unknown_key" ∉ object_prototype_keys)
  /\ askAI "unknown_key" Sample.fresh
     = (Ok tt,
        set_windows
          (windows Sample.fresh ++
             [(bornAI_base +:+ Str.encodeURIComponent (general_prompt "hr"), "_blank")])
          Sample.fresh).
Proof.
  split; [reflexivity|].
  split; [apply (bool_decide_unpack _); vm_compute; exact I|].
  split; [apply (bool_decide_unpack _); vm_compute; exact I|].
  apply (askAI_unknown_topic_falls_back "unknown_key" Sample.fresh).
  - right; left; reflexivity.
  - apply (bool_decide_unpack _); vm_compute; exact I.
  - apply (bool_decide_unpack _); vm_compute; exact I.
Defined.

(** C5 as stated fails for an unrecognized language: with the language
    attribute de the table lookup yields undefined, the topic lookup on it
    throws a TypeError, and no window is opened. *)
Lemma askAI_unrecognized_language_throws :
  default "" (getAttribute "lang" (data (document Sample.german))) = "de"
  /\ askAI "unknown_key" Sample.german = (Throw TypeError, Sample.german)
  /\ askAI "general" Sample.german = (Throw TypeError, Sample.german)
  /\ windows (askAI "unknown_key" Sample.german).2 = [].
Proof. repeat split; reflexivity. Qed.

(** A topic key that names a member of Object.prototype is found by the
    lookup, so the general prompt is not used for it. *)
Lemma askAI_inherited_topic_is_found :
  exists table,
    get_property prompts "hr" Sample.fresh = (Ok table, Sample.fresh)
    /\ get_property table "toString" Sample.fresh = (Ok (Builtin "toString"), Sample.fresh)
    /\ truthy (Builtin "toString") = true
    /\ askAI "toString" Sample.fresh = (HostDefined, Sample.fresh).
Proof. eexists. repeat split; reflexivity. Qed.

(** C8: with the document language en, [askAI] with auth_help returns and
    opens one window, target _blank, at the assistant endpoint followed by
    the single parameter q, whose value is the encoding of the English
    authentication prompt. *)
Theorem askAI_auth_help_en pg :
  getAttribute "lang" (data (document pg)) = Some "en" ->
  let prompt :=
    "I need help with OAuth2 authentication for the SudReg API. How does it work?" in
  let q := Str.encodeURIComponent prompt in
  askAI "auth_help" pg
  = (Ok tt, set_windows (windows pg ++ [("https://bornai.com.hr/?q=" +:+ q, "_blank")]) pg)
  /\ Str.all_chars Str.query_safe q = true
  /\ "https://bornai.com.hr/?q=" +:+ q
     = "https://bornai.com.hr/?q=I%20need%20help%20with%20OAuth2%20authentication%20for%20the%20SudReg%20API.%20How%20does%20it%20work%3F".
Proof.
  intros Hl prompt q. split; [|split].
  - unfold askAI, documentElement_lang, window_open. unfold_M. rewrite Hl.
    reflexivity.
  - apply encodeURIComponent_query_safe.
  - reflexivity.
Qed.

Lemma askAI_auth_help_en_witness :
  getAttribute "lang" (data (document Sample.english)) = Some "en"
  /\ windows (askAI "auth_help" Sample.english).2
     = [("https://bornai.com.hr/?q=I%20need%20help%20with%20OAuth2%20authentication%20for%20the%20SudReg%20API.%20How%20does%20it%20work%3F",
         "_blank")].
Proof.
  split; [reflexivity|].
  destruct (askAI_auth_help_en Sample.english eq_refl) as (Hrun & _ & Hurl).
  rewrite Hrun. cbn [snd windows set_windows]. rewrite Hurl. reflexivity.
Defined.

(** ** The click listener of the sidebar links *)

Lemma toggleSidebar_keeps pg :
  scrolls (toggleSidebar pg).2 = scrolls pg
  /\ defaultPrevented (toggleSidebar pg).2 = defaultPrevented pg.
Proof.
  unfold toggleSidebar. unfold_browser. unfold_M.
  destruct (querySelector _ _); split; reflexivity.
Qed.

(** The listener with its link and its target resolved. *)
Lemma sidebar_link_click_found this pg anchor sel t target :
  get this (document pg) = Some anchor ->
  parse_selector (default "null" (getAttribute "href" (data anchor))) = Selector sel ->
  querySelector sel (document pg) = Some t ->
  get t (document pg) = Some target ->
  sidebar_link_click this pg
  = let pg1 := set_scrolls (scrolls pg ++ [(offsetTop (data target) - 80, "smooth")])
                 (set_defaultPrevented true pg) in
    if innerWidth pg <=? 1024 then toggleSidebar pg1 else (Ok tt, pg1).
Proof.
  intros Ha Hp Hq Ht.
  unfold sidebar_link_click, read_element, document_querySelector_value.
  unfold preventDefault, window_scrollTo, window_innerWidth, document_querySelector.
  unfold_M. cbn [document set_defaultPrevented set_scrolls innerWidth].
  rewrite Ha, Hp. cbn [document set_defaultPrevented]. rewrite Hq.
  cbn [document set_defaultPrevented]. rewrite Ht.
  cbn [document set_defaultPrevented set_scrolls innerWidth scrolls].
  destruct (innerWidth pg <=? 1024); [|reflexivity].
  destruct (toggleSidebar _) as [[u|e|] pg2]; reflexivity.
Qed.

Lemma sidebar_link_click_not_found this pg anchor sel :
  get this (document pg) = Some anchor ->
  parse_selector (default "null" (getAttribute "href" (data anchor))) = Selector sel ->
  querySelector sel (document pg) = None ->
  sidebar_link_click this pg = (Ok tt, set_defaultPrevented true pg).
Proof.
  intros Ha Hp Hq.
  unfold sidebar_link_click, read_element, document_querySelector_value.
  unfold preventDefault, document_querySelector.
  unfold_M. cbn [document set_defaultPrevented].
  rewrite Ha, Hp. cbn [document set_defaultPrevented]. rewrite Hq. reflexivity.
Qed.

(** Whatever else happens, the listener has cancelled the event. *)
Lemma sidebar_link_click_prevents this pg :
  defaultPrevented (sidebar_link_click this pg).2 = true.
Proof.
  unfold sidebar_link_click, read_element, document_querySelector_value.
  unfold preventDefault, window_scrollTo, window_innerWidth, document_querySelector.
  unfold_M. cbn [document set_defaultPrevented].
  destruct (get this (document pg)) as [anchor|]; [|reflexivity].
  destruct (parse_selector _) as [sel| |]; [|reflexivity|reflexivity].
  cbn [document set_defaultPrevented].
  destruct (querySelector sel (document pg)) as [t|]; [|reflexivity].
  cbn [document set_defaultPrevented].
  destruct (get t (document pg)) as [target|]; [|reflexivity].
  cbn [document set_defaultPrevented set_scrolls innerWidth scrolls].
  destruct (innerWidth pg <=? 1024); [|reflexivity].
  match goal with |- context [toggleSidebar ?s] =>
    pose proof (proj2 (toggleSidebar_keeps s)) as Hk;
    destruct (toggleSidebar s) as [[u|e|] pg2] end; exact Hk.
Qed.

(** A click on an element that carries the listener is never followed by
    the native jump. *)
Lemma click_never_jumps a pg :
  a ∈ click_listeners pg -> (click a pg).1 = false.
Proof.
  intros Ha. unfold click. rewrite (bool_decide_eq_true_2 _ Ha). cbn [fst].
  rewrite sidebar_link_click_prevents. reflexivity.
Qed.

(** After startup every sidebar link of the document carries the listener. *)
Lemma startup_links_listen pg pg1 pg2 a :
  setTheme (or_else (localStorage pg !! "theme") "dark") pg = (Ok tt, pg1) ->
  switchLanguage (or_else (localStorage pg1 !! "language") "hr") pg1 = (Ok tt, pg2) ->
  a ∈ querySelectorAll sel_sidebar_links (document (on_DOMContentLoaded pg).2) ->
  a ∈ click_listeners (on_DOMContentLoaded pg).2.
Proof.
  intros H1 H2. rewrite (on_DOMContentLoaded_run pg pg1 pg2 H1 H2).
  cbn [snd document click_listeners set_click_listeners set_observer].
  intros Ha. apply elem_of_app. right. exact Ha.
Qed.

(** C7, as the code has it: a click on a sidebar link (an element that
    carries the listener) is never followed by the native jump; and when the
    link's href selects an element of the document, the listener requests
    one smooth scroll, to that element's offsetTop minus 80. *)
Theorem sidebar_click_scrolls_to_target a pg :
  a ∈ click_listeners pg ->
  (click a pg).1 = false
  /\ forall anchor sel t,
       get a (document pg) = Some anchor ->
       parse_selector (default "null" (getAttribute "href" (data anchor))) = Selector sel ->
       querySelector sel (document pg) = Some t ->
       exists target,
         get t (document pg) = Some target
         /\ scrolls (click a pg).2
            = scrolls pg ++ [(offsetTop (data target) - 80, "smooth")].
Proof.
  intros Ha. split; [apply click_never_jumps; exact Ha|].
  intros anchor sel t Hanchor Hp Hq.
  destruct (querySelector_Some _ _ _ Hq) as (target & Ht & _).
  exists target. split; [exact Ht|].
  unfold click. rewrite (bool_decide_eq_true_2 _ Ha). cbn [snd].
  rewrite (sidebar_link_click_found a (set_defaultPrevented false pg) anchor sel t target)
    by assumption.
  cbn [innerWidth set_defaultPrevented scrolls set_scrolls].
  destruct (innerWidth pg <=? 1024); [|reflexivity].
  rewrite (proj1 (toggleSidebar_keeps _)). reflexivity.
Qed.

Lemma sidebar_click_scrolls_to_target_witness :
  ([1; 0; 0; 1]%nat ∈ click_listeners (Sample.narrow Sample.started))
  /\ (click [1; 0; 0; 1]%nat (Sample.narrow Sample.started)).1 = false
  /\ exists target,
       get [1; 1; 1]%nat (document (Sample.narrow Sample.started)) = Some target
       /\ offsetTop (data target) = 900
       /\ scrolls (click [1; 0; 0; 1]%nat (Sample.narrow Sample.started)).2
          = scrolls (Sample.narrow Sample.started)
            ++ [(offsetTop (data target) - 80, "smooth")].
Proof.
  assert ([1; 0; 0; 1]%nat ∈ click_listeners (Sample.narrow Sample.started)) as Hin
    by (apply (bool_decide_unpack _); vm_compute; exact I).
  split; [exact Hin|].
  destruct (sidebar_click_scrolls_to_target _ _ Hin) as [Hjump Hscroll].
  split; [exact Hjump|].
  destruct (Hscroll (Element (mkData "a"
                                (list_to_map [("href", "#auth");
                                              ("data-hr", "Autentifikacija");
                                              ("data-en", "Authentication")])
                                [] "" 0) [TextNode "Autentifikacija"])
                    [Subject [ById "auth"]] [1; 1; 1]%nat)
    as (target & Ht & Hs).
  - vm_compute; reflexivity.
  - vm_compute; reflexivity.
  - vm_compute; reflexivity.
  - exists target. split; [exact Ht|]. split; [|exact Hs].
    vm_compute in Ht. injection Ht as <-. reflexivity.
Defined.

(** C7 as stated fails: the third sidebar link of the sample page points to
    #missing, which no element carries; a click on it is not followed by the
    native jump, and no scroll is requested. *)
Lemma sidebar_click_without_target_does_not_scroll :
  ([1; 0; 0; 2]%nat ∈ click_listeners Sample.started)
  /\ (data <$> get [1; 0; 0; 2]%nat (document Sample.started)) ≫= getAttribute "href"
     = Some "#missing"
  /\ (click [1; 0; 0; 2]%nat Sample.started).1 = false
  /\ scrolls Sample.started = []
  /\ scrolls (click [1; 0; 0; 2]%nat Sample.started).2 = [].
Proof.
  split; [apply (bool_decide_unpack _); vm_compute; exact I|].
  repeat split; vm_compute; reflexivity.
Qed.

(** C10: when the href of a clicked sidebar link selects no element of the
    document, the listener cancels the default navigation and does nothing
    else: the page after the click is the page before it with the event
    cancelled, so no scroll is requested and the sidebar keeps its classes,
    at any window width. *)
Theorem sidebar_click_without_target a pg anchor sel :
  a ∈ click_listeners pg ->
  get a (document pg) = Some anchor ->
  parse_selector (default "null" (getAttribute "href" (data anchor))) = Selector sel ->
  querySelector sel (document pg) = None ->
  click a pg = (false, set_defaultPrevented true pg)
  /\ scrolls (click a pg).2 = scrolls pg
  /\ document (click a pg).2 = document pg.
Proof.
  intros Ha Hanchor Hp Hq.
  assert (click a pg = (false, set_defaultPrevented true pg)) as H.
  { unfold click. rewrite (bool_decide_eq_true_2 _ Ha).
    rewrite (sidebar_link_click_not_found a (set_defaultPrevented false pg) anchor sel)
      by assumption.
    reflexivity. }
  rewrite H. repeat split; reflexivity.
Qed.

Lemma sidebar_click_without_target_witness :
  ([1; 0; 0; 2]%nat ∈ click_listeners (Sample.narrow Sample.started))
  /\ innerWidth (Sample.narrow Sample.started) <= 1024
  /\ click [1; 0; 0; 2]%nat (Sample.narrow Sample.started)
     = (false, set_defaultPrevented true (Sample.narrow Sample.started))
  /\ scrolls (click [1; 0; 0; 2]%nat (Sample.narrow Sample.started)).2
     = scrolls (Sample.narrow Sample.started)
  /\ document (click [1; 0; 0; 2]%nat (Sample.narrow Sample.started)).2
     = document (Sample.narrow Sample.started).
Proof.
  split; [apply (bool_decide_unpack _); vm_compute; exact I|].
  split; [vm_compute; discriminate|].
  refine (sidebar_click_without_target [1; 0; 0; 2]%nat (Sample.narrow Sample.started)
            _ [Subject [ById "missing"]] _ _ _ _).
  - apply (bool_decide_unpack _); vm_compute; exact I.
  - vm_compute; reflexivity.
  - vm_compute; reflexivity.
  - vm_compute; reflexivity.
Defined.

(** A malformed href, such as a lone #, makes [querySelector] throw: the
    click is cancelled and nothing else happens. *)
Lemma sidebar_click_malformed_href a pg anchor :
  a ∈ click_listeners pg ->
  get a (document pg) = Some anchor ->
  parse_selector (default "null" (getAttribute "href" (data anchor))) = Malformed ->
  (sidebar_link_click a (set_defaultPrevented false pg)).1 = Throw SyntaxError
  /\ click a pg = (false, set_defaultPrevented true pg).
Proof.
  intros Ha Hanchor Hp. unfold click. rewrite (bool_decide_eq_true_2 _ Ha).
  unfold sidebar_link_click, read_element, document_querySelector_value.
  unfold preventDefault. unfold_M. cbn [document set_defaultPrevented].
  rewrite Hanchor, Hp. split; reflexivity.
Qed.

(** An href [#name] selects no element exactly when no element of the
    document has the id [name]. *)
Lemma href_without_target name doc :
  Str.is_ident name = true ->
  parse_selector ("#" +:+ name) = Selector [Subject [ById name]]
  /\ (querySelector [Subject [ById name]] doc = None <->
      forall p x, get p doc = Some x -> attrs (data x) !! "id" <> Some name).
Proof.
  intros Hn. split.
  - destruct name as [|c name]; [discriminate Hn|].
    change (parse_selector ("#" +:+ String c name))
      with (if Str.is_ident (String c name)
            then Selector [Subject [ById (String c name)]] else Unparsed).
    rewrite Hn. reflexivity.
  - rewrite querySelector_None. split; intros H p x Hx; specialize (H p x Hx).
    + cbn in H. rewrite orb_false_r, andb_true_r in H.
      apply bool_decide_eq_false_1 in H. exact H.
    + cbn. rewrite orb_false_r, andb_true_r.
      apply bool_decide_eq_false_2. exact H.
Qed.

(** * Further properties *)

Import Widgets Rel2.

(** ** Writes to fields: order and overwriting *)

Lemma modify_data_ext g h p : forall el,
  (forall e, g e = h e) -> modify (with_data g) p el = modify (with_data h) p el.
Proof.
  induction p as [|i p IH]; intros el H.
  - cbn. unfold with_data. rewrite H. reflexivity.
  - cbn [modify]. f_equal. apply list_alter_ext; [|reflexivity].
    intros [s|c] _; cbn; [reflexivity|]. f_equal. apply IH, H.
Qed.

Lemma modify_data_absorb g1 g2 p : forall el,
  modify (with_data g1) p (modify (with_data g2) p el)
  = modify (with_data (fun e => g1 (g2 e))) p el.
Proof.
  induction p as [|i p IH]; intros el; [reflexivity|].
  cbn [modify data childNodes]. f_equal. rewrite list_alter_alter_eq.
  apply list_alter_ext; [|reflexivity].
  intros [s|c] _; cbn; [reflexivity|]. f_equal. apply IH.
Qed.

(** Two writes to fields can be swapped when they go to different elements
    or when the two writes commute on every element. *)
Lemma modify_data_comm g1 g2 p : forall q el,
  p <> q \/ (forall e, g1 (g2 e) = g2 (g1 e)) ->
  modify (with_data g1) p (modify (with_data g2) q el)
  = modify (with_data g2) q (modify (with_data g1) p el).
Proof.
  induction p as [|i p IH]; intros q el H.
  - destruct q as [|j q]; [|reflexivity].
    destruct H as [H|H]; [congruence|]. cbn. unfold with_data. cbn.
    rewrite H. reflexivity.
  - destruct q as [|j q]; [reflexivity|].
    cbn [modify data childNodes]. f_equal.
    destruct (decide (i = j)) as [->|Hij].
    + rewrite !list_alter_alter_eq. apply list_alter_ext; [|reflexivity].
      intros [s|c] _; cbn; [reflexivity|]. f_equal. apply IH.
      destruct H as [H|H]; [left; congruence|right; exact H].
    + apply list_alter_alter_ne. exact Hij.
Qed.

Lemma set_attr_overwrites n v v' e : set_attr n v (set_attr n v' e) = set_attr n v e.
Proof. unfold set_attr. cbn. rewrite insert_insert_eq. reflexivity. Qed.

Lemma set_href_overwrites v v' e : set_href v (set_href v' e) = set_href v e.
Proof.
  unfold set_href. destruct (reflects_href e) eqn:He; [|rewrite He; reflexivity].
  change (reflects_href (set_attr "href" v' e)) with (reflects_href e).
  rewrite He. apply set_attr_overwrites.
Qed.

Lemma set_href_display_comm v w e :
  set_href v (set_display w e) = set_display w (set_href v e).
Proof. unfold set_href. change (reflects_href (set_display w e)) with (reflects_href e).
  destruct (reflects_href e); reflexivity. Qed.

Lemma set_attr_theme_href_comm t v e :
  set_attr "data-theme" t (set_href v e) = set_href v (set_attr "data-theme" t e).
Proof.
  unfold set_href.
  change (reflects_href (set_attr "data-theme" t e)) with (reflects_href e).
  destruct (reflects_href e); [|reflexivity].
  unfold set_attr. cbn. rewrite insert_insert_ne by discriminate. reflexivity.
Qed.

(** A themed document forgets the theme it had before. *)
Lemma themed_document_overwrites t t' ps pm pp d :
  ps <> pm ->
  themed_document t ps pm pp (themed_document t' ps pm pp d) = themed_document t ps pm pp d.
Proof.
  intros Hne. unfold themed_document.
  set (A := set_attr "data-theme" t). set (A' := set_attr "data-theme" t').
  set (P := set_display (if bool_decide (t = "dark") then "none" else "block")).
  set (P' := set_display (if bool_decide (t' = "dark") then "none" else "block")).
  set (Mo := set_display (if bool_decide (t = "dark") then "block" else "none")).
  set (Mo' := set_display (if bool_decide (t' = "dark") then "block" else "none")).
  set (H := set_href (if bool_decide (t = "dark") then prism_dark else prism_light)).
  set (H' := set_href (if bool_decide (t' = "dark") then prism_dark else prism_light)).
  assert (forall e, A (P' e) = P' (A e)) as AP by reflexivity.
  assert (forall e, A (Mo' e) = Mo' (A e)) as AM by reflexivity.
  assert (forall e, A (H' e) = H' (A e)) as AH by (intros e; apply set_attr_theme_href_comm).
  assert (forall e, P (H' e) = H' (P e)) as PH
    by (intros e; symmetry; apply set_href_display_comm).
  assert (forall e, Mo (H' e) = H' (Mo e)) as MH
    by (intros e; symmetry; apply set_href_display_comm).
  assert (forall x, modify (with_data A) [] (modify (with_data A') [] x)
                    = modify (with_data A) [] x) as AA.
  { intros x. rewrite modify_data_absorb. apply modify_data_ext.
    intros e. apply set_attr_overwrites. }
  assert (forall x, modify (with_data P) ps (modify (with_data P') ps x)
                    = modify (with_data P) ps x) as PP.
  { intros x. rewrite modify_data_absorb. apply modify_data_ext. reflexivity. }
  assert (forall x, modify (with_data Mo) pm (modify (with_data Mo') pm x)
                    = modify (with_data Mo) pm x) as MM.
  { intros x. rewrite modify_data_absorb. apply modify_data_ext. reflexivity. }
  destruct pp as [n|].
  - assert (forall x, modify (with_data H) n (modify (with_data H') n x)
                      = modify (with_data H) n x) as HH.
    { intros x. rewrite modify_data_absorb. apply modify_data_ext.
      intros e. apply set_href_overwrites. }
    rewrite (modify_data_comm A H' [] n) by (right; exact AH).
    rewrite (modify_data_comm A Mo' [] pm) by (right; exact AM).
    rewrite (modify_data_comm A P' [] ps) by (right; exact AP).
    rewrite AA.
    rewrite (modify_data_comm P H' ps n) by (right; exact PH).
    rewrite (modify_data_comm P Mo' ps pm) by (left; exact Hne).
    rewrite PP.
    rewrite (modify_data_comm Mo H' pm n) by (right; exact MH).
    rewrite MM. apply HH.
  - rewrite (modify_data_comm A Mo' [] pm) by (right; exact AM).
    rewrite (modify_data_comm A P' [] ps) by (right; exact AP).
    rewrite AA.
    rewrite (modify_data_comm P Mo' ps pm) by (left; exact Hne).
    rewrite PP. apply MM.
Qed.

Lemma themed_overwrites t t' ps pm pp pg :
  ps <> pm ->
  themed t ps pm pp (themed t' ps pm pp pg) = themed t ps pm pp pg.
Proof.
  intros Hne. unfold themed.
  cbn [document set_document localStorage set_localStorage].
  rewrite themed_document_overwrites by exact Hne.
  rewrite insert_insert_eq. reflexivity.
Qed.

(** ** setTheme, further *)

(** [setTheme] on the page an earlier [setTheme] left. *)
Lemma setTheme_on_themed t t' pg ps pm :
  querySelector sel_sun_icon (document pg) = Some ps ->
  querySelector sel_moon_icon (document pg) = Some pm ->
  ps <> pm ->
  setTheme t
    (themed t' ps pm (querySelector [Subject [ById "prism-theme"]] (document pg)) pg)
  = (Ok tt, themed t ps pm (querySelector [Subject [ById "prism-theme"]] (document pg)) pg).
Proof.
  intros Hs Hm Hne.
  set (pp := querySelector [Subject [ById "prism-theme"]] (document pg)).
  rewrite (setTheme_run t (themed t' ps pm pp pg) ps pm).
  - cbn [themed document set_document]. rewrite themed_querySelector_id. fold pp.
    f_equal. apply themed_overwrites, Hne.
  - unfold sel_sun_icon. cbn [themed document set_document].
    rewrite themed_querySelector_class. exact Hs.
  - unfold sel_moon_icon. cbn [themed document set_document].
    rewrite themed_querySelector_class. exact Hm.
Qed.

(** [setTheme] overwrites: after any earlier [setTheme] the page it leaves is
    the one it would have left without the earlier call.  With the same
    argument twice this is idempotence. *)
Theorem setTheme_overwrites t t' pg ps pm :
  querySelector sel_sun_icon (document pg) = Some ps ->
  querySelector sel_moon_icon (document pg) = Some pm ->
  ps <> pm ->
  (setTheme t' ;; setTheme t) pg = setTheme t pg.
Proof.
  intros Hs Hm Hne.
  change ((setTheme t' ;; setTheme t) pg)
    with (match setTheme t' pg with
          | (Ok a, pg') => setTheme t pg'
          | (Throw e, pg') => (Throw e, pg')
          | (HostDefined, pg') => (HostDefined, pg')
          end).
  rewrite (setTheme_run t' pg ps pm Hs Hm), (setTheme_run t pg ps pm Hs Hm).
  apply setTheme_on_themed; assumption.
Qed.

Lemma setTheme_overwrites_witness :
  (setTheme "light" ;; setTheme "dark") Sample.fresh = setTheme "dark" Sample.fresh
  /\ (setTheme "dark" ;; setTheme "dark") Sample.fresh = setTheme "dark" Sample.fresh.
Proof.
  split.
  - apply (setTheme_overwrites "dark" "light" Sample.fresh Sample.sun_path Sample.moon_path);
      [reflexivity|reflexivity|discriminate].
  - apply (setTheme_overwrites "dark" "dark" Sample.fresh Sample.sun_path Sample.moon_path);
      [reflexivity|reflexivity|discriminate].
Defined.

(** With a sun icon and no moon icon [setTheme] stops with a TypeError after
    the sun icon was switched: the root attribute, the stored value and the
    sun icon are written, the stylesheet link is not. *)
Lemma setTheme_no_moon_icon t pg ps :
  querySelector sel_sun_icon (document pg) = Some ps ->
  querySelector sel_moon_icon (document pg) = None ->
  setTheme t pg
  = (Throw TypeError,
     set_document
       (modify (with_data (set_display (if bool_decide (t = "dark") then "none" else "block")))
          ps (modify (with_data (set_attr "data-theme" t)) [] (document pg)))
       (set_localStorage (<["theme" := t]> (localStorage pg)) pg)).
Proof.
  intros Hs Hm. unfold setTheme. unfold_browser. unfold_M.
  cbn [document set_document set_localStorage].
  unfold sel_sun_icon, sel_moon_icon in *.
  rewrite !(querySelector_modify_data _ _ (blind_class_attr _ _ _)).
  rewrite Hs, Hm.
  destruct (decide (t = "dark")) as [->|Hne].
  - reflexivity.
  - rewrite bool_decide_eq_false_2 by exact Hne. reflexivity.
Qed.

(** A write that keeps an attribute keeps it under every path. *)
Lemma get_attr_modify_data n g p q el :
  (forall e, getAttribute n (g e) = getAttribute n e) ->
  getAttribute n ∘ data <$> get p (modify (with_data g) q el)
  = getAttribute n ∘ data <$> get p el.
Proof.
  intros Hg. rewrite !(option_fmap_compose data (getAttribute n)), get_modify_data.
  case_decide; [|reflexivity].
  destruct (data <$> get p el) as [e|]; [|reflexivity]. cbn. rewrite Hg. reflexivity.
Qed.

(** When one of the two icons is missing [setTheme] stops with a TypeError,
    but only after the theme was written to the root attribute and to the
    store: the choice is persisted although the call failed.  The stylesheet
    link is not reached: no element's href changes. *)
Theorem setTheme_missing_icon_throws t pg :
  querySelector sel_sun_icon (document pg) = None
  \/ querySelector sel_moon_icon (document pg) = None ->
  exists pg',
    setTheme t pg = (Throw TypeError, pg')
    /\ getAttribute "data-theme" (data (document pg')) = Some t
    /\ localStorage pg' !! "theme" = Some t
    /\ forall p, getAttribute "href" ∘ data <$> get p (document pg')
                 = getAttribute "href" ∘ data <$> get p (document pg).
Proof.
  intros H.
  assert (forall e, getAttribute "href" (set_attr "data-theme" t e) = getAttribute "href" e)
    as Hhref by (intros e; apply getAttribute_set_attr_ne; discriminate).
  assert (getAttribute "data-theme"
            (data (modify (with_data (set_attr "data-theme" t)) [] (document pg))) = Some t)
    as Hroot by (cbn; unfold getAttribute; cbn; apply lookup_insert_eq).
  destruct (querySelector sel_sun_icon (document pg)) as [ps|] eqn:Hs.
  - destruct H as [H|Hm]; [discriminate H|].
    eexists. split; [apply (setTheme_no_moon_icon t pg ps Hs Hm)|].
    cbn [document set_document localStorage set_localStorage].
    split; [|split; [apply lookup_insert_eq|]].
    + pose proof (get_modify_data
                    (set_display (if bool_decide (t = "dark") then "none" else "block"))
                    [] ps (modify (with_data (set_attr "data-theme" t)) [] (document pg)))
        as E.
      cbn [get fmap option_fmap option_map] in E.
      case_decide; injection E as E;
        refine (eq_trans (f_equal (getAttribute "data-theme") E) _); exact Hroot.
    + intros p. rewrite get_attr_modify_data by reflexivity.
      apply get_attr_modify_data, Hhref.
  - eexists. split; [apply (setTheme_no_sun_icon t pg Hs)|].
    cbn [document set_document localStorage set_localStorage].
    split; [exact Hroot|]. split; [apply lookup_insert_eq|].
    intros p. apply get_attr_modify_data, Hhref.
Qed.

Lemma setTheme_missing_icon_throws_witness :
  querySelector sel_moon_icon (document Sample2.no_moon) = None
  /\ (setTheme "light" Sample2.no_moon).1 = Throw TypeError
  /\ localStorage (setTheme "light" Sample2.no_moon).2 !! "theme" = Some "light".
Proof.
  split; [reflexivity|].
  destruct (setTheme_missing_icon_throws "light" Sample2.no_moon (or_intror eq_refl))
    as (pg' & Hrun & _ & Hst & _).
  rewrite Hrun. split; [reflexivity|exact Hst].
Defined.

(** One [toggleTheme] always leaves a valid theme: light when the root
    attribute was dark, dark for every other value and for no value; the
    same value is stored. *)
Theorem toggleTheme_leaves_valid_theme pg ps pm :
  querySelector sel_sun_icon (document pg) = Some ps ->
  querySelector sel_moon_icon (document pg) = Some pm ->
  exists pg' t,
    toggleTheme pg = (Ok tt, pg')
    /\ valid_theme t
    /\ (t = "light" <-> getAttribute "data-theme" (data (document pg)) = Some "dark")
    /\ getAttribute "data-theme" (data (document pg')) = Some t
    /\ localStorage pg' !! "theme" = Some t.
Proof.
  intros Hs Hm. rewrite toggleTheme_run.
  set (t := if decide (getAttribute "data-theme" (data (document pg)) = Some "dark")
            then "light" else "dark").
  eexists _, t. split; [apply setTheme_run; eassumption|].
  split; [|split; [|split]].
  - subst t. case_decide; [right|left]; reflexivity.
  - subst t. case_decide; split; intros; congruence.
  - apply themed_root_attribute.
  - cbn. apply lookup_insert_eq.
Qed.

Lemma toggleTheme_leaves_valid_theme_witness :
  exists pg' t,
    toggleTheme (setTheme "blue" Sample.fresh).2 = (Ok tt, pg')
    /\ valid_theme t
    /\ (t = "light" <->
        getAttribute "data-theme" (data (document (setTheme "blue" Sample.fresh).2))
        = Some "dark")
    /\ getAttribute "data-theme" (data (document pg')) = Some t
    /\ localStorage pg' !! "theme" = Some t.
Proof.
  apply (toggleTheme_leaves_valid_theme (setTheme "blue" Sample.fresh).2
           Sample.sun_path Sample.moon_path); vm_compute; reflexivity.
Defined.

(** Two calls of [toggleTheme] from a root attribute [t] that is dark or
    light leave exactly the page that [setTheme t] leaves. *)
Theorem toggleTheme_twice_is_setTheme t pg ps pm :
  valid_theme t ->
  getAttribute "data-theme" (data (document pg)) = Some t ->
  querySelector sel_sun_icon (document pg) = Some ps ->
  querySelector sel_moon_icon (document pg) = Some pm ->
  ps <> pm ->
  (toggleTheme ;; toggleTheme) pg = setTheme t pg.
Proof.
  intros Ht Ha Hs Hm Hne.
  pose (t' := if decide (Some t = Some "dark") then "light" else "dark").
  assert (toggleTheme pg = setTheme t' pg) as H1 by (rewrite toggleTheme_run, Ha; reflexivity).
  pose (pp := querySelector [Subject [ById "prism-theme"]] (document pg)).
  assert (setTheme t' pg = (Ok tt, themed t' ps pm pp pg)) as H1'
    by (apply setTheme_run; assumption).
  assert (getAttribute "data-theme" (data (document (themed t' ps pm pp pg))) = Some t') as Ha1
    by apply themed_root_attribute.
  assert ((if decide (Some t' = Some "dark") then "light" else "dark") = t) as Hback.
  { subst t'. destruct Ht as [-> | ->]; reflexivity. }
  change ((toggleTheme ;; toggleTheme) pg)
    with (match toggleTheme pg with
          | (Ok a, pg') => toggleTheme pg'
          | (Throw e, pg') => (Throw e, pg')
          | (HostDefined, pg') => (HostDefined, pg')
          end).
  rewrite H1, H1'. rewrite toggleTheme_run, Ha1, Hback.
  rewrite (setTheme_run t pg ps pm Hs Hm).
  apply setTheme_on_themed; assumption.
Qed.

Lemma toggleTheme_twice_is_setTheme_witness :
  (toggleTheme ;; toggleTheme) Sample.other_tab_light = setTheme "dark" Sample.other_tab_light.
Proof.
  apply (toggleTheme_twice_is_setTheme "dark" Sample.other_tab_light
           Sample.sun_path Sample.moon_path).
  - left; reflexivity.
  - reflexivity.
  - vm_compute; reflexivity.
  - vm_compute; reflexivity.
  - discriminate.
Defined.

(** ** toggleSidebar *)

Lemma blind_id_classList i (h : edata -> list string) :
  blind [Subject [ById i]] (fun e => set_classList (h e) e).
Proof. split; reflexivity. Qed.

Lemma elem_of_classList_toggle token c cl :
  c ∈ classList_toggle token cl <->
  if decide (c = token) then token ∉ cl else c ∈ cl.
Proof.
  unfold classList_toggle, contains.
  destruct (decide (c = token)) as [->|Hc]; case_bool_decide as Hin.
  - rewrite list_elem_of_filter. split; [intros [H _]; congruence|tauto].
  - rewrite elem_of_app, list_elem_of_singleton. tauto.
  - rewrite list_elem_of_filter. tauto.
  - rewrite elem_of_app, list_elem_of_singleton. tauto.
Qed.

(** Without an element with the id sidebar [toggleSidebar] throws a
    TypeError and leaves the page as it is. *)
Theorem toggleSidebar_without_sidebar pg :
  querySelector [Subject [ById "sidebar"]] (document pg) = None ->
  toggleSidebar pg = (Throw TypeError, pg).
Proof.
  intros H. unfold toggleSidebar. unfold_browser. unfold_M. rewrite H. reflexivity.
Qed.

Lemma toggleSidebar_without_sidebar_witness :
  querySelector [Subject [ById "sidebar"]] (document Sample2.no_icons) = None
  /\ toggleSidebar Sample2.no_icons = (Throw TypeError, Sample2.no_icons).
Proof.
  split; [reflexivity|].
  apply (toggleSidebar_without_sidebar Sample2.no_icons). reflexivity.
Defined.

Lemma toggleSidebar_run pg p :
  querySelector [Subject [ById "sidebar"]] (document pg) = Some p ->
  toggleSidebar pg
  = (Ok tt,
     set_document
       (modify (with_data (fun e => set_classList (classList_toggle "active" (classList e)) e))
          p (document pg)) pg).
Proof.
  intros H. unfold toggleSidebar. unfold_browser. unfold_M. rewrite H. reflexivity.
Qed.

(** What one [toggleSidebar] writes: the class list of the sidebar, which
    stays the element the query finds. *)
Lemma toggleSidebar_effect pg p :
  querySelector [Subject [ById "sidebar"]] (document pg) = Some p ->
  exists pg' x x',
    toggleSidebar pg = (Ok tt, pg')
    /\ get p (document pg) = Some x
    /\ get p (document pg') = Some x'
    /\ classList (data x') = classList_toggle "active" (classList (data x))
    /\ querySelector [Subject [ById "sidebar"]] (document pg') = Some p
    /\ (forall q, q <> p -> data <$> get q (document pg') = data <$> get q (document pg)).
Proof.
  intros H. destruct (querySelector_Some _ _ _ H) as (x & Hx & _).
  rewrite (toggleSidebar_run pg p H). cbn [document set_document].
  set (g := fun e => set_classList (classList_toggle "active" (classList e)) e).
  assert (data <$> get p (modify (with_data g) p (document pg)) = Some (g (data x))) as Hd
    by (rewrite get_modify_data_eq, Hx; reflexivity).
  destruct (get p (modify (with_data g) p (document pg))) as [x'|] eqn:Hx'; [|discriminate Hd].
  injection Hd as Hd.
  exists (set_document (modify (with_data g) p (document pg)) pg), x, x'.
  split; [reflexivity|]. split; [exact Hx|]. split; [exact Hx'|].
  split; [rewrite Hd; reflexivity|]. split.
  - cbn [document set_document]. unfold g.
    rewrite (querySelector_modify_data _ _ (blind_id_classList _ _)). exact H.
  - intros q Hq. apply get_modify_data_ne. exact Hq.
Qed.

(** [toggleSidebar] flips the token active on the sidebar and keeps its other
    class tokens; the fields of every other element stay as they are. *)
Theorem toggleSidebar_flips_active pg p :
  querySelector [Subject [ById "sidebar"]] (document pg) = Some p ->
  exists pg' x x',
    toggleSidebar pg = (Ok tt, pg')
    /\ get p (document pg) = Some x
    /\ get p (document pg') = Some x'
    /\ ("active" ∈ classList (data x') <-> "active" ∉ classList (data x))
    /\ (forall c, c <> "active" -> c ∈ classList (data x') <-> c ∈ classList (data x))
    /\ (forall q, q <> p -> data <$> get q (document pg') = data <$> get q (document pg)).
Proof.
  intros H.
  destruct (toggleSidebar_effect pg p H) as (pg' & x & x' & Hrun & Hx & Hx' & Hcl & _ & Hf).
  exists pg', x, x'.
  split; [exact Hrun|]. split; [exact Hx|]. split; [exact Hx'|].
  rewrite Hcl. split; [|split; [|exact Hf]].
  - rewrite elem_of_classList_toggle, decide_True by reflexivity. reflexivity.
  - intros c Hc. rewrite elem_of_classList_toggle, decide_False by exact Hc. reflexivity.
Qed.

Lemma toggleSidebar_flips_active_witness :
  exists pg' x x',
    toggleSidebar Sample.started = (Ok tt, pg')
    /\ get [1; 0]%nat (document Sample.started) = Some x
    /\ get [1; 0]%nat (document pg') = Some x'
    /\ ("active" ∈ classList (data x') <-> "active" ∉ classList (data x))
    /\ (forall c, c <> "active" -> c ∈ classList (data x') <-> c ∈ classList (data x))
    /\ (forall q, q <> [1; 0]%nat ->
          data <$> get q (document pg') = data <$> get q (document Sample.started)).
Proof.
  apply (toggleSidebar_flips_active Sample.started [1; 0]%nat). vm_compute; reflexivity.
Defined.

(** Two calls of [toggleSidebar] leave the sidebar with the class tokens it
    had: every token is present afterwards exactly when it was before. *)
Theorem toggleSidebar_twice pg p :
  querySelector [Subject [ById "sidebar"]] (document pg) = Some p ->
  exists pg2 x x2,
    (toggleSidebar ;; toggleSidebar) pg = (Ok tt, pg2)
    /\ get p (document pg) = Some x
    /\ get p (document pg2) = Some x2
    /\ (forall c, c ∈ classList (data x2) <-> c ∈ classList (data x))
    /\ (forall q, q <> p -> data <$> get q (document pg2) = data <$> get q (document pg)).
Proof.
  intros H.
  destruct (toggleSidebar_effect pg p H)
    as (pg1 & x & x1 & H1 & Hx & Hx1 & Hcl1 & H' & Hf1).
  destruct (toggleSidebar_effect pg1 p H')
    as (pg2 & y & x2 & H2 & Hy & Hx2 & Hcl2 & _ & Hf2).
  rewrite Hx1 in Hy. injection Hy as <-.
  exists pg2, x, x2.
  split.
  { change ((toggleSidebar ;; toggleSidebar) pg)
      with (match toggleSidebar pg with
            | (Ok a, pg') => toggleSidebar pg'
            | (Throw e, pg') => (Throw e, pg')
            | (HostDefined, pg') => (HostDefined, pg')
            end).
    rewrite H1. exact H2. }
  split; [exact Hx|]. split; [exact Hx2|]. split.
  - intros c. rewrite Hcl2, Hcl1.
    destruct (decide (c = "active")) as [->|Hc].
    + rewrite elem_of_classList_toggle, decide_True by reflexivity.
      rewrite elem_of_classList_toggle, decide_True by reflexivity.
      destruct (decide ("active" ∈ classList (data x))); tauto.
    + rewrite elem_of_classList_toggle, decide_False by exact Hc.
      rewrite elem_of_classList_toggle, decide_False by exact Hc. reflexivity.
  - intros q Hq. rewrite (Hf2 q Hq). apply Hf1, Hq.
Qed.

Lemma toggleSidebar_twice_witness :
  exists pg2 x x2,
    (toggleSidebar ;; toggleSidebar) Sample.started = (Ok tt, pg2)
    /\ get [1; 0]%nat (document Sample.started) = Some x
    /\ get [1; 0]%nat (document pg2) = Some x2
    /\ (forall c, c ∈ classList (data x2) <-> c ∈ classList (data x))
    /\ (forall q, q <> [1; 0]%nat ->
          data <$> get q (document pg2) = data <$> get q (document Sample.started)).
Proof.
  apply (toggleSidebar_twice Sample.started [1; 0]%nat). vm_compute; reflexivity.
Defined.

(** ** The click listener, further *)

(** On a window of width at most 1024 a click on a sidebar link whose target
    exists toggles the sidebar after the scroll request: it closes an open
    sidebar and opens a closed one.  On a wider window the document is left
    as it is. *)
Theorem sidebar_click_toggles_sidebar_when_narrow a pg anchor sel t p :
  a ∈ click_listeners pg ->
  get a (document pg) = Some anchor ->
  parse_selector (default "null" (getAttribute "href" (data anchor))) = Selector sel ->
  querySelector sel (document pg) = Some t ->
  querySelector [Subject [ById "sidebar"]] (document pg) = Some p ->
  exists x x',
    get p (document pg) = Some x
    /\ get p (document (click a pg).2) = Some x'
    /\ (innerWidth pg <= 1024 ->
        ("active" ∈ classList (data x') <-> "active" ∉ classList (data x)))
    /\ (1024 < innerWidth pg -> document (click a pg).2 = document pg).
Proof.
  intros Ha Hanchor Hp Hq Hsb.
  destruct (querySelector_Some _ _ _ Hq) as (target & Ht & _).
  unfold click. rewrite (bool_decide_eq_true_2 _ Ha). cbn [snd].
  rewrite (sidebar_link_click_found a (set_defaultPrevented false pg) anchor sel t target)
    by assumption.
  cbn [innerWidth set_defaultPrevented].
  set (pg1 := set_scrolls _ _).
  destruct (toggleSidebar_effect pg1 p Hsb) as (pg' & x & x' & H1 & Hx & Hx' & Hcl & _).
  destruct (Z.leb_spec (innerWidth pg) 1024) as [Hw|Hw].
  - rewrite H1. exists x, x'. split; [exact Hx|]. split; [exact Hx'|].
    split; [|lia]. intros _.
    rewrite Hcl, elem_of_classList_toggle, decide_True by reflexivity. reflexivity.
  - exists x, x. split; [exact Hx|]. split; [exact Hx|]. split; [lia|reflexivity].
Qed.

Lemma sidebar_click_toggles_sidebar_when_narrow_witness :
  innerWidth (Sample.narrow (toggleSidebar Sample.started).2) <= 1024
  /\ exists x x',
       get [1; 0]%nat (document (Sample.narrow (toggleSidebar Sample.started).2)) = Some x
       /\ get [1; 0]%nat
            (document (click [1; 0; 0; 1]%nat
                         (Sample.narrow (toggleSidebar Sample.started).2)).2) = Some x'
       /\ ("active" ∈ classList (data x))
       /\ ("active" ∉ classList (data x')).
Proof.
  split; [vm_compute; discriminate|].
  destruct (sidebar_click_toggles_sidebar_when_narrow [1; 0; 0; 1]%nat
              (Sample.narrow (toggleSidebar Sample.started).2)
              (Element (mkData "a"
                          (list_to_map [("href", "#auth");
                                        ("data-hr", "Autentifikacija");
                                        ("data-en", "Authentication")])
                          [] "" 0) [TextNode "Autentifikacija"])
              [Subject [ById "auth"]] [1; 1; 1]%nat [1; 0]%nat)
    as (x & x' & Hx & Hx' & Hn & _).
  - apply (bool_decide_unpack _); vm_compute; exact I.
  - vm_compute; reflexivity.
  - vm_compute; reflexivity.
  - vm_compute; reflexivity.
  - vm_compute; reflexivity.
  - exists x, x'. split; [exact Hx|]. split; [exact Hx'|].
    assert ("active" ∈ classList (data x)) as Hin.
    { vm_compute in Hx. injection Hx as <-. apply (bool_decide_unpack _); vm_compute; exact I. }
    split; [exact Hin|]. intros Hin'. apply Hn in Hin'; [contradiction|].
    vm_compute; discriminate.
Defined.

(** On a narrow window without a sidebar element the listener still cancels
    the jump and requests the scroll, and then stops with the TypeError of
    [toggleSidebar]. *)
Theorem sidebar_click_narrow_without_sidebar a pg anchor sel t :
  get a (document pg) = Some anchor ->
  parse_selector (default "null" (getAttribute "href" (data anchor))) = Selector sel ->
  querySelector sel (document pg) = Some t ->
  innerWidth pg <= 1024 ->
  querySelector [Subject [ById "sidebar"]] (document pg) = None ->
  exists target,
    get t (document pg) = Some target
    /\ sidebar_link_click a pg
       = (Throw TypeError,
          set_scrolls (scrolls pg ++ [(offsetTop (data target) - 80, "smooth")])
            (set_defaultPrevented true pg)).
Proof.
  intros Hanchor Hp Hq Hw Hsb.
  destruct (querySelector_Some _ _ _ Hq) as (target & Ht & _).
  exists target. split; [exact Ht|].
  rewrite (sidebar_link_click_found a pg anchor sel t target) by assumption.
  cbv zeta. rewrite (proj2 (Z.leb_le _ _) Hw).
  unfold toggleSidebar. unfold_browser. unfold_M.
  cbn [document set_scrolls set_defaultPrevented]. rewrite Hsb. reflexivity.
Qed.

Lemma sidebar_click_narrow_without_sidebar_witness :
  innerWidth Sample2.no_sidebar <= 1024
  /\ sidebar_link_click [0; 0]%nat Sample2.no_sidebar
     = (Throw TypeError,
        set_scrolls [(220, "smooth")] (set_defaultPrevented true Sample2.no_sidebar)).
Proof.
  split; [vm_compute; discriminate|].
  destruct (sidebar_click_narrow_without_sidebar [0; 0]%nat Sample2.no_sidebar
              _ [Subject [ById "top"]] [0; 1]%nat eq_refl eq_refl eq_refl)
    as (target & Ht & Hrun).
  - vm_compute; discriminate.
  - reflexivity.
  - rewrite Hrun. vm_compute in Ht. injection Ht as <-. reflexivity.
Defined.

Lemma sidebar_click_malformed_href_witness :
  ([0; 0]%nat ∈ click_listeners Sample2.hash_link)
  /\ (sidebar_link_click [0; 0]%nat (set_defaultPrevented false Sample2.hash_link)).1
     = Throw SyntaxError
  /\ click [0; 0]%nat Sample2.hash_link
     = (false, set_defaultPrevented true Sample2.hash_link).
Proof.
  assert ([0; 0]%nat ∈ click_listeners Sample2.hash_link) as Hin
    by (apply (bool_decide_unpack _); vm_compute; exact I).
  split; [exact Hin|].
  apply (sidebar_click_malformed_href [0; 0]%nat Sample2.hash_link _ Hin eq_refl eq_refl).
Defined.

(** ** switchLanguage, further *)

Lemma elem_of_classList_toggle_force token b c cl :
  c ∈ classList_toggle_force token b cl <->
  if decide (c = token) then b = true else c ∈ cl.
Proof.
  unfold classList_toggle_force, contains.
  destruct (decide (c = token)) as [->|Hc]; destruct b.
  - case_bool_decide as Hin; [tauto|].
    rewrite elem_of_app, list_elem_of_singleton. tauto.
  - rewrite list_elem_of_filter. split; [intros [H _]; congruence|discriminate].
  - case_bool_decide as Hin; [tauto|].
    rewrite elem_of_app, list_elem_of_singleton. tauto.
  - rewrite list_elem_of_filter. tauto.
Qed.

Lemma contains_classList_toggle_force token b c cl :
  c <> token -> contains c (classList_toggle_force token b cl) = contains c cl.
Proof.
  intros Hc. unfold contains. apply bool_decide_ext.
  rewrite elem_of_classList_toggle_force, decide_False by exact Hc. reflexivity.
Qed.

(** Marking elements active or not changes no verdict of a selector that
    looks at element names and at classes other than active. *)
Lemma blind_below_mark_active a s (h : edata -> bool) :
  a <> "active" ->
  blind [Below [ByClass a] [ByTag s]]
        (fun e => set_classList (classList_toggle_force "active" (h e) (classList e)) e).
Proof.
  intros Ha. split.
  - reflexivity.
  - intros a1 a2 e0 e. cbn. rewrite !existsb_app. cbn.
    rewrite contains_classList_toggle_force by exact Ha. reflexivity.
Qed.

Lemma blind_class_mark_active a (h : edata -> bool) :
  a <> "active" ->
  blind [Subject [ByClass a]]
        (fun e => set_classList (classList_toggle_force "active" (h e) (classList e)) e).
Proof.
  intros Ha. split; [|reflexivity]. intros anc e. cbn.
  rewrite contains_classList_toggle_force by exact Ha. reflexivity.
Qed.

Lemma querySelectorAll_run_loop sel g (Hg : blind sel g) qs : forall d,
  querySelectorAll sel (run_loop (with_data g) qs d) = querySelectorAll sel d.
Proof.
  unfold run_loop. induction qs as [|q qs IH]; intros d; [reflexivity|].
  cbn [foldl]. rewrite IH. apply querySelectorAll_modify_data, Hg.
Qed.

(** What a loop of one field write leaves in every listed element. *)
Lemma run_loop_data_establishes g (Q : edata -> Prop) qs d p x' :
  (forall e, Q (g e)) ->
  p ∈ qs -> get p (run_loop (with_data g) qs d) = Some x' -> Q (data x').
Proof.
  intros Hg Hin Hx.
  refine (loop_establishes _ (keeps_children_with_data g) (fun x => Q (data x))
            _ _ _ _ _ _ Hin Hx).
  - intros x. apply Hg.
  - intros x y Ht Hq. destruct Ht; [exact Hq|apply Hg|exact Hq].
Qed.

(** After [switchLanguage l] a button below .lang-switcher-inline is marked
    active exactly when its id is lang-[l]-btn. *)
Theorem switchLanguage_marks_button l pg :
  exists pg',
    switchLanguage l pg = (Ok tt, pg')
    /\ forall p x,
         get p (document pg') = Some x ->
         matches sel_lang_buttons (ancestors p (document pg')) (data x) = true ->
         ("active" ∈ classList (data x) <-> id_of (data x) = "lang-" +:+ l +:+ "-btn").
Proof.
  eexists. split; [apply switchLanguage_run|].
  cbn [document set_document]. intros p x Hx Hm.
  unfold language_loops in *. cbv zeta in *.
  set (d2 := run_loop (set_textContent (localized l)) _ _) in *.
  assert (p ∈ querySelectorAll sel_lang_buttons d2) as Hin.
  { rewrite <- (querySelectorAll_run_loop sel_lang_buttons (mark_lang_button l)
                  (blind_below_mark_active "lang-switcher-inline" "button"
                     (fun e => bool_decide (id_of e = "lang-" +:+ l +:+ "-btn"))
                     ltac:(discriminate))
                  (querySelectorAll sel_lang_buttons d2) d2).
    apply elem_of_querySelectorAll. eauto. }
  refine (run_loop_data_establishes (mark_lang_button l)
            (fun e => "active" ∈ classList e <-> id_of e = "lang-" +:+ l +:+ "-btn")
            _ _ _ _ _ Hin Hx).
  intros e. unfold mark_lang_button. cbn [classList set_classList].
  rewrite elem_of_classList_toggle_force, decide_True by reflexivity.
  change (id_of (set_classList _ e)) with (id_of e).
  rewrite bool_decide_eq_true. reflexivity.
Qed.


(** [switchLanguage] does not validate its argument either: for a language
    that no data-lang attribute of the document names, it hides every
    element that has a data-lang attribute. *)
Theorem switchLanguage_unknown_language_hides_all l pg :
  (forall p x, get p (document pg) = Some x -> getAttribute "data-lang" (data x) <> Some l) ->
  exists pg',
    switchLanguage l pg = (Ok tt, pg')
    /\ localStorage pg' !! "language" = Some l
    /\ forall p x, get p (document pg') = Some x ->
         is_Some (getAttribute "data-lang" (data x)) ->
         display (data x) = "none".
Proof.
  intros Hno. eexists. split; [apply switchLanguage_run|].
  cbn [document set_document localStorage set_localStorage].
  split; [apply lookup_insert_eq|].
  intros p x Hx [v Hv]. rewrite (language_loops_display _ _ _ _ Hx v Hv).
  destruct (decide (v = l)) as [->|_]; [|reflexivity].
  exfalso.
  destruct (language_loops_frame _ _ _ _ Hx) as (x0 & Hx0 & _ & Ha).
  destruct (decide (p = [])) as [->|Hp].
  - injection Hx0 as <-.
    apply (Hno [] (document pg) eq_refl).
    unfold getAttribute in *. rewrite Ha in Hv.
    destruct (document pg) as [e ks]. cbn in Hv.
    rewrite lookup_insert_ne in Hv by discriminate. exact Hv.
  - assert (data <$> get p (document pg) = Some (data x0)) as Hd.
    { rewrite <- (get_modify_data_ne (set_attr "lang" l) p [] (document pg) Hp), Hx0.
      reflexivity. }
    destruct (get p (document pg)) as [y|] eqn:Hy; [|discriminate Hd].
    injection Hd as Hd. apply (Hno _ _ Hy).
    unfold getAttribute in *. rewrite Hd, <- Ha. exact Hv.
Qed.

(** Every element with an attribute has a property when the elements that
    a query for the attribute lists have it. *)
Lemma by_attr_query n (Q : edata -> Prop) doc :
  (forall p, p ∈ querySelectorAll [Subject [ByAttr n]] doc ->
     exists x, get p doc = Some x /\ Q (data x)) ->
  forall p x, get p doc = Some x -> is_Some (attrs (data x) !! n) -> Q (data x).
Proof.
  intros H p x Hx Hc.
  destruct (H p) as (y & Hy & HQ).
  - apply elem_of_querySelectorAll. exists x. split; [exact Hx|].
    cbn. rewrite andb_true_r, orb_false_r. apply bool_decide_eq_true. exact Hc.
  - rewrite Hx in Hy. injection Hy as <-. exact HQ.
Qed.

Lemma started_has_no_german p x :
  get p (document Sample.started) = Some x ->
  getAttribute "data-lang" (data x) <> Some "de".
Proof.
  intros Hx.
  change (attrs (data x) !! "data-lang" <> Some "de").
  destruct (attrs (data x) !! "data-lang") as [v|] eqn:Hv; [|discriminate].
  rewrite <- Hv.
  refine (by_attr_query "data-lang" (fun e => attrs e !! "data-lang" <> Some "de")
            (document Sample.started) _ p x Hx _); [|rewrite Hv; eauto].
  intros q Hq. vm_compute in Hq.
  repeat (apply elem_of_cons in Hq as [->|Hq]); try (apply elem_of_nil in Hq; destruct Hq).
  all: eexists; split; [vm_compute; reflexivity|vm_compute; discriminate].
Qed.

Lemma switchLanguage_unknown_language_hides_all_witness :
  exists pg',
    switchLanguage "de" Sample.started = (Ok tt, pg')
    /\ localStorage pg' !! "language" = Some "de"
    /\ forall p x, get p (document pg') = Some x ->
         is_Some (getAttribute "data-lang" (data x)) ->
         display (data x) = "none".
Proof.
  apply (switchLanguage_unknown_language_hides_all "de" Sample.started).
  exact started_has_no_german.
Defined.

(** ** The intersection observer *)

Lemma forEach_app {A} (f : A -> M unit) l1 l2 : forall pg,
  forEach (l1 ++ l2) f pg
  = match forEach l1 f pg with
    | (Ok _, pg1) => forEach l2 f pg1
    | (Throw e, pg1) => (Throw e, pg1)
    | (HostDefined, pg1) => (HostDefined, pg1)
    end.
Proof.
  induction l1 as [|x l1 IH]; intros pg; [reflexivity|].
  cbn [app forEach]. unfold mbind, M_bind.
  destruct (f x pg) as [[u|e|] pg1]; [apply IH|reflexivity|reflexivity].
Qed.

Lemma forEach_cons {A} (f : A -> M unit) x l pg :
  forEach (x :: l) f pg
  = match f x pg with
    | (Ok _, pg1) => forEach l f pg1
    | (Throw e, pg1) => (Throw e, pg1)
    | (HostDefined, pg1) => (HostDefined, pg1)
    end.
Proof. reflexivity. Qed.

Lemma mark_links_run id navLinks pg :
  forEach navLinks (fun link => update_element link (mark_link id)) pg
  = (Ok tt, set_document (run_loop (with_data (mark_link id)) navLinks (document pg)) pg).
Proof. unfold update_element. apply forEach_update_document. Qed.

(** A loop of writes that keep the attributes keeps, under every path, the
    element's being there and its attributes. *)
Lemma run_loop_attrs g qs :
  (forall e, attrs (g e) = attrs e) ->
  forall d p,
    attrs ∘ data <$> get p (run_loop (with_data g) qs d) = attrs ∘ data <$> get p d.
Proof.
  intros Hg. unfold run_loop. induction qs as [|q qs IH]; intros d p; [reflexivity|].
  cbn [foldl]. rewrite IH.
  rewrite !(option_fmap_compose data attrs), get_modify_data.
  case_decide; [|reflexivity].
  destruct (data <$> get p d) as [e|]; [|reflexivity]. cbn. rewrite Hg. reflexivity.
Qed.

(** A batch in which no entry is intersecting changes nothing. *)
Lemma on_intersection_skips navLinks entries pg :
  Forall (fun entry => entry.1 = false) entries ->
  on_intersection navLinks entries pg = (Ok tt, pg).
Proof.
  unfold on_intersection. intros H. revert pg.
  induction H as [|[b t] entries Hb _ IH]; intros pg; [reflexivity|].
  cbn in Hb. subst b. cbn [forEach fst]. unfold mbind, mret, M_bind, M_ret. apply IH.
Qed.

(** The observer's callback looks at the intersecting entries only: the
    entries that report a section leaving the viewport are skipped, so a
    batch does what the batch of its intersecting entries does.  No link is
    unmarked because its section left. *)
Theorem on_intersection_ignores_leaving navLinks entries pg :
  on_intersection navLinks entries pg
  = on_intersection navLinks (filter (fun entry => entry.1 = true) entries) pg.
Proof.
  unfold on_intersection. revert pg.
  induction entries as [|[b t] entries IH]; intros pg; [reflexivity|].
  destruct b.
  - rewrite filter_cons_True by reflexivity.
    rewrite !forEach_cons. cbn [fst snd]. unfold mbind at 1 3, M_bind.
    destruct (read_element t pg) as [[target|e|] pg1]; [|reflexivity|reflexivity].
    unfold mbind, M_bind.
    destruct (forEach navLinks _ pg1) as [[u|e|] pg2]; [apply IH|reflexivity|reflexivity].
  - rewrite filter_cons_False by discriminate.
    rewrite forEach_cons. cbn [fst]. unfold mbind, mret, M_bind, M_ret. apply IH.
Qed.

(** A batch whose intersecting targets are in the document is handled to
    the end, and every element keeps its attributes. *)
Lemma on_intersection_returns navLinks entries : forall pg,
  (forall entry, entry ∈ entries -> entry.1 = true -> is_Some (get entry.2 (document pg))) ->
  exists pg',
    on_intersection navLinks entries pg = (Ok tt, pg')
    /\ forall p, attrs ∘ data <$> get p (document pg') = attrs ∘ data <$> get p (document pg).
Proof.
  unfold on_intersection.
  induction entries as [|[b t] entries IH]; intros pg Hall.
  - exists pg. split; reflexivity.
  - cbn [forEach fst snd]. destruct b.
    + destruct (Hall (true, t)) as [target Ht]; [left|reflexivity|]. cbn in Ht.
      unfold mbind, M_bind, read_element. rewrite Ht.
      rewrite mark_links_run.
      set (pg1 := set_document _ pg).
      assert (forall p, attrs ∘ data <$> get p (document pg1)
                        = attrs ∘ data <$> get p (document pg)) as Hsame.
      { intros p. subst pg1. cbn [document set_document].
        apply run_loop_attrs. reflexivity. }
      destruct (IH pg1) as (pg' & Hrun & Hattrs).
      { intros entry Hin Hb. apply (fmap_is_Some (attrs ∘ data)). rewrite Hsame.
        apply fmap_is_Some, Hall; [right; exact Hin|exact Hb]. }
      exists pg'. split; [exact Hrun|]. intros p. rewrite Hattrs. apply Hsame.
    + unfold mbind, mret, M_bind, M_ret. apply IH.
      intros entry Hin Hb. apply Hall; [right; exact Hin|exact Hb].
Qed.

(** Last one wins: after a batch, the sidebar links are marked for the last
    intersecting entry.  A link is active exactly when its href is # followed
    by the id of that entry's target. *)
Theorem on_intersection_last_wins navLinks before t after pg target :
  (forall entry, entry ∈ before -> entry.1 = true -> is_Some (get entry.2 (document pg))) ->
  get t (document pg) = Some target ->
  Forall (fun entry => entry.1 = false) after ->
  exists pg',
    on_intersection navLinks (before ++ (true, t) :: after) pg = (Ok tt, pg')
    /\ forall link x,
         link ∈ navLinks ->
         get link (document pg') = Some x ->
         ("active" ∈ classList (data x) <->
          getAttribute "href" (data x)
          = Some ("#" +:+ default "null" (getAttribute "id" (data target)))).
Proof.
  intros Hbefore Ht Hafter.
  destruct (on_intersection_returns navLinks before pg Hbefore) as (pg1 & H1 & Hattrs).
  assert (exists target1, get t (document pg1) = Some target1
                          /\ attrs (data target1) = attrs (data target))
    as (target1 & Ht1 & Ha1).
  { specialize (Hattrs t). rewrite Ht in Hattrs.
    destruct (get t (document pg1)) as [y|]; [|discriminate Hattrs].
    injection Hattrs as Hy. eauto. }
  eexists. split.
  - unfold on_intersection in *. rewrite forEach_app, H1.
    cbn [forEach fst snd]. unfold mbind, M_bind, read_element. rewrite Ht1.
    rewrite mark_links_run.
    apply (on_intersection_skips navLinks after _ Hafter).
  - cbn [document set_document]. intros link x Hin Hx.
    replace (getAttribute "id" (data target)) with (getAttribute "id" (data target1))
      by (unfold getAttribute; rewrite Ha1; reflexivity).
    refine (run_loop_data_establishes (mark_link (getAttribute "id" (data target1)))
              (fun e => "active" ∈ classList e <->
                        getAttribute "href" e
                        = Some ("#" +:+ default "null" (getAttribute "id" (data target1))))
              _ _ _ _ _ Hin Hx).
    intros e. unfold mark_link. cbn [classList set_classList].
    rewrite elem_of_classList_toggle_force, decide_True by reflexivity.
    change (getAttribute "href" (set_classList _ e)) with (getAttribute "href" e).
    rewrite bool_decide_eq_true. reflexivity.
Qed.

Lemma on_intersection_last_wins_witness :
  exists pg',
    on_intersection [[1; 0; 0; 0]; [1; 0; 0; 1]; [1; 0; 0; 2]]%nat
      ([(true, [1; 1; 0]%nat)] ++ (true, [1; 1; 1]%nat) :: [(false, [1; 1; 0]%nat)])
      Sample.started
    = (Ok tt, pg')
    /\ forall link x,
         link ∈ [[1; 0; 0; 0]; [1; 0; 0; 1]; [1; 0; 0; 2]]%nat ->
         get link (document pg') = Some x ->
         ("active" ∈ classList (data x) <-> getAttribute "href" (data x) = Some "#auth").
Proof.
  destruct (on_intersection_last_wins [[1; 0; 0; 0]; [1; 0; 0; 1]; [1; 0; 0; 2]]%nat
              [(true, [1; 1; 0]%nat)] [1; 1; 1]%nat [(false, [1; 1; 0]%nat)] Sample.started
              (Element (mkData "section" (list_to_map [("id", "auth")]) ["section"] "" 900)
                 [ Sample.el "p" [("data-lang", "hr")] [] 0 [TextNode "Prijava"];
                   ElemNode (Element (mkData "p" (list_to_map [("data-lang", "en")]) []
                                        "none" 0) [TextNode "Sign in"]) ]))
    as (pg' & Hrun & Hlinks).
  - intros entry Hin _. apply list_elem_of_singleton in Hin. subst entry.
    vm_compute. eauto.
  - vm_compute; reflexivity.
  - repeat constructor.
  - exists pg'. split; [exact Hrun|]. exact Hlinks.
Defined.

(** ** showFramework *)

Lemma starts_with_spec sub : forall s,
  starts_with sub s = true <-> exists b, s = sub +:+ b.
Proof.
  induction sub as [|a sub IH]; intros s.
  - split; [intros _; exists s; reflexivity|reflexivity].
  - destruct s as [|c s]; cbn [starts_with].
    + split; [discriminate|intros (b & H); discriminate H].
    + rewrite andb_true_iff, bool_decide_eq_true, IH. split.
      * intros (-> & b & ->). exists b. reflexivity.
      * intros (b & H). injection H as -> ->. eauto.
Qed.

(** [includes] is the substring test. *)
Lemma includes_spec sub : forall s,
  includes s sub = true <-> exists a b, s = a +:+ sub +:+ b.
Proof.
  induction s as [|c s IH]; cbn [includes]; rewrite orb_true_iff, starts_with_spec.
  - split.
    + intros [(b & H)|H]; [|discriminate H]. exists "", b. exact H.
    + intros (a & b & H). left. destruct a; [eauto|discriminate H].
  - rewrite IH. split.
    + intros [(b & H)|(a & b & H)].
      * exists "", b. exact H.
      * exists (String c a), b. rewrite H. reflexivity.
    + intros (a & b & H). destruct a as [|c' a].
      * left. eauto.
      * right. injection H as -> ->. eauto.
Qed.

Lemma includes_empty s : includes s "" = true.
Proof. destruct s; reflexivity. Qed.

Lemma modify_data_ext_at g h p : forall el x,
  get p el = Some x -> g (data x) = h (data x) ->
  modify (with_data g) p el = modify (with_data h) p el.
Proof.
  induction p as [|i p IH]; intros el x Hx Hgh.
  - injection Hx as <-. cbn. unfold with_data. rewrite Hgh. reflexivity.
  - apply get_cons_Some in Hx as (c & Hc & Hx).
    cbn [modify]. f_equal. apply list_alter_ext; [|reflexivity].
    intros k Hk. rewrite Hc in Hk. injection Hk as <-. cbn. f_equal.
    exact (IH _ _ Hx Hgh).
Qed.

Lemma mark_tab_run f q pg :
  mark_tab f q pg
  = match get q (document pg) with
    | None => (HostDefined, pg)
    | Some x =>
        match getAttribute "onclick" (data x) with
        | None => (Throw TypeError, pg)
        | Some o =>
            (Ok tt,
             set_document
               (modify (with_data (mark_active (includes o f))) q (document pg)) pg)
        end
    end.
Proof.
  unfold mark_tab, read_element. unfold_M.
  destruct (get q (document pg)) as [x|]; [|reflexivity].
  destruct (getAttribute "onclick" (data x)); reflexivity.
Qed.

(** The loop over the tab buttons writes class lists only, and only those
    of the listed buttons; it leaves the rest of the page alone, however it
    ends. *)
Lemma forEach_mark_tab_keeps f {B} (proj : edata -> B) :
  (forall b e, proj (mark_active b e) = proj e) ->
  forall btns pg p,
    proj ∘ data <$> get p (document (forEach btns (mark_tab f) pg).2)
    = proj ∘ data <$> get p (document pg).
Proof.
  intros Hproj. induction btns as [|q btns IH]; intros pg p; [reflexivity|].
  rewrite forEach_cons, mark_tab_run.
  destruct (get q (document pg)) as [x|]; [|reflexivity].
  destruct (getAttribute "onclick" (data x)) as [o|]; [|reflexivity].
  match goal with |- context [forEach btns (mark_tab f) ?s] =>
    specialize (IH s p); destruct (forEach btns (mark_tab f) s) as [[u|e|] pg2] end;
    cbn [snd] in *; rewrite IH; cbn [document set_document];
    rewrite !(option_fmap_compose data proj), get_modify_data;
    (case_decide; [|reflexivity]);
    (destruct (data <$> get p (document pg)) as [e0|]; [|reflexivity]);
    cbn; rewrite Hproj; reflexivity.
Qed.

Lemma forEach_mark_tab_other f btns : forall pg p,
  p ∉ btns ->
  data <$> get p (document (forEach btns (mark_tab f) pg).2) = data <$> get p (document pg).
Proof.
  induction btns as [|q btns IH]; intros pg p Hp; [reflexivity|].
  apply not_elem_of_cons in Hp as [Hpq Hp].
  rewrite forEach_cons, mark_tab_run.
  destruct (get q (document pg)) as [x|]; [|reflexivity].
  destruct (getAttribute "onclick" (data x)) as [o|]; [|reflexivity].
  match goal with |- context [forEach btns (mark_tab f) ?s] =>
    specialize (IH s p Hp); destruct (forEach btns (mark_tab f) s) as [[u|e|] pg2] end;
    cbn [snd] in *; rewrite IH; cbn [document set_document];
    apply get_modify_data_ne; exact Hpq.
Qed.

(** When every listed button is in the document and has an onclick
    attribute, the loop runs to its end. *)
Lemma forEach_mark_tab_returns f btns : forall pg,
  (forall p, p ∈ btns ->
     exists x, get p (document pg) = Some x /\ is_Some (getAttribute "onclick" (data x))) ->
  forEach btns (mark_tab f) pg
  = (Ok tt, set_document (run_loop (with_data (mark_tab_data f)) btns (document pg)) pg).
Proof.
  induction btns as [|q btns IH]; intros pg Hall.
  - cbn. rewrite set_document_id. reflexivity.
  - destruct (Hall q) as (x & Hx & o & Ho); [left|].
    rewrite forEach_cons, mark_tab_run, Hx, Ho.
    rewrite (modify_data_ext_at (mark_active (includes o f)) (mark_tab_data f) q _ x Hx)
      by (unfold mark_tab_data; rewrite Ho; reflexivity).
    rewrite IH.
    + reflexivity.
    + intros p Hp. cbn [document set_document].
      destruct (Hall p) as (y & Hy & Hoy); [right; exact Hp|].
      assert (attrs ∘ data <$> get p (modify (with_data (mark_tab_data f)) q (document pg))
              = Some (attrs (data y))) as Hd.
      { rewrite (option_fmap_compose data attrs), get_modify_data, Hy.
        case_decide; reflexivity. }
      destruct (get p (modify (with_data (mark_tab_data f)) q (document pg))) as [y'|];
        [|discriminate Hd].
      injection Hd as Hd. exists y'. split; [reflexivity|].
      unfold getAttribute in *. rewrite Hd. exact Hoy.
Qed.

(** When a listed button has no onclick attribute, the loop ends in a
    TypeError. *)
Lemma forEach_mark_tab_throws f btns : forall pg p x,
  (forall q, q ∈ btns -> is_Some (get q (document pg))) ->
  p ∈ btns -> get p (document pg) = Some x -> getAttribute "onclick" (data x) = None ->
  (forEach btns (mark_tab f) pg).1 = Throw TypeError.
Proof.
  induction btns as [|q btns IH]; intros pg p x Hall Hin Hx Ho.
  - apply elem_of_nil in Hin. destruct Hin.
  - rewrite forEach_cons, mark_tab_run.
    destruct (Hall q) as [y Hy]; [left|]. rewrite Hy.
    destruct (getAttribute "onclick" (data y)) as [o|] eqn:Hoy; [|reflexivity].
    apply elem_of_cons in Hin as [->|Hin]; [congruence|].
    set (pg1 := set_document _ pg).
    assert (forall r, attrs ∘ data <$> get r (document pg1)
                      = attrs ∘ data <$> get r (document pg)) as Hsame.
    { intros r. subst pg1. cbn [document set_document].
      rewrite !(option_fmap_compose data attrs), get_modify_data.
      case_decide; [|reflexivity].
      destruct (data <$> get r (document pg)); reflexivity. }
    assert (exists x1, get p (document pg1) = Some x1 /\ attrs (data x1) = attrs (data x))
      as (x1 & Hx1 & Ha1).
    { specialize (Hsame p). rewrite Hx in Hsame.
      destruct (get p (document pg1)) as [x1|]; [|discriminate Hsame].
      injection Hsame as Hs. eauto. }
    specialize (IH pg1 p x1).
    destruct (forEach btns (mark_tab f) pg1) as [[u|e|] pg2]; cbn [fst] in *; apply IH.
    all: try exact Hin; try exact Hx1.
    all: try (unfold getAttribute in *; rewrite Ha1; exact Ho).
    all: intros r Hr; apply (fmap_is_Some (attrs ∘ data)); rewrite Hsame;
      apply fmap_is_Some, Hall; right; exact Hr.
Qed.

Lemma showFramework_run f pg :
  showFramework f pg
  = forEach
      (querySelectorAll sel_tab_btn
         (run_loop (with_data (mark_content f))
            (querySelectorAll sel_framework_content (document pg)) (document pg)))
      (mark_tab f)
      (set_document
         (run_loop (with_data (mark_content f))
            (querySelectorAll sel_framework_content (document pg)) (document pg)) pg).
Proof.
  unfold showFramework, update_element, document_querySelectorAll. unfold_M.
  rewrite forEach_update_document. reflexivity.
Qed.

(** However [showFramework] ends, it has switched the example blocks: an
    element with the class framework-content (and not itself a tab button)
    is active exactly when its id is the argument. *)
Theorem showFramework_shows_block f pg p x :
  get p (document (showFramework f pg).2) = Some x ->
  "framework-content" ∈ classList (data x) ->
  "tab-btn" ∉ classList (data x) ->
  ("active" ∈ classList (data x) <-> id_of (data x) = f).
Proof.
  intros Hx Hfc Htb. rewrite showFramework_run in Hx.
  set (d1 := run_loop (with_data (mark_content f)) _ (document pg)) in *.
  set (btns := querySelectorAll sel_tab_btn d1) in *.
  set (pg1 := set_document d1 pg) in *.
  assert (p ∉ btns) as Hp.
  { intros Hin. apply elem_of_querySelectorAll in Hin as (x1 & Hx1 & Hm1).
    pose proof (forEach_mark_tab_keeps f (fun e => contains "tab-btn" (classList e))
                  (fun b e => contains_classList_toggle_force "active" b "tab-btn"
                                (classList e) ltac:(discriminate))
                  btns pg1 p) as Hk.
    rewrite Hx in Hk. subst pg1. cbn [document set_document] in Hk. rewrite Hx1 in Hk.
    cbn in Hk. injection Hk as Hk. cbn in Hm1. rewrite andb_true_r, orb_false_r in Hm1.
    rewrite Hm1 in Hk. apply bool_decide_eq_true in Hk. contradiction. }
  pose proof (forEach_mark_tab_other f btns pg1 p Hp) as Hd.
  rewrite Hx in Hd. subst pg1. cbn [document set_document] in Hd.
  destruct (get p d1) as [x1|] eqn:Hx1; [|discriminate Hd].
  injection Hd as Hd. rewrite Hd.
  assert (p ∈ querySelectorAll sel_framework_content (document pg)) as Hin.
  { rewrite <- (querySelectorAll_run_loop sel_framework_content (mark_content f)
                  (blind_class_mark_active "framework-content"
                     (fun e => bool_decide (id_of e = f)) ltac:(discriminate))
                  (querySelectorAll sel_framework_content (document pg)) (document pg)).
    apply elem_of_querySelectorAll. exists x1. split; [exact Hx1|].
    cbn. rewrite andb_true_r, orb_false_r. apply bool_decide_eq_true.
    rewrite <- Hd. exact Hfc. }
  refine (run_loop_data_establishes (mark_content f)
            (fun e => "active" ∈ classList e <-> id_of e = f) _ _ _ _ _ Hin Hx1).
  intros e. unfold mark_content. cbn [classList set_classList].
  rewrite elem_of_classList_toggle_force, decide_True by reflexivity.
  change (id_of (set_classList _ e)) with (id_of e).
  rewrite bool_decide_eq_true. reflexivity.
Qed.

Lemma showFramework_shows_block_witness :
  exists x,
    get [0; 2]%nat (document (showFramework "node-express" Sample2.examples).2) = Some x
    /\ id_of (data x) = "node-express"
    /\ ("active" ∈ classList (data x)).
Proof.
  eexists. split; [vm_compute; reflexivity|]. split; [reflexivity|].
  apply (showFramework_shows_block "node-express" Sample2.examples [0; 2]%nat _ eq_refl).
  - apply (bool_decide_unpack _); vm_compute; exact I.
  - apply (bool_decide_unpack _); vm_compute; exact I.
  - reflexivity.
Defined.

Lemma run_loop_keeps g {B} (proj : edata -> B) qs :
  (forall e, proj (g e) = proj e) ->
  forall d p,
    proj ∘ data <$> get p (run_loop (with_data g) qs d) = proj ∘ data <$> get p d.
Proof.
  intros Hg. unfold run_loop. induction qs as [|q qs IH]; intros d p; [reflexivity|].
  cbn [foldl]. rewrite IH.
  rewrite !(option_fmap_compose data proj), get_modify_data.
  case_decide; [|reflexivity].
  destruct (data <$> get p d) as [e|]; [|reflexivity]. cbn. rewrite Hg. reflexivity.
Qed.

(** An element under the same path before the first loop of
    [showFramework], with the same attributes and the same verdict on being
    a tab button. *)
Lemma showFramework_first_loop_keeps f d p x1 :
  get p (run_loop (with_data (mark_content f))
           (querySelectorAll sel_framework_content d) d) = Some x1 ->
  exists x, get p d = Some x
            /\ attrs (data x1) = attrs (data x)
            /\ contains "tab-btn" (classList (data x1))
               = contains "tab-btn" (classList (data x)).
Proof.
  intros H1.
  pose proof (run_loop_keeps (mark_content f)
                (fun e => (attrs e, contains "tab-btn" (classList e)))
                (querySelectorAll sel_framework_content d)
                (fun e => f_equal (pair (attrs e))
                            (contains_classList_toggle_force "active" _ "tab-btn"
                               (classList e) ltac:(discriminate)))
                d p) as Hk.
  rewrite H1 in Hk. destruct (get p d) as [x|]; [|discriminate Hk].
  cbn in Hk. injection Hk as Ha Hc. eauto.
Qed.

(** The tab buttons after [showFramework], when each of them has an onclick
    attribute. *)
Lemma showFramework_tabs f pg :
  (forall p x, get p (document pg) = Some x ->
     "tab-btn" ∈ classList (data x) -> is_Some (getAttribute "onclick" (data x))) ->
  exists pg',
    showFramework f pg = (Ok tt, pg')
    /\ forall p x,
         get p (document pg') = Some x ->
         "tab-btn" ∈ classList (data x) ->
         exists onclick,
           getAttribute "onclick" (data x) = Some onclick
           /\ ("active" ∈ classList (data x) <-> includes onclick f = true).
Proof.
  intros Hall. rewrite showFramework_run.
  set (d1 := run_loop (with_data (mark_content f)) _ (document pg)).
  assert (forall p x1, get p d1 = Some x1 -> contains "tab-btn" (classList (data x1)) = true ->
            is_Some (getAttribute "onclick" (data x1))) as Hall1.
  { intros p x1 H1 Hc.
    destruct (showFramework_first_loop_keeps f _ p x1 H1) as (x & Hx & Ha & Hcc).
    unfold getAttribute. rewrite Ha. apply (Hall p x Hx).
    rewrite Hcc in Hc. apply bool_decide_eq_true in Hc. exact Hc. }
  rewrite forEach_mark_tab_returns.
  2:{ intros p Hin. apply elem_of_querySelectorAll in Hin as (x1 & H1 & Hm).
      cbn in Hm. rewrite andb_true_r, orb_false_r in Hm. eauto. }
  eexists. split; [reflexivity|]. cbn [document set_document].
  intros p x Hx Htb.
  set (btns := querySelectorAll sel_tab_btn d1) in *.
  assert (p ∈ btns) as Hin.
  { subst btns.
    rewrite <- (querySelectorAll_run_loop sel_tab_btn (mark_tab_data f)
                  (blind_class_mark_active "tab-btn"
                     (fun e => includes (default "" (getAttribute "onclick" e)) f)
                     ltac:(discriminate))
                  (querySelectorAll sel_tab_btn d1) d1).
    apply elem_of_querySelectorAll. exists x. split; [exact Hx|].
    cbn. rewrite andb_true_r, orb_false_r. apply bool_decide_eq_true. exact Htb. }
  assert (is_Some (getAttribute "onclick" (data x))) as [o Ho].
  { pose proof (run_loop_keeps (mark_tab_data f)
                  (fun e => (attrs e, contains "tab-btn" (classList e))) btns
                  (fun e => f_equal (pair (attrs e))
                              (contains_classList_toggle_force "active" _ "tab-btn"
                                 (classList e) ltac:(discriminate)))
                  d1 p) as Hk.
    rewrite Hx in Hk. destruct (get p d1) as [x1|] eqn:H1; [|discriminate Hk].
    cbn in Hk. injection Hk as Ha Hc.
    unfold getAttribute. rewrite Ha. apply (Hall1 p x1 H1).
    rewrite <- Hc. apply bool_decide_eq_true. exact Htb. }
  exists o. split; [exact Ho|].
  pose proof (run_loop_data_establishes (mark_tab_data f)
                (fun e => "active" ∈ classList e <->
                          includes (default "" (getAttribute "onclick" e)) f = true)
                btns d1 p x) as HQ.
  cbv beta in HQ. rewrite Ho in HQ. apply HQ; [|exact Hin|exact Hx].
  intros e. unfold mark_tab_data, mark_active. cbn [classList set_classList].
  rewrite elem_of_classList_toggle_force, decide_True by reflexivity.
  reflexivity.
Qed.

(** [showFramework] marks a tab button by a substring test: when every tab
    button has an onclick attribute it returns, and a tab button is active
    exactly when the argument occurs somewhere in its onclick text.  A name
    that is part of another name marks both buttons. *)
Theorem showFramework_marks_tabs_by_substring f pg :
  (forall p x, get p (document pg) = Some x ->
     "tab-btn" ∈ classList (data x) -> is_Some (getAttribute "onclick" (data x))) ->
  exists pg',
    showFramework f pg = (Ok tt, pg')
    /\ forall p x,
         get p (document pg') = Some x ->
         "tab-btn" ∈ classList (data x) ->
         exists onclick,
           getAttribute "onclick" (data x) = Some onclick
           /\ ("active" ∈ classList (data x) <-> exists a b, onclick = a +:+ f +:+ b).
Proof.
  intros Hall. destruct (showFramework_tabs f pg Hall) as (pg' & Hrun & Htabs).
  exists pg'. split; [exact Hrun|]. intros p x Hx Htb.
  destruct (Htabs p x Hx Htb) as (o & Ho & Hact).
  exists o. split; [exact Ho|]. rewrite Hact. apply includes_spec.
Qed.

(** Every element with a class has a property when the elements that a
    query for the class lists have it. *)
Lemma by_class_query c (Q : edata -> Prop) doc :
  (forall p, p ∈ querySelectorAll [Subject [ByClass c]] doc ->
     exists x, get p doc = Some x /\ Q (data x)) ->
  forall p x, get p doc = Some x -> c ∈ classList (data x) -> Q (data x).
Proof.
  intros H p x Hx Hc.
  destruct (H p) as (y & Hy & HQ).
  - apply elem_of_querySelectorAll. exists x. split; [exact Hx|].
    cbn. rewrite andb_true_r, orb_false_r. apply bool_decide_eq_true. exact Hc.
  - rewrite Hx in Hy. injection Hy as <-. exact HQ.
Qed.

Lemma examples_tabs_have_onclick p x :
  get p (document Sample2.examples) = Some x ->
  "tab-btn" ∈ classList (data x) -> is_Some (getAttribute "onclick" (data x)).
Proof.
  apply (by_class_query "tab-btn" (fun e => is_Some (getAttribute "onclick" e))).
  intros q Hq. vm_compute in Hq.
  repeat (apply elem_of_cons in Hq as [->|Hq]); [| | |apply elem_of_nil in Hq; destruct Hq].
  all: eexists; split; [vm_compute; reflexivity|vm_compute; eauto].
Qed.

Lemma showFramework_marks_tabs_by_substring_witness :
  exists pg',
    showFramework "node" Sample2.examples = (Ok tt, pg')
    /\ (classList ∘ data <$> get [0; 0; 1]%nat (document pg')) = Some ["tab-btn"; "active"]
    /\ forall p x,
         get p (document pg') = Some x ->
         "tab-btn" ∈ classList (data x) ->
         exists onclick,
           getAttribute "onclick" (data x) = Some onclick
           /\ ("active" ∈ classList (data x) <-> exists a b, onclick = a +:+ "node" +:+ b).
Proof.
  destruct (showFramework_marks_tabs_by_substring "node" Sample2.examples
              examples_tabs_have_onclick) as (pg' & Hrun & Htabs).
  exists pg'. split; [exact Hrun|]. split; [|exact Htabs].
  vm_compute in Hrun. injection Hrun as <-. vm_compute. reflexivity.
Defined.

(** With the empty string as argument every tab button is marked active,
    since every text includes the empty string. *)
Theorem showFramework_empty_marks_every_tab pg :
  (forall p x, get p (document pg) = Some x ->
     "tab-btn" ∈ classList (data x) -> is_Some (getAttribute "onclick" (data x))) ->
  exists pg',
    showFramework "" pg = (Ok tt, pg')
    /\ forall p x,
         get p (document pg') = Some x ->
         "tab-btn" ∈ classList (data x) -> "active" ∈ classList (data x).
Proof.
  intros Hall. destruct (showFramework_tabs "" pg Hall) as (pg' & Hrun & Htabs).
  exists pg'. split; [exact Hrun|]. intros p x Hx Htb.
  destruct (Htabs p x Hx Htb) as (o & _ & Hact). apply Hact, includes_empty.
Qed.

Lemma showFramework_empty_marks_every_tab_witness :
  exists pg',
    showFramework "" Sample2.examples = (Ok tt, pg')
    /\ forall p x,
         get p (document pg') = Some x ->
         "tab-btn" ∈ classList (data x) -> "active" ∈ classList (data x).
Proof.
  apply (showFramework_empty_marks_every_tab Sample2.examples).
  exact examples_tabs_have_onclick.
Defined.

(** A tab button without an onclick attribute makes [showFramework] end in a
    TypeError (the method call on null), whatever the argument. *)
Theorem showFramework_tab_without_onclick f pg p x :
  get p (document pg) = Some x ->
  "tab-btn" ∈ classList (data x) ->
  getAttribute "onclick" (data x) = None ->
  (showFramework f pg).1 = Throw TypeError.
Proof.
  intros Hx Htb Ho. rewrite showFramework_run.
  set (d1 := run_loop (with_data (mark_content f)) _ (document pg)).
  pose proof (run_loop_keeps (mark_content f)
                (fun e => (attrs e, contains "tab-btn" (classList e)))
                (querySelectorAll sel_framework_content (document pg))
                (fun e => f_equal (pair (attrs e))
                            (contains_classList_toggle_force "active" _ "tab-btn"
                               (classList e) ltac:(discriminate)))
                (document pg) p) as Hk.
  fold d1 in Hk. rewrite Hx in Hk.
  destruct (get p d1) as [x1|] eqn:H1; [|discriminate Hk].
  cbn in Hk. injection Hk as Ha Hc.
  apply (forEach_mark_tab_throws f _ _ p x1).
  - intros q Hq. apply elem_of_querySelectorAll in Hq as (y & Hy & _).
    cbn [document set_document]. eauto.
  - apply elem_of_querySelectorAll. exists x1. split; [exact H1|].
    cbn. rewrite andb_true_r, orb_false_r, Hc. apply bool_decide_eq_true. exact Htb.
  - exact H1.
  - unfold getAttribute in *. rewrite Ha. exact Ho.
Qed.

Lemma showFramework_tab_without_onclick_witness :
  (showFramework "php" Sample2.broken_tab).1 = Throw TypeError.
Proof.
  apply (showFramework_tab_without_onclick "php" Sample2.broken_tab [0; 0; 2]%nat
           (Element (mkData "button" ∅ ["tab-btn"] "" 0) [TextNode "PHP"])).
  - vm_compute; reflexivity.
  - apply (bool_decide_unpack _); vm_compute; exact I.
  - reflexivity.
Defined.

(** ** copyCode *)

(** The element above a written one, after the write. *)
Lemma get_modify_app f q : forall r el,
  get q (modify f (q ++ r) el) = modify f r <$> get q el.
Proof.
  induction q as [|i q IH]; intros r el; [reflexivity|].
  cbn [app modify get childNodes]. rewrite list_lookup_alter_eq.
  destruct (childNodes el !! i) as [[s|c]|]; cbn; [reflexivity|apply IH|reflexivity].
Qed.

Lemma get_modify_eq f p el :
  get p (modify f p el) = f <$> get p el.
Proof.
  rewrite <- (app_nil_r p) at 2. rewrite get_modify_app. reflexivity.
Qed.

(** A write below one child leaves what is under the other children. *)
Lemma get_modify_diverge f q i j r r' : forall el,
  i <> j ->
  get (q ++ j :: r') (modify f (q ++ i :: r) el) = get (q ++ j :: r') el.
Proof.
  induction q as [|k q IH]; intros el Hij.
  - cbn [app modify get childNodes]. rewrite list_lookup_alter_ne by exact Hij. reflexivity.
  - cbn [app modify get childNodes]. rewrite list_lookup_alter_eq.
    destruct (childNodes el !! k) as [[s|c]|]; cbn; [reflexivity|apply IH, Hij|reflexivity].
Qed.

Lemma split_last_Some p parent i : split_last p = Some (parent, i) -> p = parent ++ [i].
Proof.
  unfold split_last. destruct (rev p) as [|k rp] eqn:Hr; [discriminate|].
  intros H. injection H as <- <-.
  rewrite <- (rev_involutive p), Hr. reflexivity.
Qed.

Lemma find_element_ge j ks n : find_element j ks = Some n -> (j <= n)%nat.
Proof.
  revert j. induction ks as [|[s|c] ks IH]; intros j H; cbn in H.
  - discriminate.
  - apply IH in H. lia.
  - injection H as <-. lia.
Qed.

(** The next element sibling of [parent ++ [i]] is a later child of the
    same parent. *)
Lemma next_element_sibling_later p doc pre :
  next_element_sibling p doc = Some pre ->
  exists parent i j, p = parent ++ [i] /\ pre = parent ++ [j] /\ (i < j)%nat.
Proof.
  unfold next_element_sibling.
  destruct (split_last p) as [[parent i]|] eqn:Hs; [|discriminate].
  destruct (get parent doc) as [par|]; [|discriminate].
  destruct (find_element _ _) as [j|] eqn:Hf; [|discriminate].
  intros H. injection H as <-. apply find_element_ge in Hf.
  exists parent, i, j. split; [apply split_last_Some, Hs|]. split; [reflexivity|lia].
Qed.

(** A write to an element or below it does not change which element is its
    next sibling. *)
Lemma next_element_sibling_modify f p doc :
  next_element_sibling p (modify f p doc) = next_element_sibling p doc.
Proof.
  unfold next_element_sibling.
  destruct (split_last p) as [[parent i]|] eqn:Hs; [|reflexivity].
  apply split_last_Some in Hs. subst p. rewrite get_modify_app.
  destruct (get parent doc) as [par|]; [|reflexivity].
  cbn [fmap option_fmap option_map modify childNodes].
  rewrite drop_alter_lt by lia. reflexivity.
Qed.

(** A selector without combinator gives the same list whatever the
    ancestors are. *)
Lemma walk_subject_only c : forall el anc anc' here,
  walk [Subject c] anc here el = walk [Subject c] anc' here el.
Proof.
  induction el as [e ks IH] using element_ind. intros anc anc' here.
  cbn [walk]. f_equal. apply walk_children_ext. intros j k h Hj.
  exact (IH _ _ Hj _ _ h).
Qed.

(** What [el.querySelector] finds lies strictly below [el] and matches. *)
Lemma querySelector_within_below sel p doc c :
  querySelector_within sel p doc = Some c ->
  exists j q x, c = p ++ j :: q /\ get c doc = Some x
                /\ matches sel (ancestors c doc) (data x) = true.
Proof.
  unfold querySelector_within. destruct (get p doc) as [el|] eqn:Hp; [|discriminate].
  intros H. apply head_Some_elem_of in H.
  apply elem_of_walk_children in H as (j & k & Hj & Hin).
  apply elem_of_walk in Hin as (q & x & -> & Hq & Hm).
  replace (rev ((0 + j)%nat :: rev p) ++ q) with (p ++ j :: q)
    by (cbn; rewrite rev_involutive, <- app_assoc; reflexivity).
  exists j, q, x. split; [reflexivity|].
  assert (forall r (d : element) el0, get r d = Some el0 ->
            childNodes el0 !! j = Some (ElemNode k) ->
            get (r ++ j :: q) d = get q k
            /\ ancestors (r ++ j :: q) d = ancestors q k ++ data el0 :: ancestors r d) as Hgen.
  { induction r as [|i r IHr]; intros d el0 Hr Hk.
    - injection Hr as <-. cbn. rewrite Hk. split; reflexivity.
    - apply get_cons_Some in Hr as (c0 & Hc0 & Hr).
      destruct (IHr c0 el0 Hr Hk) as (Hg & Ha).
      cbn [app get ancestors]. rewrite Hc0. split; [exact Hg|].
      rewrite Ha. cbn [ancestors]. rewrite <- !app_assoc. reflexivity. }
  destruct (Hgen p doc el Hp Hj) as (Hg & Ha).
  split; [rewrite Hg; exact Hq|]. rewrite Ha. exact Hm.
Qed.

(** A write to a sibling does not change what [el.querySelector] finds, for
    a selector without combinator. *)
Lemma querySelector_within_sibling f c parent i j doc :
  i <> j ->
  querySelector_within [Subject c] (parent ++ [j]) (modify f (parent ++ [i]) doc)
  = querySelector_within [Subject c] (parent ++ [j]) doc.
Proof.
  intros Hij. unfold querySelector_within.
  rewrite (get_modify_diverge f parent i j [] [] doc Hij).
  destruct (get (parent ++ [j]) doc) as [el|]; [|reflexivity].
  f_equal. apply walk_children_ext. intros k x h _. apply walk_subject_only.
Qed.

Lemma session_eta s : mkSession (page_of s) (clipboard_writes s) (timers s) = s.
Proof. destruct s; reflexivity. Qed.

Lemma copyCode_run button s :
  copyCode button s
  = match next_element_sibling button (document (page_of s)) with
    | None => (Throw TypeError, s)
    | Some pre =>
        match querySelector_within sel_code pre (document (page_of s)) with
        | None => (Throw TypeError, s)
        | Some c =>
            match get c (document (page_of s)) with
            | None => (HostDefined, s)
            | Some x =>
                (Ok tt, mkSession (page_of s) (clipboard_writes s ++ [textContent x])
                          (timers s))
            end
        end
    end.
Proof.
  unfold copyCode, lift, nextElementSibling, element_querySelector, read_textContent,
    clipboard_writeText, deref.
  unfold mbind, mret, MS_bind, MS_ret, M_ret, read, throw.
  cbn [fst snd page_of clipboard_writes timers].
  destruct (next_element_sibling button (document (page_of s))) as [pre|];
    cbn [fst snd page_of clipboard_writes timers]; [|rewrite session_eta; reflexivity].
  destruct (querySelector_within sel_code pre (document (page_of s))) as [c|];
    cbn [fst snd page_of clipboard_writes timers]; [|rewrite session_eta; reflexivity].
  destruct (get c (document (page_of s))) as [x|];
    cbn [fst snd page_of clipboard_writes timers]; [reflexivity|].
  rewrite session_eta. reflexivity.
Qed.

Lemma copyCode_written_run button s :
  copyCode_written button s
  = match get button (document (page_of s)) with
    | None => (HostDefined, s)
    | Some b =>
        (Ok tt,
         mkSession
           (set_document
              (modify (set_textContent (fun _ => Some "Copied!")) button
                 (document (page_of s))) (page_of s))
           (clipboard_writes s) (timers s ++ [(button, textContent b)]))
    end.
Proof.
  unfold copyCode_written, lift, read_textContent, write_textContent, setTimeout_restore.
  unfold mbind, mret, MS_bind, MS_ret.
  destruct (get button (document (page_of s))) as [b|];
    cbn [fst snd page_of clipboard_writes timers]; [reflexivity|].
  rewrite session_eta. reflexivity.
Qed.

(** [copyCode] throws a TypeError, asks the clipboard for nothing and leaves
    the page as it is, when the button has no next element sibling and when
    that sibling holds no code element. *)
Theorem copyCode_without_code_block button s :
  next_element_sibling button (document (page_of s)) = None
  \/ (exists pre, next_element_sibling button (document (page_of s)) = Some pre
                 /\ querySelector_within sel_code pre (document (page_of s)) = None) ->
  copyCode button s = (Throw TypeError, s).
Proof.
  intros [H|(pre & H & Hc)]; rewrite copyCode_run, H; [reflexivity|].
  rewrite Hc. reflexivity.
Qed.

Lemma copyCode_without_code_block_witness :
  next_element_sibling [0; 0; 2]%nat (document (page_of Sample2.examples_session)) = None
  /\ copyCode [0; 0; 2]%nat Sample2.examples_session
     = (Throw TypeError, Sample2.examples_session).
Proof.
  split; [reflexivity|].
  apply (copyCode_without_code_block [0; 0; 2]%nat Sample2.examples_session).
  left. reflexivity.
Defined.

(** [copyCode] asks the clipboard for one text, the text of the first code
    element below the button's next element sibling, and writes nothing to
    the page: the label changes only when the browser reports the write
    done. *)
Theorem copyCode_requests_code_text button s pre c :
  next_element_sibling button (document (page_of s)) = Some pre ->
  querySelector_within sel_code pre (document (page_of s)) = Some c ->
  exists x parent i j k q,
    get c (document (page_of s)) = Some x
    /\ tagName (data x) = "code"
    /\ button = parent ++ [i] /\ pre = parent ++ [j] /\ (i < j)%nat
    /\ c = pre ++ k :: q
    /\ copyCode button s
       = (Ok tt, mkSession (page_of s) (clipboard_writes s ++ [textContent x]) (timers s)).
Proof.
  intros Hpre Hc.
  destruct (next_element_sibling_later _ _ _ Hpre) as (parent & i & j & Hb & Hp & Hij).
  destruct (querySelector_within_below _ _ _ _ Hc) as (k & q & x & Hcq & Hx & Hm).
  exists x, parent, i, j, k, q.
  split; [exact Hx|]. split.
  { cbn in Hm. rewrite andb_true_r, orb_false_r in Hm.
    apply bool_decide_eq_true in Hm. exact Hm. }
  split; [exact Hb|]. split; [exact Hp|]. split; [exact Hij|]. split; [exact Hcq|].
  rewrite copyCode_run, Hpre, Hc, Hx. reflexivity.
Qed.

Lemma copyCode_requests_code_text_witness :
  exists x,
    get [0; 1; 2; 0]%nat (document (page_of Sample2.examples_session)) = Some x
    /\ textContent x = "grant_type=client_credentials"
    /\ copyCode Sample2.copy_button Sample2.examples_session
       = (Ok tt, mkSession Sample2.examples ["grant_type=client_credentials"] []).
Proof.
  destruct (copyCode_requests_code_text Sample2.copy_button Sample2.examples_session
              [0; 1; 2]%nat [0; 1; 2; 0]%nat eq_refl eq_refl)
    as (x & parent & i & j & k & q & Hx & _ & _ & _ & _ & _ & Hrun).
  exists x. split; [exact Hx|].
  assert (textContent x = "grant_type=client_credentials") as Ht
    by (vm_compute in Hx; injection Hx as <-; reflexivity).
  split; [exact Ht|]. rewrite Hrun, Ht. reflexivity.
Defined.

Lemma MS_bind_Ok {A B} (m : MS A) (k : A -> MS B) s a s' :
  m s = (Ok a, s') -> (m ≫= k) s = k a s'.
Proof. intros H. unfold mbind, MS_bind. rewrite H. reflexivity. Qed.

Lemma modify_ext f g p : forall el,
  (forall x, f x = g x) -> modify f p el = modify g p el.
Proof.
  induction p as [|i p IH]; intros el H; [apply H|].
  cbn [modify]. f_equal. apply list_alter_ext; [|reflexivity].
  intros [s|c] _; cbn; [reflexivity|]. f_equal. apply IH, H.
Qed.

Lemma modify_modify g f p : forall el,
  modify g p (modify f p el) = modify (fun x => g (f x)) p el.
Proof.
  induction p as [|i p IH]; intros el; [reflexivity|].
  cbn [modify data childNodes]. f_equal. rewrite list_alter_alter_eq.
  apply list_alter_ext; [|reflexivity].
  intros [s|c] _; cbn; [reflexivity|]. f_equal. apply IH.
Qed.

(** A later text write to the same element replaces an earlier one. *)
Lemma write_text_twice v w p el :
  modify (set_textContent (fun _ => Some v)) p
    (modify (set_textContent (fun _ => Some w)) p el)
  = modify (set_textContent (fun _ => Some v)) p el.
Proof. rewrite modify_modify. apply modify_ext. intros x. reflexivity. Qed.

Lemma timer_fires_run button originalText rest pg cw :
  timer_fires (mkSession pg cw ((button, originalText) :: rest))
  = (Ok tt,
     mkSession
       (set_document
          (modify (set_textContent (fun _ => Some originalText)) button (document pg)) pg)
       cw rest).
Proof. reflexivity. Qed.

(** The code block a press reads is the same after the press changed the
    label. *)
Lemma copy_round_stable f button doc pre c x :
  next_element_sibling button doc = Some pre ->
  querySelector_within sel_code pre doc = Some c ->
  get c doc = Some x ->
  next_element_sibling button (modify f button doc) = Some pre
  /\ querySelector_within sel_code pre (modify f button doc) = Some c
  /\ get c (modify f button doc) = Some x.
Proof.
  intros Hpre Hc Hx.
  destruct (next_element_sibling_later _ _ _ Hpre) as (parent & i & j & -> & -> & Hij).
  destruct (querySelector_within_below _ _ _ _ Hc) as (k & q & _ & -> & _ & _).
  split; [rewrite next_element_sibling_modify; exact Hpre|].
  split; [unfold sel_code; rewrite querySelector_within_sibling by lia; exact Hc|].
  rewrite <- app_assoc in Hx |- *. cbn [app] in Hx |- *.
  rewrite (get_modify_diverge f parent i j [] (k :: q)) by lia. exact Hx.
Qed.

(** A press on a copy button with a code block after it, reported written
    and followed by its timer, hands the code's text to the clipboard and
    leaves the button with the text it had: the label is back, as one text
    node, and the button's fields are untouched. *)
Theorem copyCode_label_restored button s pre c b :
  next_element_sibling button (document (page_of s)) = Some pre ->
  querySelector_within sel_code pre (document (page_of s)) = Some c ->
  get button (document (page_of s)) = Some b ->
  timers s = [] ->
  exists x doc',
    get c (document (page_of s)) = Some x
    /\ press_and_wait button s
       = (Ok tt, mkSession (set_document doc' (page_of s))
                   (clipboard_writes s ++ [textContent x]) [])
    /\ (exists b', get button doc' = Some b'
                   /\ textContent b' = textContent b /\ data b' = data b
                   /\ childNodes b' = text_children (Some (textContent b))).
Proof.
  intros Hpre Hc Hb Htm.
  destruct (querySelector_within_below _ _ _ _ Hc) as (k & q & x & _ & Hx & _).
  exists x, (modify (set_textContent (fun _ => Some (textContent b))) button
               (document (page_of s))).
  split; [exact Hx|]. split.
  - unfold press_and_wait.
    change (copyCode button ;; copyCode_written button ;; timer_fires)
      with (copyCode button ≫= fun _ => copyCode_written button ≫= fun _ => timer_fires).
    erewrite MS_bind_Ok by (rewrite copyCode_run, Hpre, Hc, Hx; reflexivity).
    erewrite MS_bind_Ok
      by (rewrite copyCode_written_run; cbn [page_of clipboard_writes timers];
          rewrite Hb; reflexivity).
    rewrite Htm. cbn [app]. rewrite timer_fires_run.
    destruct (page_of s); cbn. rewrite write_text_twice. reflexivity.
  - exists (set_textContent (fun _ => Some (textContent b)) b).
    rewrite get_modify_eq, Hb. split; [reflexivity|].
    split; [apply textContent_text_children|]. split; reflexivity.
Qed.

Lemma copyCode_label_restored_witness :
  exists doc',
    press_and_wait Sample2.copy_button Sample2.examples_session
    = (Ok tt, mkSession (set_document doc' Sample2.examples)
                ["grant_type=client_credentials"] [])
    /\ textContent <$> get Sample2.copy_button doc' = Some "Copy".
Proof.
  destruct (copyCode_label_restored Sample2.copy_button Sample2.examples_session
              [0; 1; 2]%nat [0; 1; 2; 0]%nat _ eq_refl eq_refl eq_refl eq_refl)
    as (x & doc' & Hx & Hrun & b' & Hb' & Ht & _).
  exists doc'. split.
  - rewrite Hrun. vm_compute in Hx. injection Hx as <-. reflexivity.
  - rewrite Hb'. cbn [fmap option_fmap option_map]. rewrite Ht. reflexivity.
Defined.

(** Two presses before the first timer fires leave the label at Copied! for
    good: the second press reads Copied! as the original text, and its
    timer, the later one, writes that back.  Both presses hand the code's
    text to the clipboard. *)
Theorem copyCode_second_press_keeps_copied button s pre c b :
  next_element_sibling button (document (page_of s)) = Some pre ->
  querySelector_within sel_code pre (document (page_of s)) = Some c ->
  get button (document (page_of s)) = Some b ->
  timers s = [] ->
  exists x doc',
    get c (document (page_of s)) = Some x
    /\ press_twice_and_wait button s
       = (Ok tt, mkSession (set_document doc' (page_of s))
                   (clipboard_writes s ++ [textContent x; textContent x]) [])
    /\ (exists b', get button doc' = Some b'
                   /\ textContent b' = "Copied!" /\ data b' = data b).
Proof.
  intros Hpre Hc Hb Htm.
  destruct (querySelector_within_below _ _ _ _ Hc) as (k & q & x & _ & Hx & _).
  set (f := set_textContent (fun _ : edata => Some "Copied!")).
  destruct (copy_round_stable f _ _ _ _ _ Hpre Hc Hx) as (Hpre1 & Hc1 & Hx1).
  exists x, (modify f button (document (page_of s))).
  split; [exact Hx|]. split.
  - unfold press_twice_and_wait.
    change (copyCode button ;; copyCode_written button ;;
            copyCode button ;; copyCode_written button ;; timer_fires ;; timer_fires)
      with (copyCode button ≫= fun _ => copyCode_written button ≫= fun _ =>
            copyCode button ≫= fun _ => copyCode_written button ≫= fun _ =>
            timer_fires ≫= fun _ => timer_fires).
    erewrite MS_bind_Ok by (rewrite copyCode_run, Hpre, Hc, Hx; reflexivity).
    erewrite MS_bind_Ok
      by (rewrite copyCode_written_run; cbn [page_of clipboard_writes timers];
          rewrite Hb; reflexivity).
    rewrite Htm. cbn [app].
    erewrite MS_bind_Ok
      by (rewrite copyCode_run; cbn [page_of clipboard_writes timers];
          cbn [document set_document]; fold f; rewrite Hpre1, Hc1, Hx1; reflexivity).
    erewrite MS_bind_Ok
      by (rewrite copyCode_written_run; cbn [page_of clipboard_writes timers];
          cbn [document set_document]; fold f; rewrite get_modify_eq, Hb;
          cbn [fmap option_fmap option_map]; reflexivity).
    cbn [app]. erewrite MS_bind_Ok by apply timer_fires_run.
    rewrite timer_fires_run. rewrite <- app_assoc. cbn [app].
    destruct (page_of s); cbn. fold f.
    unfold f. rewrite !write_text_twice. reflexivity.
  - exists (f b). rewrite get_modify_eq, Hb. split; [reflexivity|].
    split; [apply textContent_text_children|reflexivity].
Qed.

Lemma copyCode_second_press_keeps_copied_witness :
  exists doc',
    press_twice_and_wait Sample2.copy_button Sample2.examples_session
    = (Ok tt, mkSession (set_document doc' Sample2.examples)
                ["grant_type=client_credentials"; "grant_type=client_credentials"] [])
    /\ textContent <$> get Sample2.copy_button doc' = Some "Copied!".
Proof.
  destruct (copyCode_second_press_keeps_copied Sample2.copy_button Sample2.examples_session
              [0; 1; 2]%nat [0; 1; 2; 0]%nat _ eq_refl eq_refl eq_refl eq_refl)
    as (x & doc' & Hx & Hrun & b' & Hb' & Ht & _).
  exists doc'. split.
  - rewrite Hrun. vm_compute in Hx. injection Hx as <-. reflexivity.
  - rewrite Hb'. cbn [fmap option_fmap option_map]. rewrite Ht. reflexivity.
Defined.

(** ** The startup handler, further *)

(** The startup handler restores what the store holds: the stored theme and
    language, dark and hr standing in for a missing or empty value, end up on
    the root element and in the store again, whatever the stored values are;
    and every sidebar link of the document then cancels the native jump of a
    click. *)
Theorem startup_applies_stored_preferences pg ps pm :
  querySelector sel_sun_icon (document pg) = Some ps ->
  querySelector sel_moon_icon (document pg) = Some pm ->
  exists pg',
    on_DOMContentLoaded pg = (Ok tt, pg')
    /\ getAttribute "data-theme" (data (document pg'))
       = Some (or_else (localStorage pg !! "theme") "dark")
    /\ getAttribute "lang" (data (document pg'))
       = Some (or_else (localStorage pg !! "language") "hr")
    /\ localStorage pg' !! "theme" = Some (or_else (localStorage pg !! "theme") "dark")
    /\ localStorage pg' !! "language" = Some (or_else (localStorage pg !! "language") "hr")
    /\ (forall k, k <> "theme" -> k <> "language" ->
          localStorage pg' !! k = localStorage pg !! k)
    /\ (forall a, a ∈ querySelectorAll sel_sidebar_links (document pg') ->
          (click a pg').1 = false).
Proof.
  intros Hs Hm.
  set (t := or_else (localStorage pg !! "theme") "dark").
  set (l := or_else (localStorage pg !! "language") "hr").
  pose (pp := querySelector [Subject [ById "prism-theme"]] (document pg)).
  pose (pg1 := themed t ps pm pp pg).
  assert (setTheme t pg = (Ok tt, pg1)) as H1 by (apply setTheme_run; assumption).
  assert (localStorage pg1 !! "language" = localStorage pg !! "language") as Hl1
    by (cbn; apply lookup_insert_ne; discriminate).
  destruct (switchLanguage_spec l pg1) as (pg2 & H2 & Ha & Hst & _).
  eexists. split.
  { apply (on_DOMContentLoaded_run pg pg1 pg2); [exact H1|].
    rewrite Hl1. exact H2. }
  cbn [document localStorage set_click_listeners set_observer].
  split.
  { unfold getAttribute. rewrite Ha, lookup_insert_ne by discriminate.
    apply themed_root_attribute. }
  split; [unfold getAttribute; rewrite Ha; apply lookup_insert_eq|].
  split; [rewrite Hst, lookup_insert_ne by discriminate; cbn; apply lookup_insert_eq|].
  split; [rewrite Hst; apply lookup_insert_eq|].
  split.
  { intros k Hk1 Hk2. rewrite Hst, lookup_insert_ne by congruence.
    cbn. apply lookup_insert_ne. congruence. }
  intros a Ha'. apply click_never_jumps.
  cbn [click_listeners set_click_listeners]. apply elem_of_app. right. exact Ha'.
Qed.

Lemma startup_applies_stored_preferences_witness :
  exists pg',
    on_DOMContentLoaded
      (set_localStorage (<["theme" := "light"]> (<["language" := "en"]> ∅)) Sample.fresh)
    = (Ok tt, pg')
    /\ getAttribute "data-theme" (data (document pg')) = Some "light"
    /\ getAttribute "lang" (data (document pg')) = Some "en"
    /\ (click [1; 0; 0; 1]%nat pg').1 = false.
Proof.
  destruct (startup_applies_stored_preferences
              (set_localStorage (<["theme" := "light"]> (<["language" := "en"]> ∅)) Sample.fresh)
              Sample.sun_path Sample.moon_path eq_refl eq_refl)
    as (pg' & Hrun & Ht & Hl & _ & _ & _ & Hclick).
  exists pg'. split; [exact Hrun|]. split; [exact Ht|]. split; [exact Hl|].
  apply Hclick. vm_compute in Hrun. injection Hrun as <-.
  apply (bool_decide_unpack _); vm_compute; exact I.
Defined.

Lemma startup_without_sun_icon_witness :
  querySelector sel_sun_icon (document Sample2.no_icons) = None
  /\ (on_DOMContentLoaded Sample2.no_icons).1 = Throw TypeError
  /\ click_listeners (on_DOMContentLoaded Sample2.no_icons).2 = [].
Proof.
  split; [reflexivity|].
  destruct (startup_without_sun_icon Sample2.no_icons eq_refl) as (H1 & _ & H3).
  split; [exact H1|]. rewrite H3. reflexivity.
Defined.

(** ** askAI, further *)

(** For a topic and a language that name no member of Object.prototype,
    [askAI] does one of two things.  When the active language (the lang
    attribute of the root, hr when that is empty) is neither hr nor en, it
    throws a TypeError and leaves the page untouched.  Otherwise it returns
    and opens one window, target _blank, at the assistant endpoint followed
    by a query value of unreserved characters and percent escapes, and
    changes nothing else: it never writes to the document or the store. *)
Theorem askAI_only_opens_a_window context pg :
  let l := default "" (getAttribute "lang" (data (document pg))) in
  let lang := if decide (l = "") then "hr" else l in
  context ∉ object_prototype_keys ->
  lang ∉ object_prototype_keys ->
  (lang <> "hr" /\ lang <> "en" /\ askAI context pg = (Throw TypeError, pg))
  \/ ((lang = "hr" \/ lang = "en")
      /\ exists q,
           Str.all_chars Str.query_safe q = true
           /\ askAI context pg
              = (Ok tt, set_windows (windows pg ++ [(bornAI_base +:+ q, "_blank")]) pg)).
Proof.
  intros l lang Hc Hlang. unfold askAI, documentElement_lang, window_open.
  unfold mbind, mret, M_bind, M_ret, read, write. fold l. fold lang.
  clearbody lang. clear l.
  destruct (decide (lang = "hr")) as [->|Nhr]; [|destruct (decide (lang = "en")) as [->|Nen]].
  - right. split; [left; reflexivity|]. eval_get_property.
    destruct (decide (context ∈ topic_keys)) as [Hin|Hnin].
    + unfold topic_keys in Hin.
      repeat (apply elem_of_cons in Hin as [->|Hin]);
        [| | | |apply elem_of_nil in Hin; destruct Hin].
      all: eval_get_property.
      all: eexists; split; [apply encodeURIComponent_query_safe|reflexivity].
    + rewrite (get_property_absent _ _ _ (own_property_topic _ _ _ _ _ Hnin) Hc).
      cbn [truthy]; cbn iota beta. eval_get_property; eval_get_property.
      eexists; split; [apply encodeURIComponent_query_safe|reflexivity].
  - right. split; [right; reflexivity|]. eval_get_property.
    destruct (decide (context ∈ topic_keys)) as [Hin|Hnin].
    + unfold topic_keys in Hin.
      repeat (apply elem_of_cons in Hin as [->|Hin]);
        [| | | |apply elem_of_nil in Hin; destruct Hin].
      all: eval_get_property.
      all: eexists; split; [apply encodeURIComponent_query_safe|reflexivity].
    + rewrite (get_property_absent _ _ _ (own_property_topic _ _ _ _ _ Hnin) Hc).
      cbn [truthy]; cbn iota beta. eval_get_property; eval_get_property.
      eexists; split; [apply encodeURIComponent_query_safe|reflexivity].
  - left. split; [exact Nhr|]. split; [exact Nen|].
    assert (get_property prompts lang pg = (Ok Undefined, pg)) as Hrun.
    { apply get_property_absent; [|exact Hlang].
      cbn [own_property]. rewrite !decide_False by assumption. reflexivity. }
    rewrite Hrun. reflexivity.
Qed.

Lemma askAI_only_opens_a_window_witness :
  askAI "pricing" Sample.german = (Throw TypeError, Sample.german)
  /\ exists q,
       Str.all_chars Str.query_safe q = true
       /\ askAI "pricing" Sample.english
          = (Ok tt, set_windows [(bornAI_base +:+ q, "_blank")] Sample.english).
Proof.
  assert ("pricing" ∉ object_prototype_keys) as Hc
    by (apply (bool_decide_unpack _); vm_compute; exact I).
  split.
  - destruct (askAI_only_opens_a_window "pricing" Sample.german Hc) as [(_ & _ & H)|([E|E] & _)].
    + apply (bool_decide_unpack _); vm_compute; exact I.
    + exact H.
    + vm_compute in E. discriminate E.
    + vm_compute in E. discriminate E.
  - destruct (askAI_only_opens_a_window "pricing" Sample.english Hc) as [(_ & N & _)|(_ & H)].
    + apply (bool_decide_unpack _); vm_compute; exact I.
    + exfalso. apply N. reflexivity.
    + exact H.
Defined.

(** With the language attribute missing (empty), hr or en, and one of the
    four topic keys, [askAI] opens the assistant with the prompt the table
    of the active language holds under that key, hr standing in for a
    missing language. *)
Theorem askAI_known_topic_opens_its_prompt context pg :
  let l := default "" (getAttribute "lang" (data (document pg))) in
  l = "" \/ l = "hr" \/ l = "en" ->
  context ∈ topic_keys ->
  exists own table text,
    prompts = Obj own
    /\ own_property (if decide (l = "") then "hr" else l) own = Some (Obj table)
    /\ own_property context table = Some (JStr text)
    /\ askAI context pg
       = (Ok tt,
          set_windows
            (windows pg ++ [(bornAI_base +:+ Str.encodeURIComponent text, "_blank")]) pg).
Proof.
  intros l Hl Hc. unfold askAI, documentElement_lang, window_open.
  unfold mbind, mret, M_bind, M_ret, read, write. fold l.
  unfold topic_keys in Hc.
  repeat (apply elem_of_cons in Hc as [->|Hc]); [| | | |apply elem_of_nil in Hc; destruct Hc].
  all: destruct Hl as [E | [E | E]]; rewrite E; cbn [decide_rel].
  all: eexists _, _, _; split; [reflexivity|].
  all: split; [reflexivity|]; split; [reflexivity|].
  all: eval_get_property; eval_get_property; reflexivity.
Qed.

Lemma askAI_known_topic_opens_its_prompt_witness :
  ("endpoints" ∈ topic_keys)
  /\ windows (askAI "endpoints" Sample.english).2
     = [(bornAI_base +:+
           Str.encodeURIComponent
             "Can you explain the different SudReg API endpoints and what each one does?",
         "_blank")].
Proof.
  assert ("endpoints" ∈ topic_keys) as Hin
    by (apply (bool_decide_unpack _); vm_compute; exact I).
  split; [exact Hin|].
  destruct (askAI_known_topic_opens_its_prompt "endpoints" Sample.english
              (or_intror (or_intror eq_refl)) Hin)
    as (own & table & text & Hown & Htable & Htext & Hrun).
  rewrite Hrun. cbn [snd windows set_windows].
  injection Hown as <-. cbn in Htable. injection Htable as <-.
  cbn in Htext. injection Htext as <-. reflexivity.
Defined.
